(** * Biznesinfo export scripts: website backfill and legacy-brand rewriting

    A shallow embedding of
      - [scripts/verify_backfill_websites_from_ibiz.py] (module [Backfill]) and
      - [scripts/rewrite_company_exports.py]            (module [Rewrite]),
    together with the pieces of the Python runtime the two scripts lean on
    (module [Py]).

    Modelling conventions.
      - A Python [str] is a Rocq [string].  The character predicates below
        are Python's on the ASCII range (code points 0..127); the remaining
        values of Rocq's [ascii] are carried around as opaque characters that
        are neither white space, nor digits, nor cased.
      - [dict[str, V]] used as a lookup table is a [gmap string V], a
        [set[str]] is a [gset string].  A JSON object, whose key order shows
        in the serialised file, is an association list.
      - Code that can raise returns a [result]; the exception is named.
      - [json.loads], [urllib.parse.urlparse] and the [writerow] of
        [csv.writer] belong to the standard library and are parameters of
        the definitions that call them; [json.dumps], [str] and [repr] are
        written out.
      - A write to a file opened as UTF-8 raises [UnicodeEncodeError] on a
        text that holds a lone surrogate. The loops over a file do not
        model that failure: what is stated of a run that completes takes
        the completion as a hypothesis.
      - The module [Unicode] embeds the normalisers of the backfill script
        a second time, on sequences of code points and with the character
        tables of the interpreter as a parameter; what is proved there
        holds of every text, what is proved of [Backfill] and [Rewrite] is
        about ASCII text.

    The modules [Py], [Backfill], [Rewrite] and [Unicode] hold the
    embedding, [Spec] the notions and sample data used to state the
    properties, and [PyFacts], [BackfillFacts], [RewriteFacts] and
    [UnicodeFacts] the proofs. *)

From Stdlib Require Import Ascii ZArith NArith.
From Stdlib Require String DecimalString.
From stdpp Require Import gmap strings list fin_maps sorting.

(** ** The Python runtime, as far as the scripts use it *)
Module Py.

(** *** Exceptions *)

Inductive exn : Type :=
| AttributeError   (* a method looked up on a value that lacks it *)
| TypeError        (* iteration over a non-iterable, regex on a non-str *)
| StopIteration    (* [next] on an exhausted iterator *)
| KeyError.        (* [d[k]] on a missing key *)

Inductive result (A : Type) : Type :=
| Ok (a : A)
| Raise (e : exn).
Arguments Ok {A} a.
Arguments Raise {A} e.

#[global] Instance result_ret : MRet result := fun _ a => Ok a.
#[global] Instance result_bind : MBind result := fun _ _ f m =>
  match m with Ok a => f a | Raise e => Raise e end.
#[global] Instance result_fmap : FMap result := fun _ _ f m =>
  match m with Ok a => Ok (f a) | Raise e => Raise e end.

Definition is_ok {A} (m : result A) : bool :=
  match m with Ok _ => true | Raise _ => false end.

(** [for x in xs: body] where the body may raise: the first exception
    aborts the loop. *)
Fixpoint mapM {A B} (f : A → result B) (xs : list A) : result (list B) :=
  match xs with
  | [] => Ok []
  | x :: xs' => y ← f x; ys ← mapM f xs'; Ok (y :: ys)
  end.

(** *** Characters *)

Definition isspace (c : ascii) : bool :=
  let n := nat_of_ascii c in
  ((9 <=? n) && (n <=? 13)) || ((28 <=? n) && (n <=? 32)).

Definition isdigit (c : ascii) : bool :=
  let n := nat_of_ascii c in (48 <=? n) && (n <=? 57).

Definition lower_char (c : ascii) : ascii :=
  let n := nat_of_ascii c in
  if (65 <=? n) && (n <=? 90) then ascii_of_nat (n + 32) else c.

(** *** [str] methods *)

Fixpoint str_map (f : ascii → ascii) (s : string) : string :=
  match s with
  | EmptyString => EmptyString
  | String c r => String (f c) (str_map f r)
  end.

Fixpoint str_filter (p : ascii → bool) (s : string) : string :=
  match s with
  | EmptyString => EmptyString
  | String c r => if p c then String c (str_filter p r) else str_filter p r
  end.

Fixpoint str_forall (p : ascii → bool) (s : string) : bool :=
  match s with
  | EmptyString => true
  | String c r => p c && str_forall p r
  end.

Definition is_empty (s : string) : bool :=
  match s with EmptyString => true | String _ _ => false end.

(** [s.lower()]; on ASCII text [s.casefold()] is the same function. *)
Definition lower (s : string) : string := str_map lower_char s.
Definition casefold (s : string) : string := lower s.

Fixpoint lstrip (s : string) : string :=
  match s with
  | EmptyString => EmptyString
  | String c r => if isspace c then lstrip r else s
  end.

Fixpoint rstrip (s : string) : string :=
  match s with
  | EmptyString => EmptyString
  | String c r =>
      let r' := rstrip r in
      if isspace c && is_empty r' then EmptyString else String c r'
  end.

(** [s.strip()] *)
Definition strip (s : string) : string := rstrip (lstrip s).

(** [s.startswith(p)] *)
Definition startswith (s p : string) : bool := String.prefix p s.

(** [sub in s] for strings *)
Fixpoint str_in (sub s : string) : bool :=
  String.prefix sub s ||
  match s with
  | EmptyString => false
  | String _ r => str_in sub r
  end.

(** [s.isdigit()]: non-empty and all digits. *)
Definition str_isdigit (s : string) : bool :=
  negb (is_empty s) && str_forall isdigit s.

(** [sep.join(xs)] *)
Definition join (sep : string) (xs : list string) : string :=
  String.concat sep xs.

(** *** The regular expressions of the scripts *)

(** [re.findall(r"\d+", s)]: the maximal runs of digits, left to right.
    [cur] is the run being read. *)
Fixpoint findall_digits_go (cur s : string) : list string :=
  match s with
  | EmptyString => if is_empty cur then [] else [cur]
  | String c r =>
      if isdigit c then findall_digits_go (cur +:+ String c EmptyString) r
      else (if is_empty cur then [] else [cur]) ++ findall_digits_go EmptyString r
  end.
Definition findall_digits (s : string) : list string :=
  findall_digits_go EmptyString s.

(** [re.sub(r"\s+", " ", s)]: every maximal run of white space becomes one
    blank.  [in_run] says that the previous character was white space. *)
Fixpoint sub_ws_runs_go (in_run : bool) (s : string) : string :=
  match s with
  | EmptyString => EmptyString
  | String c r =>
      if isspace c then
        if in_run then sub_ws_runs_go true r
        else String " " (sub_ws_runs_go true r)
      else String c (sub_ws_runs_go false r)
  end.
Definition sub_ws_runs (s : string) : string := sub_ws_runs_go false s.

(** [re.match(r"^https?://", s, flags=re.IGNORECASE)] as a truth value. *)
Definition match_http_scheme (s : string) : bool :=
  let low := lower s in
  String.prefix "http://" low || String.prefix "https://" low.

(** [re.compile(re.escape(tok), re.IGNORECASE).sub(repl, s)] for a
    non-empty literal [tok]: the non-overlapping
    matches are found left to right and each is replaced once; the text of
    a replacement is not scanned again.  [skip] counts the characters of
    the current match that remain to be dropped. *)
Fixpoint sub_ci_go (tok repl : string) (skip : nat) (s : string) : string :=
  match s with
  | EmptyString => EmptyString
  | String c r =>
      match skip with
      | S k => sub_ci_go tok repl k r
      | O =>
          if String.prefix (lower tok) (lower s)
          then repl +:+ sub_ci_go tok repl (String.length tok - 1) r
          else String c (sub_ci_go tok repl 0 r)
      end
  end.

(** With the empty pattern Python matches at every position. *)
Fixpoint sub_empty (repl : string) (s : string) : string :=
  match s with
  | EmptyString => repl
  | String c r => repl +:+ String c (sub_empty repl r)
  end.

Definition sub_ci (tok repl s : string) : string :=
  if is_empty tok then sub_empty repl s else sub_ci_go tok repl 0 s.

(** *** JSON values, as [json.loads] returns them

    An [int] is a [Z]; a [float] is carried by the text of its [repr],
    the only thing the scripts ever do with one besides testing it for
    zero; an object keeps its keys in insertion order. *)

#[warnings="-register-all"]
Inductive json : Type :=
| JNull
| JBool (b : bool)
| JInt (n : Z)
| JFloat (repr : string)
| JStr (s : string)
| JArr (xs : list json)
| JObj (kvs : list (string * json)).

Definition float_is_zero (repr : string) : bool :=
  String.eqb repr "0.0" || String.eqb repr "-0.0".

(** Truth value of a JSON value ([bool(v)], [v or d], [if v:]). *)
Definition truthy (v : json) : bool :=
  match v with
  | JNull => false
  | JBool b => b
  | JInt n => negb (n =? 0)%Z
  | JFloat r => negb (float_is_zero r)
  | JStr s => negb (is_empty s)
  | JArr xs => match xs with [] => false | _ => true end
  | JObj kvs => match kvs with [] => false | _ => true end
  end.

(** [v or d] *)
Definition py_or (v d : json) : json := if truthy v then v else d.

(** [d.get(k)] on an association list: the value, or [None]. *)
Fixpoint assoc_get (k : string) (kvs : list (string * json)) : option json :=
  match kvs with
  | [] => None
  | (k', v) :: rest => if String.eqb k' k then Some v else assoc_get k rest
  end.

(** [d[k] = v] on an association list: an existing key keeps its place. *)
Fixpoint assoc_set (k : string) (v : json) (kvs : list (string * json))
  : list (string * json) :=
  match kvs with
  | [] => [(k, v)]
  | (k', v') :: rest =>
      if String.eqb k' k then (k', v) :: rest else (k', v') :: assoc_set k v rest
  end.

(** [obj[k] = v]: item assignment needs a dict (a list wants an integer
    index, the other values support no item assignment). *)
Definition py_setitem (obj : json) (k : string) (v : json) : result json :=
  match obj with
  | JObj kvs => Ok (JObj (assoc_set k v kvs))
  | _ => Raise TypeError
  end.

(** [obj.get(k)]: only a dict has the method. *)
Definition py_get (obj : json) (k : string) : result json :=
  match obj with
  | JObj kvs => Ok (default JNull (assoc_get k kvs))
  | _ => Raise AttributeError
  end.

(** [v.strip()]: only a [str] has the method. *)
Definition py_strip (v : json) : result string :=
  match v with
  | JStr s => Ok (strip s)
  | _ => Raise AttributeError
  end.

(** [for x in v]: a list yields its items, a [str] its characters, a dict
    its keys; nothing else is iterable. *)
Fixpoint chars_of (s : string) : list json :=
  match s with
  | EmptyString => []
  | String c r => JStr (String c EmptyString) :: chars_of r
  end.

Definition py_iter (v : json) : result (list json) :=
  match v with
  | JArr xs => Ok xs
  | JStr s => Ok (chars_of s)
  | JObj kvs => Ok (JStr <$> kvs.*1)
  | _ => Raise TypeError
  end.

(** *** [repr], [str] and [json.dumps] of JSON values *)

Definition squote : ascii := "039"%char.
Definition dquote : ascii := "034"%char.
Definition backslash : ascii := "092"%char.

Definition hex_digit (n : nat) : ascii :=
  nth n (String.list_ascii_of_string "0123456789abcdef") "0"%char.

Fixpoint str_mem (c : ascii) (s : string) : bool :=
  match s with
  | EmptyString => false
  | String d r => Ascii.eqb c d || str_mem c r
  end.

Definition repr_char (quote c : ascii) : string :=
  let n := nat_of_ascii c in
  if Ascii.eqb c backslash then String backslash (String backslash EmptyString)
  else if Ascii.eqb c quote then String backslash (String quote EmptyString)
  else if n =? 9 then String backslash "t"
  else if n =? 10 then String backslash "n"
  else if n =? 13 then String backslash "r"
  else if (n <? 32) || (n =? 127) then
    String backslash (String "x" (String (hex_digit (n / 16))
                                   (String (hex_digit (n mod 16)) EmptyString)))
  else String c EmptyString.

Fixpoint repr_chars (quote : ascii) (s : string) : string :=
  match s with
  | EmptyString => EmptyString
  | String c r => repr_char quote c +:+ repr_chars quote r
  end.

(** [repr(s)] of a [str]: single quotes, unless the text holds a single
    quote and no double quote. *)
Definition repr_str (s : string) : string :=
  let quote := if str_mem squote s && negb (str_mem dquote s) then dquote else squote in
  String quote (repr_chars quote s) +:+ String quote EmptyString.

Definition str_of_int (n : Z) : string :=
  DecimalString.NilZero.string_of_int (Z.to_int n).

Fixpoint py_repr (v : json) : string :=
  match v with
  | JNull => "None"
  | JBool true => "True"
  | JBool false => "False"
  | JInt n => str_of_int n
  | JFloat r => r
  | JStr s => repr_str s
  | JArr xs => "[" +:+ join ", " (map py_repr xs) +:+ "]"
  | JObj kvs =>
      "{" +:+ join ", " (map (fun kv => repr_str (fst kv) +:+ ": " +:+ py_repr (snd kv)) kvs)
          +:+ "}"
  end.

(** [str(v)] *)
Definition py_str (v : json) : string :=
  match v with
  | JStr s => s
  | _ => py_repr v
  end.

(** [json.dumps(v, ensure_ascii=False, separators=(item_sep, key_sep))].
    A string is quoted with the control characters, the quote and the
    backslash escaped; a float prints as its [repr], the three non-finite
    ones by their JavaScript names. *)
Definition json_escape_char (c : ascii) : string :=
  let n := nat_of_ascii c in
  if Ascii.eqb c dquote then String backslash (String dquote EmptyString)
  else if Ascii.eqb c backslash then String backslash (String backslash EmptyString)
  else if n =? 10 then String backslash "n"
  else if n =? 13 then String backslash "r"
  else if n =? 9 then String backslash "t"
  else if n =? 8 then String backslash "b"
  else if n =? 12 then String backslash "f"
  else if n <? 32 then
    String backslash (String "u" (String "0" (String "0"
      (String (hex_digit (n / 16)) (String (hex_digit (n mod 16)) EmptyString)))))
  else String c EmptyString.

Fixpoint json_escape (s : string) : string :=
  match s with
  | EmptyString => EmptyString
  | String c r => json_escape_char c +:+ json_escape r
  end.

Definition json_quote (s : string) : string :=
  String dquote (json_escape s) +:+ String dquote EmptyString.

Definition json_float (repr : string) : string :=
  if String.eqb repr "nan" then "NaN"
  else if String.eqb repr "inf" then "Infinity"
  else if String.eqb repr "-inf" then "-Infinity"
  else repr.

Fixpoint json_dumps (item_sep key_sep : string) (v : json) : string :=
  match v with
  | JNull => "null"
  | JBool true => "true"
  | JBool false => "false"
  | JInt n => str_of_int n
  | JFloat r => json_float r
  | JStr s => json_quote s
  | JArr xs => "[" +:+ join item_sep (map (json_dumps item_sep key_sep) xs) +:+ "]"
  | JObj kvs =>
      "{" +:+ join item_sep
                (map (fun kv => json_quote (fst kv) +:+ key_sep
                                +:+ json_dumps item_sep key_sep (snd kv)) kvs)
          +:+ "}"
  end.

End Py.

(** ** [scripts/verify_backfill_websites_from_ibiz.py] *)
Module Backfill.
Import Py.

Definition IMPORTED_SOURCE_ID_PREFIX : string := "biznesinfo-".
Definition STRONG_EVIDENCE : gset string :=
  {[ "direct_source_id"; "phone"; "email"; "unp" ]}.

(** *** Normalisers

    The argument is a [str] or [None]; [raw or ""] turns [None] into the
    empty string and leaves a [str] as it is. *)

Definition or_empty (raw : option string) : string := default "" raw.

Definition norm_space (value : option string) : string :=
  sub_ws_runs (strip (or_empty value)).

Definition norm_text (value : option string) : string :=
  casefold (norm_space value).

Definition normalize_phone (raw : option string) : string :=
  join "" (findall_digits (or_empty raw)).

Definition normalize_email (raw : option string) : string :=
  casefold (strip (or_empty raw)).

Definition normalize_unp (raw : option string) : string :=
  join "" (findall_digits (or_empty raw)).

(** The same five bodies on an arbitrary Python value, where the method
    calls and the regular expressions can fail: [.strip()] needs a [str]
    ([AttributeError]), [re.findall] a [str] too ([TypeError]). *)

Definition py_findall_digits (v : json) : result (list string) :=
  match v with
  | JStr s => Ok (findall_digits s)
  | _ => Raise TypeError
  end.

Definition norm_space_dyn (value : json) : result string :=
  s ← py_strip (py_or value (JStr "")); Ok (sub_ws_runs s).

Definition norm_text_dyn (value : json) : result string :=
  s ← norm_space_dyn value; Ok (casefold s).

Definition normalize_phone_dyn (raw : json) : result string :=
  runs ← py_findall_digits (py_or raw (JStr "")); Ok (join "" runs).

Definition normalize_email_dyn (raw : json) : result string :=
  s ← py_strip (py_or raw (JStr "")); Ok (casefold s).

Definition normalize_unp_dyn (raw : json) : result string :=
  runs ← py_findall_digits (py_or raw (JStr "")); Ok (join "" runs).

(** A [str] or [None] as a Python value. *)
Definition py_opt (raw : option string) : json :=
  match raw with
  | Some s => JStr s
  | None => JNull
  end.

(** [seen] is the set of values already emitted. *)
Fixpoint uniq_keep_order_go (seen : gset string) (values : list string) : list string :=
  match values with
  | [] => []
  | v :: rest =>
      let s := strip v in
      if is_empty s then uniq_keep_order_go seen rest
      else if decide (s ∈ seen) then uniq_keep_order_go seen rest
      else s :: uniq_keep_order_go ({[ s ]} ∪ seen) rest
  end.
Definition uniq_keep_order (values : list string) : list string :=
  uniq_keep_order_go ∅ values.

(** The body of the loop of [normalize_websites] after [s = (raw or "").strip()]:
    [None] when the entry is dropped. *)
Definition website_entry (s : string) : option string :=
  if is_empty s then None
  else if startswith (lower s) "mailto:" || startswith (lower s) "tel:" then None
  else if match_http_scheme s then Some s
  else Some ("https://" +:+ s).

(** [normalize_websites] on its declared argument type [list[str]]. *)
Definition normalize_websites (values : list string) : list string :=
  uniq_keep_order (omap (fun raw => website_entry (strip raw)) values).

(** The same body on an untyped value, as [apply_backfill] and [main] call
    it with [obj.get("websites") or []]: iterating a non-iterable and
    stripping a non-[str] item raise. *)
Definition normalize_websites_dyn (values : json) : result (list string) :=
  items ← py_iter values;
  stripped ← mapM (fun raw => py_strip (py_or raw (JStr ""))) items;
  Ok (uniq_keep_order (omap website_entry stripped)).

Definition source_prefix (source_id : string) : string :=
  let sid := strip source_id in
  if startswith sid IMPORTED_SOURCE_ID_PREFIX then IMPORTED_SOURCE_ID_PREFIX
  else if str_isdigit sid then "digits"
  else "other".

(** *** Records

    The two dataclasses; a tuple field is a list, [str | None] an option.
    The fields carry a prefix because the source uses [name], [address]
    and [source_prefix] for other things as well. *)

Record IbizCompany : Type := {
  ic_subdomain : string;
  ic_name : string;
  ic_address : string;
  ic_unp : string;
  ic_phones : list string;
  ic_emails : list string;
  ic_websites : list string;
}.

Record MatchDecision : Type := {
  md_source_id : string;
  md_name : string;
  md_address : string;
  md_source_prefix : string;
  md_evidence_by_candidate : gmap string (gset string);
  md_match_type : string;
  md_auto_candidate : option string;
}.

(** *** Indexes over the secondary dataset *)

(** [index[key].add(subdomain)] on a [defaultdict(set)] *)
Definition index_add (key subdomain : string) (index : gmap string (gset string))
  : gmap string (gset string) :=
  <[ key := {[ subdomain ]} ∪ default ∅ (index !! key) ]> index.

Record Indexes : Type := {
  by_phone : gmap string (gset string);
  by_email : gmap string (gset string);
  by_unp : gmap string (gset string);
  by_name_addr : gmap string (gset string);
}.

Definition name_addr_key (name address : string) : string :=
  norm_text (Some name) +:+ "||" +:+ norm_text (Some address).

(** One turn of [for subdomain, company in companies.items()]. *)
Definition index_company (subdomain : string) (company : IbizCompany) (ix : Indexes)
  : Indexes :=
  let by_phone' := foldl (fun ix phone => index_add phone subdomain ix)
                         (by_phone ix) (ic_phones company) in
  let by_email' := foldl (fun ix email => index_add email subdomain ix)
                         (by_email ix) (ic_emails company) in
  let by_unp' := if decide (6 ≤ String.length (ic_unp company))
                 then index_add (ic_unp company) subdomain (by_unp ix)
                 else by_unp ix in
  let key := name_addr_key (ic_name company) (ic_address company) in
  let by_name_addr' := if decide (key ≠ "||")
                       then index_add key subdomain (by_name_addr ix)
                       else by_name_addr ix in
  {| by_phone := by_phone'; by_email := by_email';
     by_unp := by_unp'; by_name_addr := by_name_addr' |}.

Definition build_ibiz_indexes (companies : gmap string IbizCompany) : Indexes :=
  map_fold index_company
    {| by_phone := ∅; by_email := ∅; by_unp := ∅; by_name_addr := ∅ |} companies.

(** *** Candidate collection *)

(** [candidates[subdomain].add(tag)] on a [defaultdict(set)] *)
Definition add_evidence (tag subdomain : string) (candidates : gmap string (gset string))
  : gmap string (gset string) :=
  <[ subdomain := {[ tag ]} ∪ default ∅ (candidates !! subdomain) ]> candidates.

(** [for subdomain in index.get(key, set()): candidates[subdomain].add(tag)] *)
Definition add_hits (tag key : string) (index candidates : gmap string (gset string))
  : gmap string (gset string) :=
  set_fold (add_evidence tag) candidates (default ∅ (index !! key)).

(** [str(company.get(field) or "")] *)
Definition field_str (company : json) (field : string) : result string :=
  v ← py_get company field; Ok (py_str (py_or v (JStr ""))).

(** [str(obj.get("source_id") or "").strip()] *)
Definition row_source_id (obj : json) : result string :=
  sid ← field_str obj "source_id"; Ok (strip sid).

(** [normalize_websites(obj.get("websites") or [])] *)
Definition row_websites (obj : json) : result (list string) :=
  websites ← py_get obj "websites";
  normalize_websites_dyn (py_or websites (JArr [])).

Definition collect_candidates (company : json)
    (ibiz_companies : gmap string IbizCompany) (ix : Indexes)
  : result (gmap string (gset string)) :=
  let candidates : gmap string (gset string) := ∅ in
  source_id ← row_source_id company;
  let candidates :=
    if negb (is_empty source_id) && bool_decide (is_Some (ibiz_companies !! source_id))
    then add_evidence "direct_source_id" source_id candidates else candidates in
  phones ← py_get company "phones";
  raw_phones ← py_iter (py_or phones (JArr []));
  let candidates :=
    foldl (fun candidates raw_phone =>
             let phone := normalize_phone (Some (py_str raw_phone)) in
             if decide (String.length phone < 9) then candidates
             else add_hits "phone" phone (by_phone ix) candidates)
          candidates raw_phones in
  emails ← py_get company "emails";
  raw_emails ← py_iter (py_or emails (JArr []));
  let candidates :=
    foldl (fun candidates raw_email =>
             let email := normalize_email (Some (py_str raw_email)) in
             if is_empty email then candidates
             else add_hits "email" email (by_email ix) candidates)
          candidates raw_emails in
  unp_raw ← field_str company "unp";
  let unp := normalize_unp (Some unp_raw) in
  let candidates :=
    if decide (6 ≤ String.length unp)
    then add_hits "unp" unp (by_unp ix) candidates else candidates in
  name ← field_str company "name";
  address ← field_str company "address";
  let key := name_addr_key name address in
  let candidates :=
    if decide (key ≠ "||")
    then add_hits "name_addr" key (by_name_addr ix) candidates else candidates in
  Ok candidates.

(** *** The decision policy *)

(** [next(iter(d.keys()))]. The code reaches it only for a dict with one
    key, where the order of iteration plays no part. *)
Definition first_key {V} (d : gmap string V) : result string :=
  match (map_to_list d).*1 with
  | k :: _ => Ok k
  | [] => Raise StopIteration
  end.

(** [d[k]] *)
Definition getitem {V} (d : gmap string V) (k : string) : result V :=
  match d !! k with
  | Some v => Ok v
  | None => Raise KeyError
  end.

Definition decide_match (source_id name address : string)
    (candidates : gmap string (gset string)) (allow_weak_name_address : bool)
  : result MatchDecision :=
  let prefix := source_prefix source_id in
  if decide (candidates = ∅) then
    Ok {| md_source_id := source_id; md_name := name; md_address := address;
          md_source_prefix := prefix; md_evidence_by_candidate := ∅;
          md_match_type := "no_match"; md_auto_candidate := None |}
  else if decide (1 < size candidates) then
    Ok {| md_source_id := source_id; md_name := name; md_address := address;
          md_source_prefix := prefix; md_evidence_by_candidate := candidates;
          md_match_type := "ambiguous"; md_auto_candidate := None |}
  else
    only_candidate ← first_key candidates;
    evidence ← getitem candidates only_candidate;
    let '(match_type, auto_candidate) :=
      if decide (evidence ∩ STRONG_EVIDENCE ≠ ∅)
      then ("auto", Some only_candidate)
      else if allow_weak_name_address && bool_decide (evidence = {[ "name_addr" ]})
      then ("auto_weak_name_addr", Some only_candidate)
      else ("weak_unique", None) in
    Ok {| md_source_id := source_id; md_name := name; md_address := address;
          md_source_prefix := prefix; md_evidence_by_candidate := candidates;
          md_match_type := match_type; md_auto_candidate := auto_candidate |}.

(** *** Loading the secondary dataset

    [json.loads] is the standard library's parser: [json_loads s] is the
    value it returns on the text [s], [None] when it raises. *)
Section Loader.
Variable json_loads : string → option json.

(** [isinstance(x, (str, int, float))]; a [bool] is an [int]. *)
Definition is_str_int_float (x : json) : bool :=
  match x with
  | JStr _ | JInt _ | JFloat _ | JBool _ => true
  | _ => false
  end.

Definition str_items (xs : list json) : list string :=
  py_str <$> List.filter is_str_int_float xs.

Definition parse_json_list (raw : json) : list string :=
  match raw with
  | JArr xs => str_items xs
  | JStr text =>
      let s := strip text in
      if is_empty s then []
      else match json_loads s with
           | Some (JArr xs) => str_items xs
           | _ => []
           end
  | _ => []
  end.

(** A row of the SQL query of [load_ibiz_companies]; a column holds what
    sqlite hands back ([None], a [str], a number). *)
Record IbizRow : Type := {
  row_subdomain : json;
  row_name : json;
  row_address : json;
  row_unp : json;
  row_phones_json : json;
  row_emails_json : json;
  row_websites_json : json;
}.

(** [str(row[col] or "")] *)
Definition column_str (v : json) : string := py_str (py_or v (JStr "")).

(** One turn of [for row in rows]. *)
Definition load_row (out : gmap string IbizCompany) (row : IbizRow)
  : gmap string IbizCompany :=
  let subdomain := strip (column_str (row_subdomain row)) in
  if is_empty subdomain then out
  else
    let websites := normalize_websites (parse_json_list (row_websites_json row)) in
    match websites with
    | [] => out
    | _ =>
        let phones :=
          uniq_keep_order
            (List.filter (fun p => 9 <=? String.length p)
               ((fun x => normalize_phone (Some x)) <$> parse_json_list (row_phones_json row))) in
        let emails :=
          uniq_keep_order
            (List.filter (fun e => negb (is_empty e))
               ((fun x => normalize_email (Some x)) <$> parse_json_list (row_emails_json row))) in
        let unp := normalize_unp (Some (column_str (row_unp row))) in
        <[ subdomain :=
             {| ic_subdomain := subdomain;
                ic_name := norm_space (Some (column_str (row_name row)));
                ic_address := norm_space (Some (column_str (row_address row)));
                ic_unp := unp;
                ic_phones := phones;
                ic_emails := emails;
                ic_websites := websites |} ]> out
    end.

(** [load_ibiz_companies], from the rows the query returned. *)
Definition load_ibiz_companies (rows : list IbizRow) : gmap string IbizCompany :=
  foldl load_row ∅ rows.

(** *** The backfill writer *)

(** [raw = line.strip()], the blank-line test and the guarded [json.loads]:
    [None] when the loop moves on to the next line. *)
Definition parse_line (line : string) : option json :=
  let raw := strip line in
  if is_empty raw then None else json_loads raw.

(** [json.dumps(obj, ensure_ascii=False)]; the newline that follows it is
    the line separator of the file. *)
Definition dumps_line (obj : json) : string := json_dumps ", " ": " obj.

(** The body of the loop of [apply_backfill] for one parsed row: the row
    that is written and whether [updated] was incremented. *)
Definition backfill_row (auto_matches : gmap string string)
    (ibiz_companies : gmap string IbizCompany) (obj : json) : result (json * bool) :=
  source_id ← row_source_id obj;
  current_websites ← row_websites obj;
  match auto_matches !! source_id, current_websites with
  | Some candidate_subdomain, [] =>
      match ibiz_companies !! candidate_subdomain with
      | Some candidate =>
          match ic_websites candidate with
          | [] => Ok (obj, false)
          | _ :: _ =>
              obj' ← py_setitem obj "websites" (JArr (JStr <$> ic_websites candidate));
              Ok (obj', true)
          end
      | None => Ok (obj, false)
      end
  | _, _ => Ok (obj, false)
  end.

(** [for line in src], with the lines written to the temporary file so far
    and the counter. *)
Fixpoint backfill_loop (auto_matches : gmap string string)
    (ibiz_companies : gmap string IbizCompany)
    (src : list string) (dst : list string) (updated : nat)
  : result (list string * nat) :=
  match src with
  | [] => Ok (dst, updated)
  | line :: rest =>
      match parse_line line with
      | None => backfill_loop auto_matches ibiz_companies rest dst updated
      | Some obj =>
          '(obj', upd) ← backfill_row auto_matches ibiz_companies obj;
          backfill_loop auto_matches ibiz_companies rest
            (dst ++ [dumps_line obj']) (if upd : bool then S updated else updated)
      end
  end.

(** The rows the loop handles, each with the row written for it and
    whether it counted as updated. *)
Definition backfill_rows (auto_matches : gmap string string)
    (ibiz_companies : gmap string IbizCompany) (src : list string)
  : result (list (json * bool)) :=
  mapM (backfill_row auto_matches ibiz_companies) (omap parse_line src).

(** [apply_backfill] on the lines of [companies_jsonl]: the lines of the
    file afterwards and the value returned.  The temporary file replaces
    [companies_jsonl] only when the loop ran to its end; an exception
    leaves the file as it was.  (The optional backup copy goes to another
    path and is not part of the state.) *)
Definition apply_backfill (companies_jsonl : list string)
    (auto_matches : gmap string string) (ibiz_companies : gmap string IbizCompany)
  : list string * result nat :=
  match backfill_loop auto_matches ibiz_companies companies_jsonl [] 0 with
  | Ok (dst, updated) => (dst, Ok updated)
  | Raise e => (companies_jsonl, Raise e)
  end.

(** *** [main]: scanning the primary dataset *)

(** [counter[key] += 1] on a [Counter] *)
Definition counter_incr (key : string) (counter : gmap string nat) : gmap string nat :=
  <[ key := S (default 0 (counter !! key)) ]> counter.

Record ScanState : Type := {
  total_companies : nat;
  missing_websites_total : nat;
  source_prefix_counts : gmap string nat;
  decisions : list MatchDecision;
}.

(** The body of the first loop of [main] for one parsed row. *)
Definition scan_row (max_companies : Z) (allow_weak_name_address : bool)
    (ibiz_companies : gmap string IbizCompany) (ix : Indexes)
    (st : ScanState) (obj : json) : result ScanState :=
  let total := S (total_companies st) in
  source_id ← row_source_id obj;
  websites ← row_websites obj;
  match websites with
  | _ :: _ =>
      Ok {| total_companies := total;
            missing_websites_total := missing_websites_total st;
            source_prefix_counts := source_prefix_counts st;
            decisions := decisions st |}
  | [] =>
      let missing := S (missing_websites_total st) in
      let prefixes := counter_incr (source_prefix source_id) (source_prefix_counts st) in
      if negb (max_companies =? 0)%Z
         && (max_companies <=? Z.of_nat (length (decisions st)))%Z
      then Ok {| total_companies := total; missing_websites_total := missing;
                 source_prefix_counts := prefixes; decisions := decisions st |}
      else
        candidates ← collect_candidates obj ibiz_companies ix;
        name ← field_str obj "name";
        address ← field_str obj "address";
        decision ← decide_match source_id (norm_space (Some name))
                      (norm_space (Some address)) candidates allow_weak_name_address;
        Ok {| total_companies := total; missing_websites_total := missing;
              source_prefix_counts := prefixes;
              decisions := decisions st ++ [decision] |}
  end.

Fixpoint scan_loop (max_companies : Z) (allow_weak_name_address : bool)
    (ibiz_companies : gmap string IbizCompany) (ix : Indexes)
    (lines : list string) (st : ScanState) : result ScanState :=
  match lines with
  | [] => Ok st
  | line :: rest =>
      match parse_line line with
      | None => scan_loop max_companies allow_weak_name_address ibiz_companies ix rest st
      | Some obj =>
          st' ← scan_row max_companies allow_weak_name_address ibiz_companies ix st obj;
          scan_loop max_companies allow_weak_name_address ibiz_companies ix rest st'
      end
  end.

Definition scan_companies (max_companies : Z) (allow_weak_name_address : bool)
    (ibiz_companies : gmap string IbizCompany) (lines : list string)
  : result ScanState :=
  scan_loop max_companies allow_weak_name_address ibiz_companies
    (build_ibiz_indexes ibiz_companies) lines
    {| total_companies := 0; missing_websites_total := 0;
       source_prefix_counts := ∅; decisions := [] |}.

End Loader.

(** *** [main]: the aggregation loop *)

Record Tally : Type := {
  counts : gmap string nat;
  by_prefix_and_type : gmap string nat;
  reason_combo_counts : gmap string nat;
  auto_matches : gmap string string;
}.

(** [",".join(sorted(evidence))] *)
Definition combo (evidence : gset string) : string :=
  join "," (merge_sort String.le (elements evidence)).

(** One turn of [for decision in decisions]. *)
Definition tally_decision (t : Tally) (decision : MatchDecision) : Tally :=
  {| counts := counter_incr (md_match_type decision) (counts t);
     by_prefix_and_type :=
       counter_incr (md_source_prefix decision +:+ ":" +:+ md_match_type decision)
                    (by_prefix_and_type t);
     reason_combo_counts :=
       map_fold (fun _ evidence acc => counter_incr (combo evidence) acc)
                (reason_combo_counts t) (md_evidence_by_candidate decision);
     auto_matches :=
       match md_auto_candidate decision with
       | Some candidate =>
           (* [if decision.auto_candidate:] is a truth test: the empty
              string fails it as [None] does. *)
           if is_empty candidate then auto_matches t
           else <[ md_source_id decision := candidate ]> (auto_matches t)
       | None => auto_matches t
       end |}.

Definition aggregate (decisions : list MatchDecision) : Tally :=
  foldl tally_decision
    {| counts := ∅; by_prefix_and_type := ∅; reason_combo_counts := ∅;
       auto_matches := ∅ |} decisions.

(** *** The CSV report *)

(** The header row of [write_report_csv]. *)
Definition REPORT_HEADER : list string :=
  [ "source_id"; "name"; "address"; "source_prefix"; "match_type";
    "candidate_subdomain"; "evidence"; "candidate_name"; "candidate_address";
    "candidate_unp"; "candidate_websites" ].

(** [sorted(xs)] on strings: ascending by code points. *)
Definition sorted (xs : list string) : list string := merge_sort String.le xs.

(** The row written for one candidate of a decision. *)
Definition report_row (ibiz_companies : gmap string IbizCompany)
    (decision : MatchDecision) (subdomain : string) : result (list string) :=
  evidence ← getitem (md_evidence_by_candidate decision) subdomain;
  let ev := join "," (sorted (elements evidence)) in
  let '(websites, c_name, c_addr, c_unp) :=
    match ibiz_companies !! subdomain with
    | Some candidate =>
        (join " | " (ic_websites candidate), ic_name candidate,
         ic_address candidate, ic_unp candidate)
    | None => ("", "", "", "")
    end in
  Ok [ md_source_id decision; md_name decision; md_address decision;
       md_source_prefix decision; md_match_type decision; subdomain; ev;
       c_name; c_addr; c_unp; websites ].

(** One turn of [for decision in decisions]. *)
Definition decision_rows (ibiz_companies : gmap string IbizCompany)
    (decision : MatchDecision) : result (list (list string)) :=
  if decide (md_evidence_by_candidate decision = ∅) then Ok []
  else mapM (report_row ibiz_companies decision)
            (sorted (map_to_list (md_evidence_by_candidate decision)).*1).

(** The rows [write_report_csv] hands to the writer, the header first. *)
Definition report_rows (decisions : list MatchDecision)
    (ibiz_companies : gmap string IbizCompany) : result (list (list string)) :=
  rows ← mapM (decision_rows ibiz_companies) decisions;
  Ok (REPORT_HEADER :: concat rows).

Section Report.
(** [csv.writer(f).writerow]: the text written for a row. *)
Variable csv_writerow : list string → string.

(** [write_report_csv]: the text of the report. *)
Definition write_report_csv (decisions : list MatchDecision)
    (ibiz_companies : gmap string IbizCompany) : result (list string) :=
  rows ← report_rows decisions ibiz_companies;
  Ok (csv_writerow <$> (rows : list (list string))).

End Report.

End Backfill.

(** ** [scripts/rewrite_company_exports.py] *)
Module Rewrite.
Import Py.

Definition build_legacy_token : string := "i" +:+ "biz".

Definition build_legacy_tokens : list string :=
  [ build_legacy_token; "belarus" +:+ "info" ].

Record RewriteConfig : Type := {
  site_base_url : string;
  company_path_prefix : string;
  catalog_path_prefix : string;
}.

(** The compiled patterns of [main]:
    [re.compile(re.escape(token), flags=re.IGNORECASE)]. *)
Inductive pattern : Type :=
| IgnoreCaseLiteral (token : string).

Definition compile_tokens (legacy_tokens : list string) : list pattern :=
  IgnoreCaseLiteral <$> legacy_tokens.

(** [pattern.sub(repl, s)] *)
Definition pattern_sub (p : pattern) (repl s : string) : string :=
  match p with
  | IgnoreCaseLiteral token => sub_ci token repl s
  end.

Definition contains_any_legacy_token (text : string) (legacy_tokens : list string) : bool :=
  let low := lower text in
  existsb (fun token => str_in token low) legacy_tokens.

Definition replace_legacy_tokens (text : string) (legacy_token_res : list pattern) : string :=
  foldl (fun out p => pattern_sub p "biznesinfo" out) text legacy_token_res.

(** [s.split(sep, 1)[0]] for a one-character separator *)
Fixpoint before_char (sep : ascii) (s : string) : string :=
  match s with
  | EmptyString => EmptyString
  | String c r => if Ascii.eqb c sep then EmptyString else String c (before_char sep r)
  end.

Fixpoint deep_rewrite (obj : json) (legacy_tokens : list string)
    (legacy_token_res : list pattern) : json :=
  match obj with
  | JStr s =>
      if contains_any_legacy_token s legacy_tokens
      then JStr (replace_legacy_tokens s legacy_token_res)
      else obj
  | JArr items =>
      JArr (map (fun item => deep_rewrite item legacy_tokens legacy_token_res) items)
  | JObj kvs =>
      JObj (map (fun kv => (fst kv, deep_rewrite (snd kv) legacy_tokens legacy_token_res)) kvs)
  | _ => obj
  end.

(** [(d.get(k) or "").strip()] *)
Definition stripped_field (d : json) (k : string) : result string :=
  v ← py_get d k; py_strip (py_or v (JStr "")).

(** The loop over [categories] and over [rubrics]: a dict entry with a
    slug gets its [url]. *)
Definition set_slug_urls (prefix : string) (entries : list json) : result (list json) :=
  mapM (fun entry =>
          match entry with
          | JObj _ =>
              slug ← stripped_field entry "slug";
              if is_empty slug then Ok entry
              else py_setitem entry "url" (JStr (prefix +:+ "/" +:+ slug))
          | _ => Ok entry
          end) entries.

Section Files.
(** [urllib.parse.urlparse]: the scheme and the path of the parsed
    value, [None] when it raises. [json.loads] as in [Backfill]. *)
Variable urlparse : string → option (string * string).
Variable json_loads : string → option json.

Definition normalize_logo_url (raw : string) (legacy_tokens : list string)
    (legacy_token_res : list pattern) : string :=
  let value := strip raw in
  if is_empty value then ""
  else if negb (contains_any_legacy_token value legacy_tokens) then value
  else
    let value :=
      match urlparse value with
      | Some (scheme, path) =>
          if (String.eqb scheme "http" || String.eqb scheme "https")
             && negb (is_empty path)
          then path else value
      | None => value
      end in
    let value := strip (before_char "#" (before_char "?" value)) in
    if contains_any_legacy_token value legacy_tokens
    then replace_legacy_tokens value legacy_token_res
    else value.

Definition rewrite_company (company : json) (cfg : RewriteConfig)
    (legacy_tokens : list string) (legacy_token_res : list pattern) : result json :=
  source ← stripped_field company "source";
  company ← (if bool_decide (lower source ∈ legacy_tokens)
             then py_setitem company "source" (JStr "biznesinfo")
             else Ok company);
  source_id ← stripped_field company "source_id";
  '(company, source_id) ←
    (if negb (is_empty source_id) && contains_any_legacy_token source_id legacy_tokens
     then
       let replaced := replace_legacy_tokens source_id legacy_token_res in
       company ← py_setitem company "source_id" (JStr replaced);
       Ok (company, replaced)
     else Ok (company, source_id));
  source' ← stripped_field company "source";
  company ←
    (if String.eqb source' "biznesinfo" && negb (is_empty source_id)
     then py_setitem company "source_url"
            (JStr (company_path_prefix cfg +:+ "/" +:+ source_id))
     else
       source_url ← stripped_field company "source_url";
       if contains_any_legacy_token source_url legacy_tokens
       then py_setitem company "source_url" (JStr "")
       else Ok company);
  logo ← py_get company "logo_url";
  company ← py_setitem company "logo_url"
              (JStr (normalize_logo_url (py_str (py_or logo (JStr "")))
                       legacy_tokens legacy_token_res));
  websites ← py_get company "websites";
  company ←
    match websites with
    | JArr ws =>
        py_setitem company "websites"
          (JArr (List.filter
                   (fun w => match w with
                             | JStr s => negb (contains_any_legacy_token s legacy_tokens)
                             | _ => false
                             end) ws))
    | _ => Ok company
    end;
  categories ← py_get company "categories";
  company ←
    match categories with
    | JArr cats =>
        cats' ← set_slug_urls (catalog_path_prefix cfg) cats;
        py_setitem company "categories" (JArr cats')
    | _ => Ok company
    end;
  rubrics ← py_get company "rubrics";
  company ←
    match rubrics with
    | JArr rubs =>
        rubs' ← set_slug_urls (catalog_path_prefix cfg) rubs;
        py_setitem company "rubrics" (JArr rubs')
    | _ => Ok company
    end;
  Ok (deep_rewrite company legacy_tokens legacy_token_res).

(** The body of the loop of [rewrite_jsonl_file] for one parsed value:
    the line that is written (without its newline). *)
Definition rewrite_row (obj : json) (cfg : RewriteConfig)
    (legacy_tokens : list string) (legacy_token_res : list pattern) : result string :=
  obj ← match obj with
        | JObj _ => rewrite_company obj cfg legacy_tokens legacy_token_res
        | _ => Ok obj
        end;
  let obj_line := json_dumps "," ":" obj in
  (* Final guard: never emit legacy tokens. *)
  if contains_any_legacy_token obj_line legacy_tokens
  then Ok (replace_legacy_tokens obj_line legacy_token_res)
  else Ok obj_line.

Fixpoint rewrite_jsonl_loop (fin fout : list string) (cfg : RewriteConfig)
    (legacy_tokens : list string) (legacy_token_res : list pattern)
  : result (list string) :=
  match fin with
  | [] => Ok fout
  | line :: rest =>
      let raw := strip line in
      if is_empty raw then rewrite_jsonl_loop rest fout cfg legacy_tokens legacy_token_res
      else match json_loads raw with
           | None => rewrite_jsonl_loop rest fout cfg legacy_tokens legacy_token_res
           | Some obj =>
               obj_line ← rewrite_row obj cfg legacy_tokens legacy_token_res;
               rewrite_jsonl_loop rest (fout ++ [obj_line]) cfg legacy_tokens legacy_token_res
           end
  end.

(** [rewrite_jsonl_file]: the lines written to [dst] for the lines of [src]. *)
Definition rewrite_jsonl_file (src : list string) (cfg : RewriteConfig)
    (legacy_tokens : list string) (legacy_token_res : list pattern)
  : result (list string) :=
  rewrite_jsonl_loop src [] cfg legacy_tokens legacy_token_res.

End Files.

(** *** CSV exports *)

(** [s.rstrip(ch)] for a single character [ch] *)
Fixpoint rstrip_char (ch : ascii) (s : string) : string :=
  match s with
  | EmptyString => EmptyString
  | String c r =>
      let r' := rstrip_char ch r in
      if Ascii.eqb c ch && is_empty r' then EmptyString else String c r'
  end.

Definition company_url_for_subdomain (subdomain : string) (cfg : RewriteConfig) : string :=
  let base := rstrip_char "/" (site_base_url cfg) in
  let sub := strip subdomain in
  if is_empty base || is_empty sub then ""
  else base +:+ company_path_prefix cfg +:+ "/" +:+ sub.

(** [k in d] *)
Definition assoc_mem (k : string) (kvs : list (string * json)) : bool :=
  match assoc_get k kvs with
  | Some _ => true
  | None => false
  end.

(** One turn of [for key, value in list(row.items())]. *)
Definition rewrite_csv_cell (legacy_tokens : list string) (legacy_token_res : list pattern)
    (row : list (string * json)) (item : string * json) : list (string * json) :=
  match snd item with
  | JStr value =>
      if contains_any_legacy_token value legacy_tokens
      then assoc_set (fst item) (JStr (replace_legacy_tokens value legacy_token_res)) row
      else row
  | _ => row
  end.

(** The body of the loop of [rewrite_csv_file] for one row of the reader,
    a dict from the column names to the cells (a cell missing from a short
    line is [None]): the row handed to the writer. The extra cells of a
    line longer than the header, which the reader files under the key
    [None], are not part of the model. *)
Definition rewrite_csv_row (row : list (string * json)) (cfg : RewriteConfig)
    (legacy_tokens : list string) (legacy_token_res : list pattern)
  : result (list (string * json)) :=
  subdomain ← stripped_field (JObj row) "subdomain";
  let '(row, subdomain) :=
    if negb (is_empty subdomain) && contains_any_legacy_token subdomain legacy_tokens
    then
      let replaced := replace_legacy_tokens subdomain legacy_token_res in
      (assoc_set "subdomain" (JStr replaced) row, replaced)
    else (row, subdomain) in
  let row :=
    if is_empty subdomain then row
    else
      let row :=
        if assoc_mem "url" row
        then assoc_set "url" (JStr (company_url_for_subdomain subdomain cfg)) row
        else row in
      if assoc_mem "company_url" row
      then assoc_set "company_url" (JStr (company_url_for_subdomain subdomain cfg)) row
      else row in
  Ok (foldl (rewrite_csv_cell legacy_tokens legacy_token_res) row row).

(** [rewrite_csv_file], from the column names and the rows
    [csv.DictReader] yields: the column names and the rows handed to
    [csv.DictWriter], or nothing when the source has no header. *)
Definition rewrite_csv_file (fieldnames : list string) (rows : list (list (string * json)))
    (cfg : RewriteConfig) (legacy_tokens : list string) (legacy_token_res : list pattern)
  : result (option (list string * list (list (string * json)))) :=
  match fieldnames with
  | [] => Ok None
  | _ :: _ =>
      rows' ← mapM (fun row => rewrite_csv_row row cfg legacy_tokens legacy_token_res) rows;
      Ok (Some (fieldnames, rows'))
  end.

End Rewrite.

(** ** The normalisers on Unicode text *)
Module Unicode.

(** A [str] is a sequence of code points, lone surrogates included. *)
Definition str : Type := list N.

(** A literal of the script, which is ASCII text. *)
Definition lit (s : string) : str :=
  (fun c : ascii => N_of_ascii c) <$> String.list_ascii_of_string s.

Definition is_empty (s : str) : bool :=
  match s with [] => true | _ :: _ => false end.

Definition or_empty (raw : option str) : str := default [] raw.

(** [c.isspace()], which is also the class [\s] of [re] on a [str] and
    the set of characters [strip()] removes: the 29 code points of
    CPython 3.11. *)
Definition isspace (c : N) : bool :=
  ((9 <=? c) && (c <=? 13) || (28 <=? c) && (c <=? 32) || (c =? 133) || (c =? 160)
   || (c =? 5760) || (8192 <=? c) && (c <=? 8202) || (c =? 8232) || (c =? 8233)
   || (c =? 8239) || (c =? 8287) || (c =? 12288))%N.

(** The tables of the interpreter behind [lower()], [casefold()],
    [isdigit()], the class [\d] and the flag [re.IGNORECASE]. They are
    too large to write out and differ between versions of Unicode, so
    the definitions below take them as a parameter. *)
Record chardata : Type := {
  (* the lower-case mapping of one character, up to three characters *)
  to_lower : N → str;
  (* whether a capital sigma between these two texts is in final position *)
  final_sigma : str → str → bool;
  (* the case folding of one character, up to three characters *)
  to_folded : N → str;
  (* the class [\d]: the decimal digits *)
  is_decimal : N → bool;
  (* [c.isdigit()]: the decimal digits and the other digits *)
  is_digit : N → bool;
  (* under [re.IGNORECASE]: the character of the pattern matches the
     character of the text *)
  ieq : N → N → bool;
}.

Definition CAPITAL_SIGMA : N := 931.
Definition FINAL_SMALL_SIGMA : N := 962.
Definition SMALL_SIGMA : N := 963.

Fixpoint lstrip (s : str) : str :=
  match s with
  | [] => []
  | c :: r => if isspace c then lstrip r else s
  end.

Fixpoint rstrip (s : str) : str :=
  match s with
  | [] => []
  | c :: r =>
      let r' := rstrip r in
      if isspace c && is_empty r' then [] else c :: r'
  end.

(** [s.strip()] *)
Definition strip (s : str) : str := rstrip (lstrip s).

(** [p] is a prefix of [s], the characters compared by [eqb] (pattern
    first). *)
Fixpoint prefix_by (eqb : N → N → bool) (p s : str) : bool :=
  match p, s with
  | [], _ => true
  | a :: p', b :: s' => eqb a b && prefix_by eqb p' s'
  | _ :: _, [] => false
  end.

(** [s.startswith(p)] *)
Definition startswith (s p : str) : bool := prefix_by N.eqb p s.

(** [re.sub(r"\s+", " ", s)]; [in_run] says that the previous character
    was white space. *)
Fixpoint sub_ws_runs_go (in_run : bool) (s : str) : str :=
  match s with
  | [] => []
  | c :: r =>
      if isspace c then
        if in_run then sub_ws_runs_go true r
        else 32%N :: sub_ws_runs_go true r
      else c :: sub_ws_runs_go false r
  end.
Definition sub_ws_runs (s : str) : str := sub_ws_runs_go false s.

Section Scripts.
Variable U : chardata.

(** [s.lower()]: character by character; the capital sigma alone
    depends on its neighbours. [before] is the text already passed. *)
Fixpoint lower_go (before s : str) : str :=
  match s with
  | [] => []
  | c :: rest =>
      (if (c =? CAPITAL_SIGMA)%N
       then [if final_sigma U before rest then FINAL_SMALL_SIGMA else SMALL_SIGMA]
       else to_lower U c)
      ++ lower_go (before ++ [c]) rest
  end.
Definition lower (s : str) : str := lower_go [] s.

(** [s.casefold()]: character by character. *)
Fixpoint casefold (s : str) : str :=
  match s with
  | [] => []
  | c :: rest => to_folded U c ++ casefold rest
  end.

(** [s.isdigit()]: not empty and digits only. *)
Definition str_isdigit (s : str) : bool :=
  negb (is_empty s) && forallb (is_digit U) s.

(** [re.findall(r"\d+", s)]: the maximal runs of decimal digits. [cur] is
    the run being read. *)
Fixpoint findall_digits_go (cur s : str) : list str :=
  match s with
  | [] => if is_empty cur then [] else [cur]
  | c :: r =>
      if is_decimal U c then findall_digits_go (cur ++ [c]) r
      else (if is_empty cur then [] else [cur]) ++ findall_digits_go [] r
  end.
Definition findall_digits (s : str) : list str := findall_digits_go [] s.

(** [re.match(r"^https?://", s, flags=re.IGNORECASE)] as a truth value. *)
Definition match_http_scheme (s : str) : bool :=
  prefix_by (ieq U) (lit "http://") s || prefix_by (ieq U) (lit "https://") s.

Definition IMPORTED_SOURCE_ID_PREFIX : str := lit "biznesinfo-".

Definition norm_space (value : option str) : str :=
  sub_ws_runs (strip (or_empty value)).

Definition norm_text (value : option str) : str :=
  casefold (norm_space value).

Definition normalize_phone (raw : option str) : str :=
  concat (findall_digits (or_empty raw)).

Definition normalize_email (raw : option str) : str :=
  casefold (strip (or_empty raw)).

Definition normalize_unp (raw : option str) : str :=
  concat (findall_digits (or_empty raw)).

(** [seen] is the set of values already emitted. *)
Fixpoint uniq_keep_order_go (seen : gset str) (values : list str) : list str :=
  match values with
  | [] => []
  | v :: rest =>
      let s := strip v in
      if is_empty s then uniq_keep_order_go seen rest
      else if decide (s ∈ seen) then uniq_keep_order_go seen rest
      else s :: uniq_keep_order_go ({[ s ]} ∪ seen) rest
  end.
Definition uniq_keep_order (values : list str) : list str :=
  uniq_keep_order_go ∅ values.

(** The test that drops an entry of [normalize_websites]. *)
Definition is_mail_or_tel (s : str) : bool :=
  startswith (lower s) (lit "mailto:") || startswith (lower s) (lit "tel:").

(** The body of the loop of [normalize_websites] after
    [s = (raw or "").strip()]: [None] when the entry is dropped. *)
Definition website_entry (s : str) : option str :=
  if is_empty s then None
  else if is_mail_or_tel s then None
  else if match_http_scheme s then Some s
  else Some (lit "https://" ++ s).

Definition normalize_websites (values : list str) : list str :=
  uniq_keep_order (omap (fun raw => website_entry (strip raw)) values).

Definition source_prefix (source_id : str) : str :=
  let sid := strip source_id in
  if startswith sid IMPORTED_SOURCE_ID_PREFIX then IMPORTED_SOURCE_ID_PREFIX
  else if str_isdigit sid then lit "digits"
  else lit "other".

End Scripts.

(** What the proofs below use of the tables. Each line can be checked on
    an interpreter by running through the code points. *)
Record chardata_laws (U : chardata) : Prop := {
  (* [chr(c).lower()] on ASCII *)
  lower_ascii : ∀ c, (c < 128)%N →
    to_lower U c = [if (65 <=? c)%N && (c <=? 90)%N then (c + 32)%N else c];
  (* a folded character is folded: [d.casefold() == d] for [d] in
     [chr(c).casefold()] *)
  folded_fixed : ∀ c d, d ∈ to_folded U c → to_folded U d = [d];
  (* white space has no case *)
  folded_space : ∀ c, isspace c = true → to_folded U c = [c];
  (* folding neither deletes a character nor produces white space *)
  folded_nonspace : ∀ c, isspace c = false →
    to_folded U c ≠ [] ∧ Forall (fun d => isspace d = false) (to_folded U c);
  (* an ASCII character of a pattern matches itself *)
  ieq_refl : ∀ c, (c < 128)%N → ieq U c c = true;
}.

(** A small instance of the tables: the entries of CPython 3.11 for the
    ASCII characters, the Cyrillic letters U+0400 to U+045F, the sharp s
    and the long s, the ASCII, Arabic-Indic and fullwidth decimal digits
    and the superscript digits 1, 2 and 3. On a text of these characters
    and white space the functions above are the interpreter's; every
    other character is left alone and belongs to no class. *)
Definition in_range (a b c : N) : bool := ((a <=? c) && (c <=? b))%N.

Definition SHARP_S : N := 223.
Definition LONG_S : N := 383.

Definition sample_lower (c : N) : N :=
  if in_range 65 90 c then (c + 32)%N            (* A to Z *)
  else if in_range 1040 1071 c then (c + 32)%N   (* U+0410 to U+042F *)
  else if in_range 1024 1039 c then (c + 80)%N   (* U+0400 to U+040F *)
  else c.

Definition sample_fold (c : N) : N :=
  if (c =? LONG_S)%N then 115%N else sample_lower c.

Definition sample_tables : chardata := {|
  to_lower := fun c => [sample_lower c];
  final_sigma := fun _ _ => false;
  to_folded := fun c => if (c =? SHARP_S)%N then [115; 115]%N else [sample_fold c];
  is_decimal := fun c => in_range 48 57 c || in_range 1632 1641 c || in_range 65296 65305 c;
  is_digit := fun c =>
    in_range 48 57 c || in_range 1632 1641 c || in_range 65296 65305 c
    || (c =? 178)%N || (c =? 179)%N || (c =? 185)%N;
  ieq := fun p c => (sample_fold p =? sample_fold c)%N;
|}.

(** Every white space character is a blank that stands before a character
    that is no white space. *)
Fixpoint single_spaced (s : str) : bool :=
  match s with
  | [] => true
  | c :: r =>
      (negb (isspace c) ||
       ((c =? 32)%N && match r with d :: _ => negb (isspace d) | [] => false end))
      && single_spaced r
  end.

(** A text that does not begin with white space. *)
Definition no_lead_space (s : str) : Prop :=
  match s with
  | [] => True
  | c :: _ => isspace c = false
  end.

(** What [normalize_websites] leaves in its result: a stripped value with
    an http or https scheme that is no [mailto:] or [tel:] link. *)
Definition normal_site (U : chardata) (y : str) : Prop :=
  strip y = y ∧ match_http_scheme U y = true ∧ is_mail_or_tel U y = false.

End Unicode.

(** ** Notions used to state the properties, and sample data *)
Module Spec.
Import Py Backfill Rewrite.

(** A string that does not begin with white space. *)
Definition no_lead_space (s : string) : Prop :=
  match s with
  | EmptyString => True
  | String c _ => isspace c = false
  end.

(** What [normalize_websites] leaves in its result: a stripped value with
    an http or https scheme. *)
Definition normal_site (y : string) : Prop :=
  strip y = y ∧ match_http_scheme y = true.

(** Every record of the table holds a website list that
    [normalize_websites] leaves as it is; [load_ibiz_companies] builds
    such tables. *)
Definition websites_normalized (table : gmap string IbizCompany) : Prop :=
  ∀ sub c, table !! sub = Some c → normalize_websites (ic_websites c) = ic_websites c.




(** The number of rows counted as updated. *)
Definition count_updated (written : list (json * bool)) : nat :=
  length (List.filter snd written).

(** What a decision contributes to the approved map under the query
    identifier [q]: its candidate, when it is for [q] and names a
    non-empty one. *)
Definition approved_by (q : string) (d : MatchDecision) : option string :=
  if decide (md_source_id d = q) then
    match md_auto_candidate d with
    | Some c => if is_empty c then None else Some c
    | None => None
    end
  else None.

(** *** The candidates of a run stay within the table *)

(** Every identifier filed in the index is a key of the table. *)
Definition index_within (table : gmap string IbizCompany)
    (index : gmap string (gset string)) : Prop :=
  ∀ key sub, sub ∈ default ∅ (index !! key) → is_Some (table !! sub).

(** The candidates all lie in the table. *)
Definition candidates_within (table : gmap string IbizCompany)
    (candidates : gmap string (gset string)) : Prop :=
  ∀ sub, is_Some (candidates !! sub) → is_Some (table !! sub).

(** A decision whose candidate, if it names one, is a key of the table. *)
Definition decision_within (table : gmap string IbizCompany) (d : MatchDecision) : Prop :=
  ∀ c, md_auto_candidate d = Some c → is_Some (table !! c).

(** *** Sample data *)

(** The secondary record and the query record of the scenario. *)
Definition row_A1 : IbizRow := {|
  row_subdomain := JStr "A1"; row_name := JNull; row_address := JNull;
  row_unp := JNull;
  row_phones_json := JArr [JStr "+375 29 1234567"];
  row_emails_json := JNull;
  row_websites_json := JArr [JStr "example.by"] |}.

Definition query_record : json :=
  JObj [("phones", JArr [JStr "375291234567"]); ("websites", JArr [])].

(** The same secondary record as sqlite stores it, with the lists as JSON
    text, and a [json.loads] that reads those two texts. *)
Definition row_A1_text : IbizRow := {|
  row_subdomain := JStr "A1"; row_name := JNull; row_address := JNull;
  row_unp := JNull;
  row_phones_json := JStr (json_dumps ", " ": " (JArr [JStr "+375 29 1234567"]));
  row_emails_json := JStr "[]";
  row_websites_json := JStr (json_dumps ", " ": " (JArr [JStr "example.by"])) |}.

Definition loads_A1 (s : string) : option json :=
  List.find (fun v => String.eqb (json_dumps ", " ": " v) s)
    [JArr [JStr "+375 29 1234567"]; JArr [JStr "example.by"]; JArr []].

(** Two secondary records under one name and address, written
    differently, and a query record that shares only those. *)
Definition row_named (subdomain name address site : string) : IbizRow := {|
  row_subdomain := JStr subdomain; row_name := JStr name; row_address := JStr address;
  row_unp := JNull; row_phones_json := JNull; row_emails_json := JNull;
  row_websites_json := JArr [JStr site] |}.

Definition rows_romashka : list IbizRow :=
  [ row_named "r1" "  Romashka   OOO" "Minsk, Lenina 1" "romashka.by";
    row_named "r2" "ROMASHKA OOO" "minsk,  lenina 1 " "romashka-2.by" ].

Definition query_romashka : json :=
  JObj [("source_id", JInt 77); ("name", JStr "romashka ooo");
        ("address", JStr "MINSK, LENINA 1"); ("websites", JNull)].

(** A query record whose phone and tax id are too short to be used and
    whose name and address are unknown. *)
Definition query_vasilek : json :=
  JObj [("source_id", JStr "biznesinfo-5"); ("name", JStr "Vasilek");
        ("address", JStr "Brest"); ("phones", JArr [JStr "12-34-56"]);
        ("unp", JStr "12345"); ("emails", JArr [JStr "  "])].

(** A [json.loads] that knows the given values by their serialised
    lines, and nothing else. *)
Definition loads_of (known : list json) (s : string) : option json :=
  List.find (fun v => String.eqb (dumps_line v) s) known.

Definition company_q1 : json :=
  JObj [("source_id", JStr "q1"); ("name", JStr "Q One"); ("websites", JArr [])].

Definition company_q1_filled (websites : list string) : json :=
  JObj [("source_id", JStr "q1"); ("name", JStr "Q One");
        ("websites", JArr (JStr <$> websites))].

Definition approved_q1 : gmap string string := {[ "q1" := "A1" ]}.

(** A table whose only record holds a website list that normalises to
    nothing. *)
Definition table_tel : gmap string IbizCompany :=
  {[ "A1" := {| ic_subdomain := "A1"; ic_name := ""; ic_address := "";
                ic_unp := ""; ic_phones := []; ic_emails := [];
                ic_websites := ["tel:+375291234567"] |} ]}.

(** Two rows the writer cannot handle: a value that is no object, and an
    object whose [websites] is a number. *)
Definition row_no_object : json := JArr [JInt 1].
Definition row_websites_number : json :=
  JObj [("source_id", JStr "q1"); ("websites", JInt 5)].

Definition sample_loads : string → option json :=
  loads_of [company_q1; company_q1_filled ["https://example.by"];
            company_q1_filled ["tel:+375291234567"]; query_record;
            row_no_object; row_websites_number].

Definition sample_table : gmap string IbizCompany :=
  load_ibiz_companies sample_loads [row_A1].

Definition sample_file : list string := [""; dumps_line company_q1; "not json"].

(** A primary dataset of two records: the query record of the scenario
    and one without any identity signal. *)
Definition sample_lines : list string :=
  [dumps_line query_record; dumps_line company_q1].

(** A company whose name holds the legacy token behind two more [i]. *)
Definition company_iiibiz : json := JObj [("name", JStr "iiibiz")].

Definition sample_cfg : RewriteConfig :=
  {| site_base_url := "https://biznesinfo.lucheestiy.com";
     company_path_prefix := "/company"; catalog_path_prefix := "/catalog" |}.

(** The values of a list in the order of their first occurrence. *)
Fixpoint first_occurrences (xs : list string) : list string :=
  match xs with
  | [] => []
  | x :: rest => x :: filter (fun y => y ≠ x) (first_occurrences rest)
  end.

(** Every white space character is a blank that stands before a character
    that is no white space. *)
Fixpoint single_spaced (s : string) : bool :=
  match s with
  | EmptyString => true
  | String c r =>
      (negb (isspace c) ||
       (Ascii.eqb c " " &&
        match r with String d _ => negb (isspace d) | EmptyString => false end))
      && single_spaced r
  end.

(** Every key of an index or of a candidate mapping holds something. *)
Definition no_empty_bucket (m : gmap string (gset string)) : Prop :=
  ∀ k ids, m !! k = Some ids → ids ≠ ∅.

Section Rows.
Variable json_loads : string → option json.

(** The key [load_ibiz_companies] files a row of the query under, and the
    record it builds for it. *)
Definition row_key (row : IbizRow) : string :=
  strip (column_str (row_subdomain row)).

Definition row_company (row : IbizRow) : IbizCompany :=
  {| ic_subdomain := row_key row;
     ic_name := norm_space (Some (column_str (row_name row)));
     ic_address := norm_space (Some (column_str (row_address row)));
     ic_unp := normalize_unp (Some (column_str (row_unp row)));
     ic_phones :=
       uniq_keep_order
         (List.filter (fun p => 9 <=? String.length p)
            ((fun x => normalize_phone (Some x))
               <$> parse_json_list json_loads (row_phones_json row)));
     ic_emails :=
       uniq_keep_order
         (List.filter (fun e => negb (is_empty e))
            ((fun x => normalize_email (Some x))
               <$> parse_json_list json_loads (row_emails_json row)));
     ic_websites :=
       normalize_websites (parse_json_list json_loads (row_websites_json row)) |}.

(** The rows the loader keeps: those with a key and a website. *)
Definition row_admitted (row : IbizRow) : bool :=
  negb (is_empty (row_key row)) &&
  match normalize_websites (parse_json_list json_loads (row_websites_json row)) with
  | [] => false
  | _ :: _ => true
  end.

(** What a row contributes under the key [sub]. *)
Definition row_for (sub : string) (row : IbizRow) : option IbizCompany :=
  if row_admitted row && String.eqb (row_key row) sub
  then Some (row_company row) else None.

End Rows.

(** A value that [for x in (v or [])] can run over: nothing that is true
    and a number. *)
Definition iterable_or_falsy (v : json) : bool :=
  match v with
  | JBool b => negb b
  | JInt n => (n =? 0)%Z
  | JFloat r => float_is_zero r
  | JNull | JStr _ | JArr _ | JObj _ => true
  end.

(** A value that [(x or "").strip()] accepts: a string, or anything false. *)
Definition str_or_falsy (v : json) : bool :=
  match v with
  | JStr _ => true
  | _ => negb (truthy v)
  end.

(** A [websites] value the two loops over the primary dataset can
    normalise. *)
Definition websites_ok (v : json) : bool :=
  match v with
  | JArr items => forallb str_or_falsy items
  | _ => iterable_or_falsy v
  end.

(** A parsed row the loop of [apply_backfill] handles without raising. *)
Definition row_ok (obj : json) : bool :=
  match obj with
  | JObj kvs => websites_ok (default JNull (assoc_get "websites" kvs))
  | _ => false
  end.

(** The sum of the counts of a [Counter]. *)
Definition counter_total (counter : gmap string nat) : nat :=
  map_fold (fun _ n acc => n + acc) 0 counter.

(** A row whose normalised website list is empty. *)
Definition websites_missing (obj : json) : bool :=
  match row_websites obj with
  | Ok [] => true
  | _ => false
  end.

(** The identifier of a row, as the loops read it. *)
Definition source_id_of (obj : json) : string :=
  match row_source_id obj with
  | Ok source_id => source_id
  | Raise _ => ""
  end.

(** The row of the report for the candidate [sub] of the decision [d],
    supported by the evidence [ev], with the four columns [cols] of the
    candidate's record. *)
Definition report_line (d : MatchDecision) (sub : string) (ev : gset string)
    (cols : string * string * string * string) : list string :=
  [ md_source_id d; md_name d; md_address d; md_source_prefix d; md_match_type d;
    sub; combo ev; cols.1.1.1; cols.1.1.2; cols.1.2; cols.2 ].

(** The column [candidate_subdomain] of a row. *)
Definition candidate_column (row : list string) : string := default "" (row !! 5).

(** A value with [f] applied to every string it holds as a value: the
    items of lists and the values of objects, at any depth, not the keys. *)
Fixpoint map_strings (f : string → string) (v : json) : json :=
  match v with
  | JStr s => JStr (f s)
  | JArr items => JArr (map (map_strings f) items)
  | JObj kvs => JObj (map (fun kv => (fst kv, map_strings f (snd kv))) kvs)
  | _ => v
  end.

(** [p] holds of every string the value holds as a value. *)
Fixpoint all_strings (p : string → bool) (v : json) : bool :=
  match v with
  | JStr s => p s
  | JArr items => forallb (all_strings p) items
  | JObj kvs => forallb (fun kv => all_strings p (snd kv)) kvs
  | _ => true
  end.

(** A [categories] or [rubrics] value whose entries [rewrite_company] can
    handle: every entry that is an object has a [slug] that is a string
    or false. *)
Definition slugs_ok (v : json) : bool :=
  match v with
  | JArr entries =>
      forallb (fun entry =>
                 match entry with
                 | JObj ekvs => str_or_falsy (default JNull (assoc_get "slug" ekvs))
                 | _ => true
                 end) entries
  | _ => true
  end.

(** A company record with the text fields [rewrite_company] strips being
    strings or false, and well-formed [categories] and [rubrics]. *)
Definition company_typed (kvs : list (string * json)) : bool :=
  str_or_falsy (default JNull (assoc_get "source" kvs))
  && str_or_falsy (default JNull (assoc_get "source_id" kvs))
  && str_or_falsy (default JNull (assoc_get "source_url" kvs))
  && slugs_ok (default JNull (assoc_get "categories" kvs))
  && slugs_ok (default JNull (assoc_get "rubrics" kvs)).

(** A cell after the last loop of the row: a string that holds a legacy
    token has had the tokens replaced. *)
Definition clean_cell (tokens : list string) (res : list pattern) (v : json) : json :=
  match v with
  | JStr s => if contains_any_legacy_token s tokens
              then JStr (replace_legacy_tokens s res) else v
  | _ => v
  end.

(** A row of a CSV export whose identifier holds a legacy token. *)
Definition sample_csv_row : list (string * json) :=
  [("subdomain", JStr " acme-ibiz "); ("url", JStr "http://old.example/acme");
   ("name", JStr "Acme IBIZ"); ("note", JNull)].

(** *** The rows of the report *)

(** The four columns of the report that describe the candidate's record:
    empty when the table holds none. *)
Definition candidate_columns (ibiz_companies : gmap string IbizCompany)
    (sub : string) : string * string * string * string :=
  match ibiz_companies !! sub with
  | Some c => (ic_name c, ic_address c, ic_unp c, join " | " (ic_websites c))
  | None => ("", "", "", "")
  end.

(** The rows of the report for one decision, given its candidates in the
    order they are written. *)
Definition decision_lines (ibiz_companies : gmap string IbizCompany)
    (d : MatchDecision) (keys : list string) : list (list string) :=
  (fun sub => report_line d sub (default ∅ (md_evidence_by_candidate d !! sub))
                (candidate_columns ibiz_companies sub)) <$> keys.

(** *** ASCII text *)

(** A character of the ASCII range, where the character predicates of
    [Py] are Python's, a byte is a code point and [re.IGNORECASE] matches
    the characters [str.lower()] identifies. *)
Definition ascii_char (c : ascii) : bool := nat_of_ascii c <? 128.

Definition ascii_text (s : string) : bool := str_forall ascii_char s.

(** A value all of whose text, keys included, is ASCII. *)
Fixpoint json_ascii (v : json) : bool :=
  match v with
  | JStr s => ascii_text s
  | JArr items => forallb json_ascii items
  | JObj kvs => forallb (fun kv => ascii_text (fst kv) && json_ascii (snd kv)) kvs
  | _ => true
  end.

(** A record of the table whose fields are ASCII text. *)
Definition company_ascii (c : IbizCompany) : bool :=
  ascii_text (ic_subdomain c) && ascii_text (ic_name c) && ascii_text (ic_address c)
  && ascii_text (ic_unp c) && forallb ascii_text (ic_phones c)
  && forallb ascii_text (ic_emails c) && forallb ascii_text (ic_websites c).

Definition table_ascii (table : gmap string IbizCompany) : Prop :=
  map_Forall (fun _ c => company_ascii c = true) table.

(** A row of the query all of whose text is ASCII: the four text columns
    as [str] renders them, the three list columns, and the entries of the
    lists read from them. *)
Definition row_ascii (json_loads : string → option json) (row : IbizRow) : bool :=
  ascii_text (column_str (row_subdomain row)) && ascii_text (column_str (row_name row))
  && ascii_text (column_str (row_address row)) && ascii_text (column_str (row_unp row))
  && json_ascii (row_phones_json row) && json_ascii (row_emails_json row)
  && json_ascii (row_websites_json row)
  && forallb ascii_text (parse_json_list json_loads (row_phones_json row))
  && forallb ascii_text (parse_json_list json_loads (row_emails_json row))
  && forallb ascii_text (parse_json_list json_loads (row_websites_json row)).

End Spec.

(** ** Facts about the string functions *)
Module PyFacts.
Import Py Spec.

Lemma sapp_cons c a b : String c a +:+ b = String c (a +:+ b).
Proof. reflexivity. Qed.

Lemma sapp_nil_l s : "" +:+ s = s.
Proof. reflexivity. Qed.

Lemma sapp_nil_r s : s +:+ "" = s.
Proof. induction s as [|c s IH]; [done|]. by rewrite sapp_cons, IH. Qed.

Lemma sapp_assoc a b c : (a +:+ b) +:+ c = a +:+ (b +:+ c).
Proof. induction a as [|x a IH]; [done|]. by rewrite !sapp_cons, IH. Qed.

Lemma is_empty_true s : is_empty s = true ↔ s = "".
Proof. by destruct s. Qed.

Lemma is_empty_false s : is_empty s = false ↔ s ≠ "".
Proof. by destruct s. Qed.

(** Case analysis over the 256 characters. *)
Ltac by_chars c := destruct c as [[] [] [] [] [] [] [] []]; vm_compute; try done.

Lemma isspace_lower_char c : isspace (lower_char c) = isspace c.
Proof. by_chars c. Qed.

Lemma lower_char_idem c : lower_char (lower_char c) = lower_char c.
Proof. by_chars c. Qed.

Lemma isdigit_not_space c : isdigit c = true → isspace c = false.
Proof. by_chars c. Qed.

(** *** [join] with the empty separator *)

Lemma join_empty_cons x xs : join "" (x :: xs) = x +:+ join "" xs.
Proof.
  unfold join. destruct xs as [|y ys]; simpl.
  - by rewrite sapp_nil_r.
  - done.
Qed.

Lemma join_empty_app xs ys : join "" (xs ++ ys) = join "" xs +:+ join "" ys.
Proof.
  induction xs as [|x xs IH]; [done|].
  rewrite <- app_comm_cons, !join_empty_cons, IH. by rewrite sapp_assoc.
Qed.

(** *** Filtering *)

Lemma str_filter_app p a b : str_filter p (a +:+ b) = str_filter p a +:+ str_filter p b.
Proof.
  induction a as [|c a IH]; [done|].
  rewrite sapp_cons. simpl. destruct (p c); by rewrite ?sapp_cons, IH.
Qed.

Lemma str_filter_idem p s : str_filter p (str_filter p s) = str_filter p s.
Proof.
  induction s as [|c s IH]; [done|]. simpl.
  destruct (p c) eqn:E; simpl; by rewrite ?E, IH.
Qed.

Lemma str_filter_forall p s : str_forall p (str_filter p s) = true.
Proof.
  induction s as [|c s IH]; [done|]. simpl.
  destruct (p c) eqn:E; simpl; by rewrite ?E, ?IH.
Qed.

(** The runs that [re.findall(r"\d+", s)] returns, glued together, are the
    digits of [s] in order. *)
Lemma join_findall_digits_go cur s :
  join "" (findall_digits_go cur s) = cur +:+ str_filter isdigit s.
Proof.
  revert cur. induction s as [|c s IH]; intros cur; simpl.
  - rewrite sapp_nil_r. by destruct cur.
  - destruct (isdigit c).
    + rewrite IH, sapp_assoc. done.
    + rewrite join_empty_app, IH. rewrite sapp_nil_l.
      f_equal. by destruct cur.
Qed.

Lemma join_findall_digits s : join "" (findall_digits s) = str_filter isdigit s.
Proof. unfold findall_digits. by rewrite join_findall_digits_go. Qed.

(** *** Lower case *)

Lemma lower_app a b : lower (a +:+ b) = lower a +:+ lower b.
Proof.
  unfold lower. induction a as [|c a IH]; [done|].
  rewrite sapp_cons. simpl. by rewrite IH.
Qed.

Lemma lower_idem s : lower (lower s) = lower s.
Proof.
  unfold lower. induction s as [|c s IH]; [done|].
  simpl. by rewrite lower_char_idem, IH.
Qed.

Lemma is_empty_lower s : is_empty (lower s) = is_empty s.
Proof. by destruct s. Qed.

(** *** Stripping *)

Lemma lstrip_lower s : lstrip (lower s) = lower (lstrip s).
Proof.
  unfold lower. induction s as [|c s IH]; [done|].
  simpl. rewrite isspace_lower_char. by destruct (isspace c).
Qed.

Lemma rstrip_lower s : rstrip (lower s) = lower (rstrip s).
Proof.
  unfold lower. induction s as [|c s IH]; [done|].
  simpl. rewrite isspace_lower_char, IH.
  fold (lower (rstrip s)). rewrite is_empty_lower.
  by destruct (isspace c && is_empty (rstrip s)).
Qed.

Lemma strip_lower s : strip (lower s) = lower (strip s).
Proof. unfold strip. by rewrite lstrip_lower, rstrip_lower. Qed.

Lemma lstrip_no_lead_space s : no_lead_space (lstrip s).
Proof.
  induction s as [|c s IH]; [done|]. simpl.
  destruct (isspace c) eqn:E; [done|]. exact E.
Qed.

Lemma lstrip_id s : no_lead_space s → lstrip s = s.
Proof. destruct s as [|c s]; [done|]. simpl. by intros ->. Qed.

Lemma rstrip_no_lead_space s : no_lead_space s → no_lead_space (rstrip s).
Proof. destruct s as [|c s]; [done|]. simpl. intros H. rewrite H. exact H. Qed.

Lemma rstrip_idem s : rstrip (rstrip s) = rstrip s.
Proof.
  induction s as [|c s IH]; [done|]. simpl.
  destruct (isspace c && is_empty (rstrip s)) eqn:E; [done|].
  simpl. by rewrite IH, E.
Qed.

Lemma strip_idem s : strip (strip s) = strip s.
Proof.
  unfold strip.
  rewrite (lstrip_id (rstrip (lstrip s))).
  - apply rstrip_idem.
  - apply rstrip_no_lead_space, lstrip_no_lead_space.
Qed.

Lemma strip_empty : strip "" = "".
Proof. reflexivity. Qed.

(** A stripped string stays stripped behind a prefix without leading
    white space. *)
Lemma rstrip_app_nonempty a s :
  rstrip s ≠ "" → rstrip (a +:+ s) = a +:+ rstrip s.
Proof.
  intros Hs. induction a as [|c a IH]; [done|].
  rewrite !sapp_cons. simpl. rewrite IH.
  assert (is_empty (a +:+ rstrip s) = false) as ->.
  { apply is_empty_false. destruct a; [done|]. by rewrite sapp_cons. }
  by rewrite andb_false_r.
Qed.

Lemma strip_app_stripped a s :
  no_lead_space a → a ≠ "" → strip s = s → s ≠ "" → strip (a +:+ s) = a +:+ s.
Proof.
  intros Ha Hane Hs Hsne. unfold strip.
  assert (no_lead_space (a +:+ s)) as Hl.
  { destruct a as [|c a]; [done|]. by rewrite sapp_cons. }
  rewrite (lstrip_id _ Hl).
  assert (rstrip s = s) as Hr.
  { unfold strip in Hs. rewrite <- Hs at 1. rewrite rstrip_idem. exact Hs. }
  rewrite rstrip_app_nonempty; rewrite Hr; done.
Qed.

Lemma rstrip_cons_fixed c r :
  rstrip (String c r) = String c r → rstrip r = r ∧ (isspace c = true → r ≠ "").
Proof.
  simpl. destruct (isspace c && is_empty (rstrip r)) eqn:E; [done|].
  intros [= Hr]. split; [done|]. intros Hc Hemp. subst r.
  rewrite Hc in E. done.
Qed.

Lemma rstrip_fixed_cons c r :
  rstrip r = r → (isspace c = true → r ≠ "") → rstrip (String c r) = String c r.
Proof.
  intros Hr Hc. simpl. rewrite Hr.
  destruct (isspace c) eqn:E; [|done].
  destruct r; [by destruct Hc|done].
Qed.

Lemma strip_fixed_iff s : strip s = s ↔ no_lead_space s ∧ rstrip s = s.
Proof.
  split.
  - intros H. assert (no_lead_space s) as Hl.
    { rewrite <- H. apply rstrip_no_lead_space, lstrip_no_lead_space. }
    split; [done|]. unfold strip in H. by rewrite (lstrip_id _ Hl) in H.
  - intros [Hl Hr]. unfold strip. by rewrite (lstrip_id _ Hl).
Qed.

(** *** [re.sub(r"\s+", " ", s)] *)

Lemma sub_ws_runs_go_starts r :
  rstrip r = r → r ≠ "" →
  ∃ c' r', sub_ws_runs_go true r = String c' r' ∧ isspace c' = false.
Proof.
  induction r as [|c r IH]; [done|]. intros Hfix _.
  apply rstrip_cons_fixed in Hfix as [Hr Hne]. simpl.
  destruct (isspace c) eqn:E.
  - apply IH; [done|]. by apply Hne.
  - by eexists _, _.
Qed.

Lemma sub_ws_runs_go_rstrip b t :
  rstrip t = t → rstrip (sub_ws_runs_go b t) = sub_ws_runs_go b t.
Proof.
  revert b. induction t as [|c r IH]; intros b Hfix; [done|].
  apply rstrip_cons_fixed in Hfix as [Hr Hne]. simpl.
  destruct (isspace c) eqn:E.
  - destruct b; [by apply IH|].
    apply rstrip_fixed_cons; [by apply IH|]. intros _.
    destruct (sub_ws_runs_go_starts r Hr (Hne eq_refl)) as (c' & r' & -> & _). done.
  - apply rstrip_fixed_cons; [by apply IH|]. by rewrite E.
Qed.

Lemma sub_ws_runs_go_single_spaced b t :
  rstrip t = t → single_spaced (sub_ws_runs_go b t) = true.
Proof.
  revert b. induction t as [|c r IH]; intros b Hfix; [done|].
  apply rstrip_cons_fixed in Hfix as [Hr Hne]. simpl.
  destruct (isspace c) eqn:E.
  - destruct b; [by apply IH|].
    simpl. rewrite (IH true Hr), andb_true_r.
    destruct (sub_ws_runs_go_starts r Hr (Hne eq_refl)) as (c' & r' & -> & ->). done.
  - simpl. by rewrite E, (IH false Hr).
Qed.

Lemma sub_ws_runs_go_fixed u :
  single_spaced u = true → sub_ws_runs_go false u = u.
Proof.
  induction u as [|c r IH]; [done|]. simpl.
  intros [Hc Hr]%andb_true_iff. specialize (IH Hr).
  destruct (isspace c) eqn:E; simpl in Hc.
  - apply andb_true_iff in Hc as [Hc Hd]. apply Ascii.eqb_eq in Hc as ->.
    destruct r as [|d r']; [done|]. apply negb_true_iff in Hd.
    simpl in *. rewrite Hd in *. congruence.
  - by rewrite IH.
Qed.

Lemma sub_ws_runs_no_lead_space t : no_lead_space t → no_lead_space (sub_ws_runs t).
Proof.
  destruct t as [|c r]; [done|]. unfold sub_ws_runs. simpl.
  intros H. rewrite H. exact H.
Qed.

Lemma sub_ws_runs_go_lower b s :
  sub_ws_runs_go b (lower s) = lower (sub_ws_runs_go b s).
Proof.
  unfold lower. revert b. induction s as [|c s IH]; intros b; [done|].
  simpl. rewrite isspace_lower_char.
  destruct (isspace c); [destruct b|]; simpl; by rewrite IH.
Qed.

End PyFacts.

(** ** Properties of the backfill script *)
Module BackfillFacts.
Import Py Backfill Spec PyFacts.

(** *** Normalisers *)

Lemma normalize_phone_digits raw :
  normalize_phone raw = str_filter isdigit (or_empty raw).
Proof. unfold normalize_phone. apply join_findall_digits. Qed.

Lemma normalize_phone_idem s :
  normalize_phone (Some (normalize_phone (Some s))) = normalize_phone (Some s).
Proof. rewrite !normalize_phone_digits. simpl. apply str_filter_idem. Qed.

Lemma normalize_email_idem s :
  normalize_email (Some (normalize_email (Some s))) = normalize_email (Some s).
Proof.
  unfold normalize_email, casefold. simpl.
  by rewrite strip_lower, strip_idem, lower_idem.
Qed.

(** *** [uniq_keep_order] *)

Lemma uniq_keep_order_go_spec seen values :
  Forall (fun y => strip y = y ∧ y ≠ "" ∧ (y ∉ seen) ∧ ∃ v, v ∈ values ∧ y = strip v)
         (uniq_keep_order_go seen values)
  ∧ NoDup (uniq_keep_order_go seen values).
Proof.
  revert seen. induction values as [|v rest IH]; intros seen; simpl.
  { split; constructor. }
  assert (∀ seen',
    seen ⊆ seen' →
    Forall (fun y => strip y = y ∧ y ≠ "" ∧ (y ∉ seen) ∧ ∃ v', v' ∈ v :: rest ∧ y = strip v')
           (uniq_keep_order_go seen' rest)) as Hrest.
  { intros seen' Hsub. destruct (IH seen') as [Hall _].
    eapply Forall_impl; [exact Hall|]. simpl.
    intros y (? & ? & Hy & v' & ? & ?). repeat split; [done|done| |].
    { intros Hin. by apply Hy, Hsub. }
    exists v'. split; [by right | done]. }
  destruct (is_empty (strip v)) eqn:Hempty.
  { split; [by apply Hrest | apply IH]. }
  destruct (decide (strip v ∈ seen)) as [Hin|Hnotin].
  { split; [by apply Hrest | apply IH]. }
  split.
  - constructor.
    + repeat split; [apply strip_idem | by apply is_empty_false | done |].
      exists v. split; [by left | done].
    + apply Hrest, union_subseteq_r.
  - constructor; [|apply IH].
    destruct (IH ({[strip v]} ∪ seen)) as [Hall _].
    intros Hmem. rewrite Forall_forall in Hall.
    destruct (Hall _ Hmem) as (_ & _ & Hno & _).
    by apply Hno, elem_of_union_l, elem_of_singleton.
Qed.

Lemma uniq_keep_order_go_fixed seen values :
  Forall (fun y => strip y = y ∧ y ≠ "") values →
  NoDup values →
  (∀ y, y ∈ values → y ∉ seen) →
  uniq_keep_order_go seen values = values.
Proof.
  revert seen. induction values as [|v rest IH]; intros seen Hall Hnd Hfresh; [done|].
  simpl. inversion Hall as [|? ? [Hs Hne] Hall']; subst.
  inversion Hnd as [|? ? Hnotin Hnd']; subst.
  rewrite Hs. apply is_empty_false in Hne. rewrite Hne.
  destruct (decide (v ∈ seen)) as [Hin|_].
  { exfalso. apply (Hfresh v); [by left | done]. }
  f_equal. apply IH; [done|done|].
  intros y Hy. specialize (Hfresh y (list_elem_of_further _ _ _ Hy)).
  intros [->%elem_of_singleton|Hseen]%elem_of_union; done.
Qed.

Lemma uniq_keep_order_idem values :
  uniq_keep_order (uniq_keep_order values) = uniq_keep_order values.
Proof.
  unfold uniq_keep_order.
  destruct (uniq_keep_order_go_spec ∅ values) as [Hall Hnd].
  apply uniq_keep_order_go_fixed; [|done|].
  - eapply Forall_impl; [exact Hall|]. by intros y (? & ? & _).
  - intros y _. apply not_elem_of_empty.
Qed.

(** *** [normalize_websites] *)

Lemma match_http_scheme_nonempty y : match_http_scheme y = true → y ≠ "".
Proof. intros H ->. discriminate H. Qed.

Lemma match_http_scheme_not_mailto y :
  match_http_scheme y = true →
  startswith (lower y) "mailto:" || startswith (lower y) "tel:" = false.
Proof.
  unfold match_http_scheme, startswith.
  destruct (lower y) as [|c l]; [done|].
  destruct c as [[] [] [] [] [] [] [] []]; cbn; done.
Qed.

Lemma website_entry_normal y : normal_site y → website_entry y = Some y.
Proof.
  intros [Hs Hm]. unfold website_entry.
  rewrite (proj2 (is_empty_false y) (match_http_scheme_nonempty _ Hm)).
  by rewrite match_http_scheme_not_mailto, Hm.
Qed.

Lemma https_prefix_scheme s : match_http_scheme ("https://" +:+ s) = true.
Proof.
  unfold match_http_scheme. rewrite lower_app.
  change (lower "https://") with "https://".
  rewrite !sapp_cons, sapp_nil_l. simpl. by destruct (lower s).
Qed.

Lemma website_entry_gives_normal s e :
  strip s = s → website_entry s = Some e → normal_site e.
Proof.
  intros Hs. unfold website_entry.
  destruct (is_empty s) eqn:Hne; [done|].
  destruct (startswith (lower s) "mailto:" || startswith (lower s) "tel:"); [done|].
  destruct (match_http_scheme s) eqn:Hm; intros [= <-].
  - by split.
  - split; [|apply https_prefix_scheme].
    apply strip_app_stripped; [done|done|done|by apply is_empty_false].
Qed.

Lemma website_entries_normal (values : list string) :
  Forall normal_site (omap (fun raw => website_entry (strip raw)) values).
Proof.
  induction values as [|v rest IH]; simpl; [constructor|].
  destruct (website_entry (strip v)) as [e|] eqn:He; [|done].
  constructor; [|done].
  eapply website_entry_gives_normal; [|exact He]. apply strip_idem.
Qed.

Lemma website_entries_fixed (values : list string) :
  Forall normal_site values →
  omap (fun raw => website_entry (strip raw)) values = values.
Proof.
  induction 1 as [|v rest [Hs Hm] _ IH]; [done|].
  change (omap (fun raw => website_entry (strip raw)) (v :: rest))
    with (match website_entry (strip v) with
          | Some e => e :: omap (fun raw => website_entry (strip raw)) rest
          | None => omap (fun raw => website_entry (strip raw)) rest
          end).
  rewrite Hs, website_entry_normal by done. by rewrite IH.
Qed.

Lemma normalize_websites_spec values :
  Forall normal_site (normalize_websites values) ∧ NoDup (normalize_websites values).
Proof.
  unfold normalize_websites, uniq_keep_order.
  destruct (uniq_keep_order_go_spec ∅
              (omap (fun raw => website_entry (strip raw)) values)) as [Hall Hnd].
  split; [|done].
  pose proof (website_entries_normal values) as Hnorm.
  rewrite Forall_forall in Hnorm.
  eapply Forall_impl; [exact Hall|]. simpl.
  intros y (_ & _ & _ & v & Hv & ->).
  destruct (Hnorm v Hv) as [Hs Hm]. rewrite Hs. by split.
Qed.

Lemma normalize_websites_fixed values :
  Forall normal_site values → NoDup values → normalize_websites values = values.
Proof.
  intros Hall Hnd. unfold normalize_websites, uniq_keep_order.
  rewrite website_entries_fixed by done.
  apply uniq_keep_order_go_fixed; [|done|].
  - eapply Forall_impl; [exact Hall|].
    intros y [Hs Hm]. split; [done|]. by apply match_http_scheme_nonempty.
  - intros y _. apply not_elem_of_empty.
Qed.

Lemma normalize_websites_idem values :
  normalize_websites (normalize_websites values) = normalize_websites values.
Proof.
  destruct (normalize_websites_spec values).
  by apply normalize_websites_fixed.
Qed.

Example normalize_examples :
  normalize_phone (Some "+375 (29) 123-45-67") = "375291234567" ∧
  normalize_email (Some "  Info@Example.BY ") = "info@example.by" ∧
  norm_text (Some "  OOO   Romashka ") = "ooo romashka" ∧
  normalize_websites
    [" Example.by "; "mailto:a@b.by"; "HTTP://a.by"; "example.by"; "TEL:1"; ""; "https://a.by "]
  = ["https://Example.by"; "HTTP://a.by"; "https://example.by"; "https://a.by"].
Proof. repeat split; vm_compute; reflexivity. Qed.

(** *** The decision policy *)

Lemma map_size_1_singleton {V} (m : gmap string V) :
  size m = 1 → ∃ k v, m = {[ k := v ]}.
Proof.
  intros Hsize. rewrite <- length_map_to_list in Hsize.
  destruct (map_to_list m) as [|[k v] [|? ?]] eqn:Hl; simplify_eq/=.
  exists k, v. rewrite <- (list_to_map_to_list m), Hl. done.
Qed.

Lemma first_key_singleton {V} (k : string) (v : V) :
  first_key ({[ k := v ]} : gmap string V) = Ok k.
Proof. unfold first_key. by rewrite map_to_list_singleton. Qed.

(** The three-way split of [decide_match] on the number of candidates. *)
Lemma candidates_cases (candidates : gmap string (gset string)) :
  candidates = ∅ ∨ 1 < size candidates ∨ ∃ k ev, candidates = {[ k := ev ]}.
Proof.
  destruct (size candidates) as [|[|n]] eqn:Hsize.
  - left. by apply map_size_empty_inv.
  - right; right. by apply map_size_1_singleton.
  - right; left. lia.
Qed.

Lemma decide_match_sole source_id name address k ev allow :
  decide_match source_id name address {[ k := ev ]} allow =
  Ok {| md_source_id := source_id; md_name := name; md_address := address;
        md_source_prefix := source_prefix source_id;
        md_evidence_by_candidate := {[ k := ev ]};
        md_match_type :=
          if decide (ev ∩ STRONG_EVIDENCE ≠ ∅) then "auto"
          else if allow && bool_decide (ev = {[ "name_addr" ]})
               then "auto_weak_name_addr" else "weak_unique";
        md_auto_candidate :=
          if decide (ev ∩ STRONG_EVIDENCE ≠ ∅) then Some k
          else if allow && bool_decide (ev = {[ "name_addr" ]})
               then Some k else None |}.
Proof.
  unfold decide_match.
  destruct (decide (({[ k := ev ]} : gmap string (gset string)) = ∅)) as [He|_].
  { by apply map_non_empty_singleton in He. }
  rewrite map_size_singleton.
  destruct (decide (1 < 1)) as [?|_]; [lia|].
  rewrite first_key_singleton. simpl.
  unfold getitem. rewrite lookup_singleton_eq. simpl.
  destruct (decide (ev ∩ STRONG_EVIDENCE ≠ ∅)); [done|].
  by destruct (allow && bool_decide (ev = {[ "name_addr" ]})).
Qed.

Lemma name_addr_not_strong : ({[ "name_addr" ]} : gset string) ∩ STRONG_EVIDENCE = ∅.
Proof. by vm_compute. Qed.

(** Meeting the trusted set is holding one of its four tags. *)
Lemma strong_evidence_iff (evidence : gset string) :
  evidence ∩ STRONG_EVIDENCE ≠ ∅ ↔
  "direct_source_id" ∈ evidence ∨ "phone" ∈ evidence ∨
  "email" ∈ evidence ∨ "unp" ∈ evidence.
Proof.
  unfold STRONG_EVIDENCE. split.
  - intros Hne. apply set_choose_L in Hne as [x Hx].
    apply elem_of_intersection in Hx as [Hev Hx].
    rewrite !elem_of_union, !elem_of_singleton in Hx.
    destruct Hx as [[[->| ->]| ->]| ->]; auto.
  - intros H Hempty.
    assert (∀ x, x ∈ evidence → x ∈ STRONG_EVIDENCE → False) as Hno.
    { intros x Hev Hx. apply (not_elem_of_empty (C:=gset string) x).
      rewrite <- Hempty. by apply elem_of_intersection. }
    unfold STRONG_EVIDENCE in Hno.
    destruct H as [H|[H|[H|H]]]; apply (Hno _ H);
      rewrite !elem_of_union, !elem_of_singleton; auto.
Qed.

(** C1. [decide_match] always returns a decision, and the decision is the
    one the table of the specification gives: no candidate, [no_match];
    more than one, [ambiguous]; a sole candidate with trusted evidence,
    [auto] with that candidate; a sole candidate whose evidence is exactly
    the name and address match while weak matches are allowed,
    [auto_weak_name_addr] with that candidate; any other sole candidate,
    [weak_unique] with no candidate. Evidence is trusted when it holds
    one of the tags [direct_source_id], [phone], [email], [unp]. *)
Theorem decide_match_table (source_id name address : string)
    (candidates : gmap string (gset string)) (allow : bool) :
  ∃ d, decide_match source_id name address candidates allow = Ok d ∧
    (size candidates = 0 →
       md_match_type d = "no_match" ∧ md_auto_candidate d = None) ∧
    (1 < size candidates →
       md_match_type d = "ambiguous" ∧ md_auto_candidate d = None) ∧
    (∀ c evidence, size candidates = 1 → candidates !! c = Some evidence →
       (evidence ∩ STRONG_EVIDENCE ≠ ∅ →
          md_match_type d = "auto" ∧ md_auto_candidate d = Some c) ∧
       (evidence = {[ "name_addr" ]} → allow = true →
          md_match_type d = "auto_weak_name_addr" ∧ md_auto_candidate d = Some c) ∧
       (evidence ∩ STRONG_EVIDENCE = ∅ →
        ¬ (evidence = {[ "name_addr" ]} ∧ allow = true) →
          md_match_type d = "weak_unique" ∧ md_auto_candidate d = None)) ∧
    (∀ evidence : gset string,
       evidence ∩ STRONG_EVIDENCE ≠ ∅ ↔
       "direct_source_id" ∈ evidence ∨ "phone" ∈ evidence ∨
       "email" ∈ evidence ∨ "unp" ∈ evidence).
Proof.
  cut (∃ d, decide_match source_id name address candidates allow = Ok d ∧
    (size candidates = 0 →
       md_match_type d = "no_match" ∧ md_auto_candidate d = None) ∧
    (1 < size candidates →
       md_match_type d = "ambiguous" ∧ md_auto_candidate d = None) ∧
    (∀ c evidence, size candidates = 1 → candidates !! c = Some evidence →
       (evidence ∩ STRONG_EVIDENCE ≠ ∅ →
          md_match_type d = "auto" ∧ md_auto_candidate d = Some c) ∧
       (evidence = {[ "name_addr" ]} → allow = true →
          md_match_type d = "auto_weak_name_addr" ∧ md_auto_candidate d = Some c) ∧
       (evidence ∩ STRONG_EVIDENCE = ∅ →
        ¬ (evidence = {[ "name_addr" ]} ∧ allow = true) →
          md_match_type d = "weak_unique" ∧ md_auto_candidate d = None))).
  { intros (d & Hd & H0 & H1 & H2). exists d.
    repeat (split; [done|]). apply strong_evidence_iff. }
  destruct (candidates_cases candidates) as [->|[Hmany|(k & ev & ->)]].
  - eexists. split; [reflexivity|]. simpl.
    rewrite map_size_empty. repeat split; try done; try lia.
  - unfold decide_match.
    destruct (decide (candidates = ∅)) as [->|_].
    { rewrite map_size_empty in Hmany. lia. }
    destruct (decide (1 < size candidates)) as [_|?]; [|done].
    eexists. split; [reflexivity|]. simpl.
    repeat split; try done; try lia.
  - rewrite decide_match_sole. eexists. split; [reflexivity|]. simpl.
    rewrite map_size_singleton.
    split; [done|]. split; [lia|].
    intros c evidence _ Hc.
    apply lookup_singleton_Some in Hc as [<- <-].
    split; [|split].
    + intros Hstrong. by destruct (decide (ev ∩ STRONG_EVIDENCE ≠ ∅)).
    + intros -> ->.
      destruct (decide (({[ "name_addr" ]} : gset string) ∩ STRONG_EVIDENCE ≠ ∅)) as [Hx|_].
      { by rewrite name_addr_not_strong in Hx. }
      by rewrite bool_decide_eq_true_2.
    + intros Hweak Hnot.
      destruct (decide (ev ∩ STRONG_EVIDENCE ≠ ∅)) as [?|_]; [done|].
      destruct allow; simpl; [|done].
      rewrite bool_decide_eq_false_2; [done|]. intros ->. by apply Hnot.
Qed.

(** C2. A decision names an [auto_candidate] only for a mapping with
    exactly one candidate whose evidence meets the trust policy; with more
    than one candidate it names none. *)
Theorem auto_candidate_invariant (source_id name address : string)
    (candidates : gmap string (gset string)) (allow : bool) :
  ∃ d, decide_match source_id name address candidates allow = Ok d ∧
    (∀ c, md_auto_candidate d = Some c →
       size candidates = 1 ∧
       ∃ evidence, candidates !! c = Some evidence ∧
         (evidence ∩ STRONG_EVIDENCE ≠ ∅ ∨
          (evidence = {[ "name_addr" ]} ∧ allow = true))) ∧
    (1 < size candidates → md_auto_candidate d = None).
Proof.
  destruct (candidates_cases candidates) as [->|[Hmany|(k & ev & ->)]].
  - eexists. split; [reflexivity|]. simpl. split; [done|]. done.
  - unfold decide_match.
    destruct (decide (candidates = ∅)) as [->|_].
    { rewrite map_size_empty in Hmany. lia. }
    destruct (decide (1 < size candidates)) as [_|?]; [|done].
    eexists. split; [reflexivity|]. simpl. split; done.
  - rewrite decide_match_sole. eexists. split; [reflexivity|]. simpl.
    rewrite map_size_singleton. split; [|lia].
    intros c Hc. split; [done|]. exists ev.
    destruct (decide (ev ∩ STRONG_EVIDENCE ≠ ∅)) as [Hs|Hs].
    + injection Hc as <-. rewrite lookup_singleton_eq. split; [done|]. by left.
    + destruct allow; simpl in Hc; [|done].
      destruct (bool_decide (ev = {[ "name_addr" ]})) eqn:Hb; [|done].
      injection Hc as <-. apply bool_decide_eq_true_1 in Hb.
      rewrite lookup_singleton_eq. split; [done|]. by right.
Qed.

(** The five outcomes on small mappings. Two candidates are ambiguous
    whatever their evidence; a sole name and address match is trusted
    only when weak matches are allowed, and only when it is the whole
    evidence. *)
Example decide_match_outcomes :
  (md_match_type <$> decide_match "7" "n" "a" ∅ true) = Ok "no_match" ∧
  (md_match_type <$> decide_match "7" "n" "a"
     {[ "A1" := {[ "direct_source_id"; "phone" ]}; "B2" := {[ "unp" ]} ]} true)
    = Ok "ambiguous" ∧
  (md_match_type <$> decide_match "7" "n" "a"
     {[ "A1" := {[ "email"; "name_addr" ]} ]} false) = Ok "auto" ∧
  (md_match_type <$> decide_match "7" "n" "a" {[ "A1" := {[ "name_addr" ]} ]} true)
    = Ok "auto_weak_name_addr" ∧
  (md_match_type <$> decide_match "7" "n" "a" {[ "A1" := {[ "name_addr" ]} ]} false)
    = Ok "weak_unique" ∧
  (md_match_type <$> decide_match "7" "n" "a" {[ "A1" := {[ "name_addr"; "fax" ]} ]} true)
    = Ok "weak_unique" ∧
  (md_source_prefix <$> decide_match " 7 " "n" "a" ∅ true) = Ok "digits" ∧
  (md_source_prefix <$> decide_match "biznesinfo-7" "n" "a" ∅ true) = Ok "biznesinfo-".
Proof. repeat split; vm_compute; reflexivity. Qed.

(** X4. A sole candidate supported by the name and address match alone
    is never [auto]: it is [auto_weak_name_addr] when weak matches are
    allowed and [weak_unique] otherwise. *)
Theorem name_addr_alone_never_auto (source_id name address c : string) (allow : bool) :
  ∃ d, decide_match source_id name address {[ c := {[ "name_addr" ]} ]} allow = Ok d ∧
       md_match_type d ≠ "auto" ∧
       md_match_type d = (if allow then "auto_weak_name_addr" else "weak_unique") ∧
       md_auto_candidate d = (if allow then Some c else None).
Proof.
  rewrite decide_match_sole. eexists. split; [reflexivity|]. simpl.
  destruct (decide (({[ "name_addr" ]} : gset string) ∩ STRONG_EVIDENCE ≠ ∅)) as [Hx|_].
  { by rewrite name_addr_not_strong in Hx. }
  rewrite bool_decide_eq_true_2 by done. by destruct allow.
Qed.

(** *** The tax-id index *)

Lemma elem_of_index_add key subdomain index key' sub :
  sub ∈ default ∅ (index_add key subdomain index !! key') ↔
  (key' = key ∧ sub = subdomain) ∨ sub ∈ default ∅ (index !! key').
Proof.
  unfold index_add. destruct (decide (key = key')) as [->|Hne].
  - rewrite lookup_insert_eq. simpl.
    rewrite elem_of_union, elem_of_singleton. split.
    + intros [->|Hin]; [by left | by right].
    + intros [[_ ->]|Hin]; [by left | by right].
  - rewrite lookup_insert_ne by done. split; [by right|].
    by intros [[-> _]|Hin].
Qed.




Example by_unp_example :
  by_unp (build_ibiz_indexes
            {[ "a" := {| ic_subdomain := "a"; ic_name := ""; ic_address := "";
                         ic_unp := "12345"; ic_phones := []; ic_emails := [];
                         ic_websites := ["https://a.by"] |};
               "b" := {| ic_subdomain := "b"; ic_name := ""; ic_address := "";
                         ic_unp := "123456"; ic_phones := []; ic_emails := [];
                         ic_websites := ["https://b.by"] |} ]})
  = {[ "123456" := {[ "b" ]} ]}.
Proof. vm_compute. reflexivity. Qed.


(** *** The approved map *)

Lemma aggregate_snoc ds d : aggregate (ds ++ [d]) = tally_decision (aggregate ds) d.
Proof. unfold aggregate. by rewrite foldl_snoc. Qed.

Lemma auto_matches_lookup (ds : list MatchDecision) (q : string) :
  auto_matches (aggregate ds) !! q = last (omap (approved_by q) ds).
Proof.
  induction ds as [|d ds IH] using rev_ind.
  { simpl. by rewrite lookup_empty. }
  rewrite aggregate_snoc, omap_app. simpl.
  unfold approved_by at 2.
  destruct (decide (md_source_id d = q)) as [Hq|Hq].
  - destruct (md_auto_candidate d) as [c|]; simpl.
    + destruct (is_empty c); simpl.
      * by rewrite app_nil_r.
      * rewrite Hq, lookup_insert_eq. by rewrite last_snoc.
    + by rewrite app_nil_r.
  - rewrite app_nil_r, <- IH.
    destruct (md_auto_candidate d) as [c|]; [|done].
    destruct (is_empty c); [done|]. by rewrite lookup_insert_ne.
Qed.

Lemma last_omap_Some {A B} (f : A → option B) (l : list A) (c : B) :
  last (omap f l) = Some c ↔
  ∃ before x after, l = before ++ x :: after ∧ f x = Some c ∧
                    Forall (fun y => f y = None) after.
Proof.
  induction l as [|x l IH] using rev_ind.
  { split; [done|]. intros (before & y & after & Hl & _). by destruct before. }
  rewrite omap_app. simpl. destruct (f x) as [b|] eqn:Hx.
  - rewrite last_snoc. split.
    + intros [= ->]. exists l, x, []. by repeat split.
    + intros (before & y & after & Hl & Hy & Hafter).
      destruct after as [|z after _] using rev_ind.
      * apply app_inj_tail in Hl as [_ ->]. congruence.
      * rewrite app_comm_cons, app_assoc in Hl. apply app_inj_tail in Hl as [_ ->].
        apply Forall_app in Hafter as [_ Hz]. inversion Hz; congruence.
  - rewrite app_nil_r, IH. split.
    + intros (before & y & after & -> & Hy & Hafter).
      exists before, y, (after ++ [x]). split; [by rewrite <- app_assoc|].
      split; [done|]. apply Forall_app. split; [done|]. by constructor.
    + intros (before & y & after & Hl & Hy & Hafter).
      destruct after as [|z after _] using rev_ind.
      * apply app_inj_tail in Hl as [_ ->]. congruence.
      * rewrite app_comm_cons, app_assoc in Hl. apply app_inj_tail in Hl as [-> ->].
        apply Forall_app in Hafter as [Hafter _].
        by exists before, y, after.
Qed.

Lemma last_omap_None {A B} (f : A → option B) (l : list A) :
  last (omap f l) = None ↔ Forall (fun y => f y = None) l.
Proof.
  rewrite last_None. induction l as [|x l IH]; simpl.
  { split; [constructor|done]. }
  destruct (f x) as [b|] eqn:Hx.
  - split; [done|]. intros H. inversion H; congruence.
  - rewrite IH. split; [by constructor|]. intros H. by inversion H.
Qed.

Lemma approved_by_Some q d c :
  approved_by q d = Some c ↔
  md_source_id d = q ∧ md_auto_candidate d = Some c ∧ c ≠ "".
Proof.
  unfold approved_by. destruct (decide (md_source_id d = q)) as [Hq|Hq].
  - destruct (md_auto_candidate d) as [c'|].
    + destruct c' as [|a c']; simpl.
      * split; [done|]. intros (_ & [= <-] & Hne). done.
      * split; [intros [= <-]; by repeat split|]. by intros (_ & [= <-] & _).
    + split; [done|]. by intros (_ & ? & _).
  - split; [done|]. by intros (? & _).
Qed.

Lemma approved_by_None q d :
  approved_by q d = None ↔
  (md_source_id d = q → md_auto_candidate d = None ∨ md_auto_candidate d = Some "").
Proof.
  unfold approved_by. destruct (decide (md_source_id d = q)) as [Hq|Hq].
  - destruct (md_auto_candidate d) as [c'|].
    + destruct c' as [|a c']; simpl.
      * split; [by right|done].
      * split; [done|]. intros H. by destruct (H Hq).
    + split; [by left|done].
  - split; [done|done].
Qed.

(** The approved map holds, for each query identifier, the candidate of
    the last decision in sequence order that is for that identifier and
    names a non-empty candidate, and nothing for an identifier without
    such a decision. *)
Lemma auto_matches_last_wins (ds : list MatchDecision) (q : string) :
  auto_matches (aggregate ds) !! q = last (omap (approved_by q) ds) ∧
  (∀ c, auto_matches (aggregate ds) !! q = Some c ↔
     ∃ before d after,
       ds = before ++ d :: after ∧
       md_source_id d = q ∧ md_auto_candidate d = Some c ∧ c ≠ "" ∧
       Forall (fun d' => md_source_id d' = q →
                 md_auto_candidate d' = None ∨ md_auto_candidate d' = Some "") after) ∧
  (auto_matches (aggregate ds) !! q = None ↔
     Forall (fun d => md_source_id d = q →
               md_auto_candidate d = None ∨ md_auto_candidate d = Some "") ds).
Proof.
  rewrite auto_matches_lookup. split; [done|]. split.
  - intros c. rewrite last_omap_Some. split.
    + intros (before & d & after & -> & Hd & Hafter).
      apply approved_by_Some in Hd as (Hq & Hc & Hne).
      exists before, d, after. repeat split; try done.
      eapply Forall_impl; [exact Hafter|]. intros d'. apply approved_by_None.
    + intros (before & d & after & -> & Hq & Hc & Hne & Hafter).
      exists before, d, after. split; [done|]. split.
      * by apply approved_by_Some.
      * eapply Forall_impl; [exact Hafter|]. intros d'. apply approved_by_None.
  - rewrite last_omap_None. split; intros H;
      (eapply Forall_impl; [exact H|]); intros d; apply approved_by_None.
Qed.

(** *** The website list of a row *)

Lemma py_or_str s : py_or (JStr s) (JStr "") = JStr s.
Proof. by destruct s. Qed.

Lemma mapM_strip_strs (ws : list string) :
  mapM (fun raw => py_strip (py_or raw (JStr ""))) (JStr <$> ws) = Ok (strip <$> ws).
Proof.
  induction ws as [|w ws IH]; [done|].
  cbn [fmap list_fmap mapM]. rewrite py_or_str. cbn [py_strip].
  change (mapM ?f (list_fmap _ _ JStr ws)) with (mapM f (JStr <$> ws)).
  rewrite IH. done.
Qed.



(** *** Association lists *)

Lemma assoc_get_set_eq k v kvs : assoc_get k (assoc_set k v kvs) = Some v.
Proof.
  induction kvs as [|[k' v'] kvs IH]; simpl.
  - by rewrite String.eqb_refl.
  - destruct (String.eqb k' k) eqn:E; simpl; by rewrite E.
Qed.

Lemma assoc_get_set_ne k k' v kvs :
  k' ≠ k → assoc_get k' (assoc_set k v kvs) = assoc_get k' kvs.
Proof.
  intros Hne. induction kvs as [|[k0 v0] kvs IH]; simpl.
  - by rewrite (proj2 (String.eqb_neq k k')).
  - destruct (String.eqb k0 k) eqn:E; simpl; [|by rewrite IH].
    apply String.eqb_eq in E as ->.
    by rewrite (proj2 (String.eqb_neq k k')).
Qed.



(** *** One row of the writer *)

Section Writer.
Variable json_loads : string → option json.
Variables (approved : gmap string string) (ibiz_companies : gmap string IbizCompany).





Lemma backfill_loop_spec src dst n :
  backfill_loop json_loads approved ibiz_companies src dst n =
  match backfill_rows json_loads approved ibiz_companies src with
  | Ok written => Ok (dst ++ (dumps_line <$> written.*1), n + count_updated written)
  | Raise e => Raise e
  end.
Proof.
  unfold backfill_rows. revert dst n.
  induction src as [|line rest IH]; intros dst n.
  { simpl. by rewrite app_nil_r, Nat.add_0_r. }
  cbn [backfill_loop omap list_omap].
  destruct (parse_line json_loads line) as [obj|]; [|apply IH].
  cbn [mapM mbind result_bind].
  destruct (backfill_row approved ibiz_companies obj) as [[obj' upd]|e]; [|done].
  cbn [mbind result_bind]. rewrite IH.
  destruct (mapM _ _) as [written|e]; [|done].
  cbn [mbind result_bind fmap list_fmap fst]. f_equal. f_equal.
  - by rewrite <- app_assoc.
  - unfold count_updated. simpl. destruct upd; simpl; lia.
Qed.

Lemma apply_backfill_spec file :
  apply_backfill json_loads file approved ibiz_companies =
  match backfill_rows json_loads approved ibiz_companies file with
  | Ok written => (dumps_line <$> written.*1, Ok (count_updated written))
  | Raise e => (file, Raise e)
  end.
Proof.
  unfold apply_backfill. rewrite backfill_loop_spec.
  by destruct (backfill_rows _ _ _ _).
Qed.











End Writer.

(** *** What the loader guarantees *)

Lemma load_websites_normalized json_loads rows :
  websites_normalized (load_ibiz_companies json_loads rows).
Proof.
  unfold websites_normalized, load_ibiz_companies.
  induction rows as [|row rows IH] using rev_ind; intros sub c.
  { simpl. by rewrite lookup_empty. }
  rewrite foldl_snoc. unfold load_row at 1.
  destruct (is_empty _); [apply IH|].
  destruct (normalize_websites _) as [|w ws] eqn:Hnorm; [apply IH|].
  destruct (decide (strip (column_str (row_subdomain row)) = sub)) as [->|Hne].
  - rewrite lookup_insert_eq. intros [= <-]. simpl.
    rewrite <- Hnorm. apply normalize_websites_idem.
  - rewrite lookup_insert_ne by done. apply IH.
Qed.

(** C8. On a [str] and on [None] the five normalisers return a value,
    the one of the typed definitions, and never raise; on [None] the
    value is the empty string. *)
Theorem normalizers_total (raw : option string) :
  (normalize_phone_dyn (py_opt raw) = Ok (normalize_phone raw) ∧
   normalize_email_dyn (py_opt raw) = Ok (normalize_email raw) ∧
   normalize_unp_dyn (py_opt raw) = Ok (normalize_unp raw) ∧
   norm_space_dyn (py_opt raw) = Ok (norm_space raw) ∧
   norm_text_dyn (py_opt raw) = Ok (norm_text raw)) ∧
  (normalize_phone_dyn JNull = Ok "" ∧ normalize_email_dyn JNull = Ok "" ∧
   normalize_unp_dyn JNull = Ok "" ∧ norm_space_dyn JNull = Ok "" ∧
   norm_text_dyn JNull = Ok "").
Proof.
  split; [|by repeat split].
  destruct raw as [s|]; [|by repeat split].
  unfold normalize_phone_dyn, normalize_email_dyn, normalize_unp_dyn,
    norm_text_dyn, norm_space_dyn.
  cbn [py_opt]. rewrite py_or_str. by repeat split.
Qed.

(** C7. The scenario of the specification, from the secondary row to
    the row written back. *)
Theorem scenario_phone_match (json_loads : string → option json) (allow : bool) :
  let table := load_ibiz_companies json_loads [row_A1] in
  collect_candidates query_record table (build_ibiz_indexes table)
    = Ok {[ "A1" := {[ "phone" ]} ]} ∧
  (∃ d, decide_match "" "" "" {[ "A1" := {[ "phone" ]} ]} allow = Ok d ∧
        md_match_type d = "auto" ∧ md_auto_candidate d = Some "A1") ∧
  ic_websites <$> table !! "A1" = Some ["https://example.by"] ∧
  (∃ st d, scan_row 0 allow table (build_ibiz_indexes table)
             {| total_companies := 0; missing_websites_total := 0;
                source_prefix_counts := ∅; decisions := [] |} query_record = Ok st ∧
           decisions st = [d] ∧ md_match_type d = "auto" ∧
           auto_matches (aggregate (decisions st)) = {[ "" := "A1" ]} ∧
           backfill_row (auto_matches (aggregate (decisions st))) table query_record
             = Ok (JObj [("phones", JArr [JStr "375291234567"]);
                         ("websites", JArr [JStr "https://example.by"])], true)).
Proof.
  cbn zeta. split; [vm_compute; reflexivity|].
  split; [|split; [vm_compute; reflexivity|]].
  - destruct allow; eexists; (split; [vm_compute; reflexivity|]); split; reflexivity.
  - destruct allow; do 2 eexists;
      (split; [vm_compute; reflexivity|]);
      (split; [vm_compute; reflexivity|]);
      (split; [reflexivity|]);
      split; vm_compute; reflexivity.
Qed.

(** The table of the scenario is the same when the lists reach the
    loader as JSON text. *)
Example scenario_table_from_text :
  load_ibiz_companies loads_A1 [row_A1_text] = load_ibiz_companies loads_A1 [row_A1] ∧
  map_to_list (load_ibiz_companies loads_A1 [row_A1_text])
  = [("A1", {| ic_subdomain := "A1"; ic_name := ""; ic_address := ""; ic_unp := "";
               ic_phones := ["375291234567"]; ic_emails := [];
               ic_websites := ["https://example.by"] |})].
Proof. split; vm_compute; reflexivity. Qed.

(** X5. Two secondary records share the name and address key and the
    query record matches by name and address only: both are candidates,
    the decision is [ambiguous] and names no candidate, whether or not
    weak matches are allowed. *)
Theorem scenario_shared_name_address (json_loads : string → option json) (allow : bool) :
  let table := load_ibiz_companies json_loads rows_romashka in
  collect_candidates query_romashka table (build_ibiz_indexes table)
    = Ok {[ "r1" := {[ "name_addr" ]}; "r2" := {[ "name_addr" ]} ]} ∧
  ∃ d, decide_match "77" "romashka ooo" "MINSK, LENINA 1"
         {[ "r1" := {[ "name_addr" ]}; "r2" := {[ "name_addr" ]} ]} allow = Ok d ∧
       md_match_type d = "ambiguous" ∧ md_auto_candidate d = None.
Proof.
  cbn zeta. split; [vm_compute; reflexivity|].
  destruct allow; eexists; (split; [vm_compute; reflexivity|]); split; reflexivity.
Qed.

(** X6. A query record without a usable phone, e-mail or tax id whose
    name and address key is not in the index has no candidate and is
    classified [no_match]. *)
Theorem scenario_no_match (json_loads : string → option json) (allow : bool) :
  let table := load_ibiz_companies json_loads (row_A1 :: rows_romashka) in
  collect_candidates query_vasilek table (build_ibiz_indexes table) = Ok ∅ ∧
  ∃ d, decide_match "biznesinfo-5" "Vasilek" "Brest" ∅ allow = Ok d ∧
       md_match_type d = "no_match" ∧ md_auto_candidate d = None ∧
       md_source_prefix d = "biznesinfo-".
Proof.
  cbn zeta. split; [vm_compute; reflexivity|].
  eexists. split; [reflexivity|]. repeat split; vm_compute; reflexivity.
Qed.

(** *** Runs of [main] *)

Lemma index_within_empty table : index_within table ∅.
Proof.
  intros key sub. rewrite lookup_empty. simpl.
  intros Hin. by apply not_elem_of_empty in Hin.
Qed.

Lemma index_within_add table index key sub :
  is_Some (table !! sub) → index_within table index →
  index_within table (index_add key sub index).
Proof.
  intros Hsub Hix key' sub'. rewrite elem_of_index_add.
  intros [[_ ->]|Hin]; [done|]. by eapply Hix.
Qed.

Lemma index_within_add_all table index (keys : list string) sub :
  is_Some (table !! sub) → index_within table index →
  index_within table (foldl (fun ix key => index_add key sub ix) index keys).
Proof.
  intros Hsub. revert index. induction keys as [|key keys IH]; intros index Hix; [done|].
  simpl. apply IH. by apply index_within_add.
Qed.

Lemma index_within_insert table index i x :
  table !! i = None → index_within table index → index_within (<[i:=x]> table) index.
Proof.
  intros Hfresh Hix key sub Hin. destruct (Hix _ _ Hin) as [c Hc].
  exists c. rewrite lookup_insert_ne; [done|]. congruence.
Qed.

Lemma build_ibiz_indexes_within (table : gmap string IbizCompany) :
  let ix := build_ibiz_indexes table in
  index_within table (by_phone ix) ∧ index_within table (by_email ix) ∧
  index_within table (by_unp ix) ∧ index_within table (by_name_addr ix).
Proof.
  cbn zeta. unfold build_ibiz_indexes.
  apply (map_fold_weak_ind
    (fun ix (m : gmap string IbizCompany) =>
       index_within m (by_phone ix) ∧ index_within m (by_email ix) ∧
       index_within m (by_unp ix) ∧ index_within m (by_name_addr ix))).
  { simpl. repeat split; apply index_within_empty. }
  intros i x m r Hfresh (Hp & He & Hu & Hn).
  assert (is_Some (<[i:=x]> m !! i)) as Hi by (rewrite lookup_insert_eq; by eexists).
  unfold index_company; simpl. repeat split.
  - apply index_within_add_all; [done|]. by apply index_within_insert.
  - apply index_within_add_all; [done|]. by apply index_within_insert.
  - destruct (decide (6 ≤ String.length (ic_unp x))).
    + apply index_within_add; [done|]. by apply index_within_insert.
    + by apply index_within_insert.
  - destruct (decide (_ ≠ "||")).
    + apply index_within_add; [done|]. by apply index_within_insert.
    + by apply index_within_insert.
Qed.

Lemma candidates_within_add table candidates tag sub :
  is_Some (table !! sub) → candidates_within table candidates →
  candidates_within table (add_evidence tag sub candidates).
Proof.
  intros Hsub Hc sub'. unfold add_evidence.
  destruct (decide (sub = sub')) as [<-|Hne]; [done|].
  rewrite lookup_insert_ne by done. apply Hc.
Qed.

Lemma candidates_within_hits table index candidates tag key :
  index_within table index → candidates_within table candidates →
  candidates_within table (add_hits tag key index candidates).
Proof.
  intros Hix Hc. unfold add_hits.
  generalize (fun sub => Hix key sub).
  generalize (default ∅ (index !! key)). intros hits.
  apply (set_fold_ind_L
    (fun r (X : gset string) =>
       (∀ sub, sub ∈ X → is_Some (table !! sub)) → candidates_within table r)).
  - done.
  - intros sub X r Hfresh IH Hall.
    apply candidates_within_add.
    + apply Hall, elem_of_union_l, elem_of_singleton. done.
    + apply IH. intros sub' Hin. by apply Hall, elem_of_union_r.
Qed.

Lemma candidates_within_foldl {A} table (f : gmap string (gset string) → A → gmap string (gset string))
    (xs : list A) candidates :
  (∀ c x, candidates_within table c → candidates_within table (f c x)) →
  candidates_within table candidates →
  candidates_within table (foldl f candidates xs).
Proof.
  intros Hf. revert candidates. induction xs as [|x xs IH]; intros c Hc; [done|].
  simpl. by apply IH, Hf.
Qed.

Lemma collect_candidates_within table company candidates :
  collect_candidates company table (build_ibiz_indexes table) = Ok candidates →
  candidates_within table candidates.
Proof.
  destruct (build_ibiz_indexes_within table) as (Hp & He & Hu & Hn).
  unfold collect_candidates.
  destruct (row_source_id company) as [source_id|]; [|done].
  cbn [mbind result_bind].
  destruct (py_get company "phones") as [phones|]; [|done].
  cbn [mbind result_bind].
  destruct (py_iter (py_or phones (JArr []))) as [raw_phones|]; [|done].
  cbn [mbind result_bind].
  destruct (py_get company "emails") as [emails|]; [|done].
  cbn [mbind result_bind].
  destruct (py_iter (py_or emails (JArr []))) as [raw_emails|]; [|done].
  cbn [mbind result_bind].
  destruct (field_str company "unp") as [unp_raw|]; [|done].
  cbn [mbind result_bind].
  destruct (field_str company "name") as [name|]; [|done].
  cbn [mbind result_bind].
  destruct (field_str company "address") as [address|]; [|done].
  cbn [mbind result_bind].
  intros [= <-].
  assert (∀ c (b : bool) (P : Prop) (d : Decision P) tag key index,
            index_within table index → candidates_within table c →
            candidates_within table (if d then add_hits tag key index c else c))
    as Hif.
  { intros c b P d tag key index Hix Hc. destruct d; [|done].
    by apply candidates_within_hits. }
  apply (Hif _ true); [done|]. apply (Hif _ true); [done|].
  apply candidates_within_foldl.
  { intros c x Hc. destruct (is_empty _); [done|]. by apply candidates_within_hits. }
  apply candidates_within_foldl.
  { intros c x Hc. destruct (decide _); [done|]. by apply candidates_within_hits. }
  destruct (negb (is_empty source_id) && bool_decide (is_Some (table !! source_id))) eqn:Hd.
  - apply andb_true_iff in Hd as [_ Hd]. apply bool_decide_eq_true_1 in Hd.
    apply candidates_within_add; [done|]. intros sub. by rewrite lookup_empty.
  - intros sub. rewrite lookup_empty. by intros [? ?].
Qed.

(** The loader admits a record only under a non-empty identifier and with a
    non-empty website list. *)
Lemma load_admits json_loads rows sub c :
  load_ibiz_companies json_loads rows !! sub = Some c →
  sub ≠ "" ∧ ic_subdomain c = sub ∧ ic_websites c ≠ [].
Proof.
  unfold load_ibiz_companies. revert sub c.
  induction rows as [|row rows IH] using rev_ind; intros sub c.
  { simpl. by rewrite lookup_empty. }
  rewrite foldl_snoc. unfold load_row at 1.
  destruct (is_empty _) eqn:Hne; [apply IH|].
  destruct (normalize_websites _) as [|w ws] eqn:Hnorm; [apply IH|].
  destruct (decide (strip (column_str (row_subdomain row)) = sub)) as [<-|Hneq].
  - rewrite lookup_insert_eq. intros [= <-]. simpl.
    split; [by apply is_empty_false|]. done.
  - rewrite lookup_insert_ne by done. apply IH.
Qed.

Lemma decide_match_within table source_id name address candidates allow d :
  candidates_within table candidates →
  decide_match source_id name address candidates allow = Ok d →
  decision_within table d.
Proof.
  intros Hc. destruct (candidates_cases candidates) as [->|[Hmany|(k & ev & ->)]].
  - intros [= <-] c. done.
  - unfold decide_match.
    destruct (decide (candidates = ∅)) as [->|_].
    { rewrite map_size_empty in Hmany. lia. }
    destruct (decide (1 < size candidates)) as [_|?]; [|done].
    intros [= <-] c. done.
  - rewrite decide_match_sole. intros [= <-] c. simpl.
    assert (is_Some (table !! k)) as Hk.
    { apply Hc. rewrite lookup_singleton_eq. by eexists. }
    destruct (decide (ev ∩ STRONG_EVIDENCE ≠ ∅)); [by intros [= <-]|].
    destruct (allow && bool_decide (ev = {[ "name_addr" ]})); [by intros [= <-]|done].
Qed.

Section Scan.
Variable json_loads : string → option json.
Variables (max_companies : Z) (allow : bool) (table : gmap string IbizCompany).

Lemma scan_row_within st obj st' :
  Forall (decision_within table) (decisions st) →
  scan_row max_companies allow table (build_ibiz_indexes table) st obj = Ok st' →
  Forall (decision_within table) (decisions st').
Proof.
  intros Hst. unfold scan_row.
  destruct (row_source_id obj) as [source_id|]; [|done]. cbn [mbind result_bind].
  destruct (row_websites obj) as [[|w ws]|]; [| |done]; cbn [mbind result_bind].
  2:{ by intros [= <-]. }
  destruct (negb (max_companies =? 0)%Z && _); [by intros [= <-]|].
  destruct (collect_candidates obj table (build_ibiz_indexes table))
    as [candidates|] eqn:Hcand; [|done]. cbn [mbind result_bind].
  destruct (field_str obj "name") as [name|]; [|done]. cbn [mbind result_bind].
  destruct (field_str obj "address") as [address|]; [|done]. cbn [mbind result_bind].
  destruct (decide_match _ _ _ _ _) as [d|] eqn:Hd; [|done]. cbn [mbind result_bind].
  intros [= <-]. simpl. apply Forall_app. split; [done|].
  constructor; [|done].
  eapply decide_match_within; [|exact Hd]. by eapply collect_candidates_within.
Qed.

Lemma scan_loop_within lines st st' :
  Forall (decision_within table) (decisions st) →
  scan_loop json_loads max_companies allow table (build_ibiz_indexes table) lines st = Ok st' →
  Forall (decision_within table) (decisions st').
Proof.
  revert st. induction lines as [|line rest IH]; intros st Hst.
  { by intros [= <-]. }
  simpl. destruct (parse_line json_loads line) as [obj|]; [|by apply IH].
  destruct (scan_row _ _ _ _ st obj) as [st1|] eqn:Hrow; [|done].
  cbn [mbind result_bind]. apply IH. by eapply scan_row_within.
Qed.

Lemma scan_companies_within lines st :
  scan_companies json_loads max_companies allow table lines = Ok st →
  Forall (decision_within table) (decisions st).
Proof. unfold scan_companies. apply scan_loop_within. constructor. Qed.

End Scan.

Lemma main_decisions_within json_loads rows max_companies allow lines st :
  scan_companies json_loads max_companies allow
    (load_ibiz_companies json_loads rows) lines = Ok st →
  Forall (fun d => ∀ c, md_auto_candidate d = Some c →
            c ≠ "" ∧
            ∃ record, load_ibiz_companies json_loads rows !! c = Some record ∧
                      ic_websites record ≠ [] ∧
                      normalize_websites (ic_websites record) = ic_websites record)
         (decisions st).
Proof.
  intros Hscan. apply scan_companies_within in Hscan.
  eapply Forall_impl; [exact Hscan|]. simpl.
  intros d Hd c Hc. destruct (Hd c Hc) as [record Hrec].
  destruct (load_admits _ _ _ _ Hrec) as (Hne & _ & Hws).
  split; [done|]. exists record. split; [done|]. split; [done|].
  by eapply load_websites_normalized.
Qed.

Lemma omap_ext_Forall {A B} (f g : A → option B) (l : list A) :
  Forall (fun x => f x = g x) l → omap f l = omap g l.
Proof.
  induction 1 as [|x l Hx _ IH]; [done|].
  cbn [omap list_omap]. cbn [omap] in IH. by rewrite Hx, IH.
Qed.

(** X1. In a run of [main] every candidate a decision names is a
    non-empty identifier of the loaded table, and its record holds a
    non-empty website list that is already normalised. *)
Theorem main_approves_table_keys json_loads rows max_companies allow lines st :
  scan_companies json_loads max_companies allow
    (load_ibiz_companies json_loads rows) lines = Ok st →
  Forall (fun d => ∀ c, md_auto_candidate d = Some c →
            c ≠ "" ∧
            ∃ record, load_ibiz_companies json_loads rows !! c = Some record ∧
                      ic_websites record ≠ [] ∧
                      normalize_websites (ic_websites record) = ic_websites record)
         (decisions st).
Proof. apply main_decisions_within. Qed.

(** X2. In a run of [main] the approved map holds, for each query
    identifier, the candidate of the last decision for it that names one:
    a decision of a run never names the empty string. *)
Theorem main_auto_matches_last_set json_loads rows max_companies allow lines st q :
  scan_companies json_loads max_companies allow
    (load_ibiz_companies json_loads rows) lines = Ok st →
  auto_matches (aggregate (decisions st)) !! q =
  last (omap (fun d => if decide (md_source_id d = q)
                       then md_auto_candidate d else None) (decisions st)).
Proof.
  intros Hscan. rewrite auto_matches_lookup. f_equal.
  apply omap_ext_Forall.
  eapply Forall_impl; [exact (main_decisions_within _ _ _ _ _ _ Hscan)|]. simpl.
  intros d Hd. unfold approved_by.
  destruct (decide (md_source_id d = q)); [|done].
  destruct (md_auto_candidate d) as [c|] eqn:Hc; [|done].
  destruct (Hd c eq_refl) as [Hne _]. apply is_empty_false in Hne. by rewrite Hne.
Qed.

(** C6. The approved map is built with last-write-wins precedence: for
    every sequence of decisions none of which names the empty string, it
    holds under each query identifier the candidate of the last decision
    for that identifier that names one, and nothing under an identifier
    without such a decision. The decisions of a run of [main] are such a
    sequence, whatever the two datasets hold: a candidate is a key of the
    table, and no key of the table is empty. *)
Theorem auto_matches_last_write_wins :
  (∀ (ds : list MatchDecision) (q : string),
     Forall (fun d => md_auto_candidate d ≠ Some "") ds →
     auto_matches (aggregate ds) !! q
     = last (omap (fun d => if decide (md_source_id d = q)
                            then md_auto_candidate d else None) ds)) ∧
  (∀ json_loads rows max_companies allow lines st,
     scan_companies json_loads max_companies allow
       (load_ibiz_companies json_loads rows) lines = Ok st →
     Forall (fun d => md_auto_candidate d ≠ Some "") (decisions st)).
Proof.
  split.
  - intros ds q Hds. rewrite auto_matches_lookup. f_equal.
    apply omap_ext_Forall. eapply Forall_impl; [exact Hds|]. simpl.
    intros d Hd. unfold approved_by.
    destruct (decide (md_source_id d = q)); [|done].
    destruct (md_auto_candidate d) as [c|]; [|done].
    destruct c; [done|done].
  - intros json_loads rows max_companies allow lines st Hscan.
    eapply Forall_impl; [exact (main_decisions_within _ _ _ _ _ _ Hscan)|]. simpl.
    intros d Hd Hc. by destruct (Hd "" Hc).
Qed.




Lemma sample_first_pass :
  backfill_rows sample_loads approved_q1 sample_table sample_file
  = Ok [(company_q1_filled ["https://example.by"], true)].
Proof. vm_compute. reflexivity. Qed.

Lemma sample_reads_back written :
  backfill_rows sample_loads approved_q1 sample_table sample_file = Ok written →
  Forall (fun obj => parse_line sample_loads (dumps_line obj) = Some obj) written.*1.
Proof.
  rewrite sample_first_pass. intros [= <-].
  constructor; [vm_compute; reflexivity | constructor].
Qed.

Lemma sample_first_count :
  (apply_backfill sample_loads sample_file approved_q1 sample_table).2 = Ok 1.
Proof. vm_compute. reflexivity. Qed.

(** The writer on the sample file: the blank and the unparsable line are
    dropped, the record is filled from the table. *)
Example apply_backfill_sample :
  apply_backfill sample_loads sample_file approved_q1 sample_table
  = ([dumps_line (company_q1_filled ["https://example.by"])], Ok 1).
Proof. vm_compute. reflexivity. Qed.

Lemma sample_scan :
  ∃ st, scan_companies sample_loads 0 false
          (load_ibiz_companies sample_loads [row_A1]) sample_lines = Ok st ∧
        md_auto_candidate <$> decisions st = [Some "A1"; None].
Proof. eexists. split; vm_compute; reflexivity. Qed.

(** A run over the two sample records: the candidate named is [A1]. *)
Lemma main_approves_table_keys_witness :
  ∃ st, scan_companies sample_loads 0 false
          (load_ibiz_companies sample_loads [row_A1]) sample_lines = Ok st ∧
        Forall (fun d => ∀ c, md_auto_candidate d = Some c →
                  c ≠ "" ∧
                  ∃ record, load_ibiz_companies sample_loads [row_A1] !! c = Some record ∧
                            ic_websites record ≠ [] ∧
                            normalize_websites (ic_websites record) = ic_websites record)
               (decisions st).
Proof.
  destruct sample_scan as (st & Hscan & _). exists st. split; [exact Hscan|].
  exact (main_approves_table_keys sample_loads [row_A1] 0 false sample_lines st Hscan).
Defined.

Lemma main_auto_matches_last_set_witness :
  ∃ st, scan_companies sample_loads 0 false
          (load_ibiz_companies sample_loads [row_A1]) sample_lines = Ok st ∧
        auto_matches (aggregate (decisions st)) !! "q1" =
        last (omap (fun d => if decide (md_source_id d = "q1")
                             then md_auto_candidate d else None) (decisions st)).
Proof.
  destruct sample_scan as (st & Hscan & _). exists st. split; [exact Hscan|].
  exact (main_auto_matches_last_set sample_loads [row_A1] 0 false sample_lines st "q1" Hscan).
Defined.










(** A table made by hand whose website list normalises to nothing: both
    applications update the record. [load_ibiz_companies] builds no such
    table. *)
Lemma apply_backfill_second_updates :
  apply_backfill sample_loads sample_file approved_q1 table_tel
  = ([dumps_line (company_q1_filled ["tel:+375291234567"])], Ok 1) ∧
  apply_backfill sample_loads
    [dumps_line (company_q1_filled ["tel:+375291234567"])] approved_q1 table_tel
  = ([dumps_line (company_q1_filled ["tel:+375291234567"])], Ok 1).
Proof. split; vm_compute; reflexivity. Qed.

(** A decision made by hand for a candidate mapping with the empty
    string as a key: the field is set, the approved map stays empty. No
    decision of a run names the empty string. *)
Lemma auto_matches_skips_empty_candidate :
  ∃ d, decide_match "q1" "" "" {[ "" := {[ "phone" ]} ]} false = Ok d ∧
       md_source_id d = "q1" ∧ md_auto_candidate d = Some "" ∧
       auto_matches (aggregate [d]) !! "q1" = None.
Proof. eexists. split; [by vm_compute|]. by vm_compute. Qed.

(** *** [norm_space] and [norm_text] *)

Lemma norm_space_stripped value : strip (norm_space value) = norm_space value.
Proof.
  unfold norm_space. apply strip_fixed_iff.
  destruct (proj1 (strip_fixed_iff _) (strip_idem (or_empty value))) as [Hl Hr].
  split; [by apply sub_ws_runs_no_lead_space | by apply sub_ws_runs_go_rstrip].
Qed.

Lemma norm_space_single_spaced value : single_spaced (norm_space value) = true.
Proof.
  unfold norm_space. apply sub_ws_runs_go_single_spaced.
  by destruct (proj1 (strip_fixed_iff _) (strip_idem (or_empty value))).
Qed.

Lemma norm_space_fixed u :
  strip u = u → single_spaced u = true → norm_space (Some u) = u.
Proof.
  intros Hs Hu. unfold norm_space. simpl. rewrite Hs.
  by apply sub_ws_runs_go_fixed.
Qed.

Lemma norm_space_idem value : norm_space (Some (norm_space value)) = norm_space value.
Proof. apply norm_space_fixed; [apply norm_space_stripped | apply norm_space_single_spaced]. Qed.

Lemma norm_space_lower s : norm_space (Some (lower s)) = lower (norm_space (Some s)).
Proof.
  unfold norm_space. simpl. rewrite strip_lower. apply sub_ws_runs_go_lower.
Qed.

Lemma norm_text_idem value : norm_text (Some (norm_text value)) = norm_text value.
Proof.
  unfold norm_text, casefold.
  by rewrite norm_space_lower, norm_space_idem, lower_idem.
Qed.

(** *** [uniq_keep_order] *)

Lemma filter_filter_ne_seen (seen : gset string) (s : string) (l : list string) :
  filter (fun y => y ∉ ({[ s ]} ∪ seen)) l
  = filter (fun y => y ∉ seen) (filter (fun y => y ≠ s) l).
Proof.
  induction l as [|x l IH]; [done|].
  rewrite !filter_cons.
  destruct (decide (x ≠ s)) as [Hne|Heq].
  - rewrite filter_cons.
    destruct (decide (x ∉ seen)) as [Hx|Hx].
    + rewrite decide_True; [by rewrite IH|].
      intros [->%elem_of_singleton|?]%elem_of_union; done.
    + rewrite decide_False; [done|].
      intros H. apply H, elem_of_union_r. by destruct (decide (x ∈ seen)).
  - rewrite decide_False; [done|].
    intros H. apply H, elem_of_union_l, elem_of_singleton.
    by destruct (decide (x = s)).
Qed.

Lemma filter_seen_ne (seen : gset string) (s : string) (l : list string) :
  s ∈ seen →
  filter (fun y => y ∉ seen) (filter (fun y => y ≠ s) l) = filter (fun y => y ∉ seen) l.
Proof.
  intros Hs. induction l as [|x l IH]; [done|].
  rewrite !filter_cons.
  destruct (decide (x ≠ s)) as [Hne|Heq].
  - rewrite filter_cons. by rewrite IH.
  - assert (x = s) as -> by by destruct (decide (x = s)).
    rewrite decide_False by (intros H; by apply H). done.
Qed.

Lemma uniq_keep_order_go_first (seen : gset string) (values : list string) :
  uniq_keep_order_go seen values
  = filter (fun y => y ∉ seen)
      (first_occurrences (filter (fun y => y ≠ "") (strip <$> values))).
Proof.
  revert seen. induction values as [|v rest IH]; intros seen; [done|].
  cbn [uniq_keep_order_go fmap list_fmap]. rewrite filter_cons.
  destruct (is_empty (strip v)) eqn:Hemp.
  { apply is_empty_true in Hemp.
    destruct (decide (strip v ≠ "")) as [?|_]; [done|]. apply IH. }
  apply is_empty_false in Hemp.
  destruct (decide (strip v ≠ "")) as [_|?]; [|done].
  cbn [first_occurrences]. rewrite filter_cons.
  destruct (decide (strip v ∈ seen)) as [Hin|Hnotin].
  - destruct (decide (strip v ∉ seen)) as [?|_]; [done|].
    rewrite filter_seen_ne by done. apply IH.
  - destruct (decide (strip v ∉ seen)) as [_|?]; [|done]. f_equal.
    rewrite IH. apply filter_filter_ne_seen.
Qed.

Lemma filter_all {A} (P : A → Prop) `{∀ x, Decision (P x)} (l : list A) :
  Forall P l → filter P l = l.
Proof.
  induction 1 as [|x l Hx _ IH]; [done|].
  by rewrite filter_cons_True, IH.
Qed.

Lemma first_occurrences_elem (xs : list string) y :
  y ∈ first_occurrences xs ↔ y ∈ xs.
Proof.
  induction xs as [|x xs IH]; [done|]. simpl.
  rewrite !elem_of_cons, list_elem_of_filter, IH.
  destruct (decide (y = x)) as [->|Hne].
  - split; intros _; by left.
  - split; [intros [?|[_ ?]]; [done|by right] | intros [?|?]; [done|by right]].
Qed.

Lemma first_occurrences_NoDup (xs : list string) : NoDup (first_occurrences xs).
Proof.
  induction xs as [|x xs IH]; simpl; constructor.
  - rewrite list_elem_of_filter. by intros [? _].
  - by apply NoDup_filter.
Qed.

Lemma uniq_keep_order_first (values : list string) :
  uniq_keep_order values
  = first_occurrences (filter (fun y => y ≠ "") (strip <$> values)).
Proof.
  unfold uniq_keep_order. rewrite uniq_keep_order_go_first.
  apply filter_all. apply Forall_forall. intros y _. apply not_elem_of_empty.
Qed.

Lemma uniq_keep_order_elem (values : list string) y :
  y ∈ uniq_keep_order values ↔ y ≠ "" ∧ ∃ v, v ∈ values ∧ y = strip v.
Proof.
  rewrite uniq_keep_order_first, first_occurrences_elem, list_elem_of_filter,
    list_elem_of_fmap.
  split.
  - intros [Hne (v & -> & Hv)]. split; [done|]. by exists v.
  - intros [Hne (v & Hv & ->)]. split; [done|]. by exists v.
Qed.

Lemma uniq_keep_order_NoDup (values : list string) : NoDup (uniq_keep_order values).
Proof. rewrite uniq_keep_order_first. apply first_occurrences_NoDup. Qed.

(** X9. [uniq_keep_order] strips every value, drops the blank ones and keeps
    the others in the order of their first occurrence, each once. *)
Theorem uniq_keep_order_first_occurrences (values : list string) :
  uniq_keep_order values
  = first_occurrences (filter (fun y => y ≠ "") (strip <$> values)) ∧
  NoDup (uniq_keep_order values) ∧
  (∀ y, y ∈ uniq_keep_order values ↔ y ≠ "" ∧ ∃ v, v ∈ values ∧ y = strip v) ∧
  uniq_keep_order (uniq_keep_order values) = uniq_keep_order values.
Proof.
  split; [apply uniq_keep_order_first|]. split; [apply uniq_keep_order_NoDup|].
  split; [apply uniq_keep_order_elem|apply uniq_keep_order_idem].
Qed.

(** *** Digits *)

Lemma str_filter_fixed p s : str_forall p s = true → str_filter p s = s.
Proof.
  induction s as [|c s IH]; [done|]. simpl.
  intros [Hc Hs]%andb_true_iff. by rewrite Hc, IH.
Qed.

Lemma digits_no_space s : str_forall isdigit s = true → strip s = s.
Proof.
  intros H. apply strip_fixed_iff. split.
  - destruct s as [|c s]; [done|]. simpl in *.
    apply andb_true_iff in H as [Hc _]. by apply isdigit_not_space.
  - induction s as [|c s IH]; [done|]. simpl in *.
    apply andb_true_iff in H as [Hc Hs].
    by rewrite (isdigit_not_space _ Hc), IH.
Qed.

Lemma str_filter_length p s : String.length (str_filter p s) ≤ String.length s.
Proof.
  induction s as [|c s IH]; [done|]. simpl. destruct (p c); simpl; lia.
Qed.

(** *** [normalize_websites] *)

Lemma website_entry_elem (values : list string) y :
  y ∈ normalize_websites values ↔ ∃ v, v ∈ values ∧ website_entry (strip v) = Some y.
Proof.
  unfold normalize_websites.
  rewrite uniq_keep_order_elem.
  pose proof (website_entries_normal values) as Hnorm. rewrite Forall_forall in Hnorm.
  split.
  - intros (Hne & e & He & ->). destruct (Hnorm e He) as [Hs _]. rewrite Hs.
    apply list_elem_of_omap in He as (v & Hv & He). by exists v.
  - intros (v & Hv & He).
    assert (y ∈ omap (fun raw => website_entry (strip raw)) values) as Hy.
    { apply list_elem_of_omap. by exists v. }
    destruct (Hnorm y Hy) as [Hs Hm]. split.
    + by apply match_http_scheme_nonempty.
    + by exists y.
Qed.

(** *** [source_prefix] *)

Lemma imported_prefix_not_digits sid :
  startswith sid IMPORTED_SOURCE_ID_PREFIX = true → str_isdigit sid = false.
Proof.
  unfold startswith, IMPORTED_SOURCE_ID_PREFIX, str_isdigit.
  destruct sid as [|c r]; [done|].
  destruct c as [[] [] [] [] [] [] [] []]; cbn; done.
Qed.

(** *** The shape of a decision *)

Lemma decide_match_many source_id name address candidates allow :
  1 < size candidates →
  decide_match source_id name address candidates allow =
  Ok {| md_source_id := source_id; md_name := name; md_address := address;
        md_source_prefix := source_prefix source_id;
        md_evidence_by_candidate := candidates;
        md_match_type := "ambiguous"; md_auto_candidate := None |}.
Proof.
  intros Hmany. unfold decide_match.
  destruct (decide (candidates = ∅)) as [->|_].
  { rewrite map_size_empty in Hmany. lia. }
  by destruct (decide (1 < size candidates)).
Qed.

(** X13. A decision repeats the arguments it was made for, the candidate
    mapping included; its [match_type] is one of five names and tells
    the number of candidates, and it names an [auto_candidate] exactly
    when the type is [auto] or [auto_weak_name_addr]. The latter is given
    only when weak matches are allowed. *)
Theorem decide_match_shape (source_id name address : string)
    (candidates : gmap string (gset string)) (allow : bool) :
  ∃ d, decide_match source_id name address candidates allow = Ok d ∧
    md_source_id d = source_id ∧ md_name d = name ∧ md_address d = address ∧
    md_source_prefix d = source_prefix source_id ∧
    md_evidence_by_candidate d = candidates ∧
    md_match_type d ∈
      ["no_match"; "ambiguous"; "auto"; "auto_weak_name_addr"; "weak_unique"] ∧
    (md_match_type d = "no_match" ↔ size candidates = 0) ∧
    (md_match_type d = "ambiguous" ↔ 1 < size candidates) ∧
    (is_Some (md_auto_candidate d) ↔
       md_match_type d = "auto" ∨ md_match_type d = "auto_weak_name_addr") ∧
    (md_match_type d = "auto_weak_name_addr" → allow = true).
Proof.
  destruct (candidates_cases candidates) as [->|[Hmany|(k & ev & ->)]].
  - eexists. split; [reflexivity|]. simpl. rewrite map_size_empty.
    do 5 (split; [done|]). split; [apply list_elem_of_here|].
    split; [done|]. split; [split; [done|lia]|].
    split; [|done]. split; [by intros [? ?]|by intros [?|?]].
  - rewrite decide_match_many by done. eexists. split; [reflexivity|]. simpl.
    do 5 (split; [done|]).
    split; [apply list_elem_of_further, list_elem_of_here|].
    split; [split; [done|lia]|]. split; [done|].
    split; [|done]. split; [by intros [? ?]|by intros [?|?]].
  - rewrite decide_match_sole. eexists. split; [reflexivity|]. simpl.
    rewrite map_size_singleton. do 5 (split; [done|]).
    destruct (decide (ev ∩ STRONG_EVIDENCE ≠ ∅)).
    + split; [do 2 apply list_elem_of_further; apply list_elem_of_here|].
      split; [done|]. split; [split; [done|lia]|].
      split; [|done]. split; [by left|by eexists].
    + destruct allow; simpl.
      * destruct (bool_decide (ev = {[ "name_addr" ]})).
        -- split; [do 3 apply list_elem_of_further; apply list_elem_of_here|].
           split; [done|]. split; [split; [done|lia]|].
           split; [|done]. split; [by right|by eexists].
        -- split; [do 4 apply list_elem_of_further; apply list_elem_of_here|].
           split; [done|]. split; [split; [done|lia]|].
           split; [|done]. split; [by intros [? ?]|by intros [?|?]].
      * split; [do 4 apply list_elem_of_further; apply list_elem_of_here|].
        split; [done|]. split; [split; [done|lia]|].
        split; [|done]. split; [by intros [? ?]|by intros [?|?]].
Qed.

(** X14. Allowing weak matches changes one kind of decision only: the sole
    candidate whose evidence is exactly the name and address match, which
    goes from [weak_unique] to [auto_weak_name_addr] and is named as the
    candidate. Every other decision is the same with and without the
    flag. *)
Theorem weak_flag_only_promotes (source_id name address : string)
    (candidates : gmap string (gset string)) :
  ∃ d0 d1,
    decide_match source_id name address candidates false = Ok d0 ∧
    decide_match source_id name address candidates true = Ok d1 ∧
    (d1 = d0 ∨
     ∃ c, candidates = {[ c := {[ "name_addr" ]} ]} ∧
          md_match_type d0 = "weak_unique" ∧ md_auto_candidate d0 = None ∧
          md_match_type d1 = "auto_weak_name_addr" ∧ md_auto_candidate d1 = Some c) ∧
    (∀ c, md_auto_candidate d0 = Some c → md_auto_candidate d1 = Some c).
Proof.
  destruct (candidates_cases candidates) as [->|[Hmany|(k & ev & ->)]].
  - do 2 eexists. split; [reflexivity|]. split; [reflexivity|]. split; [by left|done].
  - rewrite !decide_match_many by done. do 2 eexists.
    split; [reflexivity|]. split; [reflexivity|]. split; [by left|done].
  - rewrite !decide_match_sole. do 2 eexists.
    split; [reflexivity|]. split; [reflexivity|]. simpl.
    destruct (decide (ev ∩ STRONG_EVIDENCE ≠ ∅)); [split; [by left|done]|].
    destruct (bool_decide (ev = {[ "name_addr" ]})) eqn:Hb; [|split; [by left|done]].
    apply bool_decide_eq_true_1 in Hb as ->.
    split; [|done]. right. by exists k.
Qed.

(** *** The loader, row by row *)

Lemma load_row_eq json_loads out row :
  load_row json_loads out row =
  if row_admitted json_loads row
  then <[ row_key row := row_company json_loads row ]> out else out.
Proof.
  unfold load_row, row_admitted, row_company, row_key.
  destruct (is_empty _); [done|]. simpl.
  by destruct (normalize_websites _).
Qed.

Lemma load_lookup_last json_loads rows sub :
  load_ibiz_companies json_loads rows !! sub = last (omap (row_for json_loads sub) rows).
Proof.
  unfold load_ibiz_companies.
  induction rows as [|row rows IH] using rev_ind.
  { simpl. by rewrite lookup_empty. }
  rewrite foldl_snoc, omap_app, load_row_eq. simpl. unfold row_for at 2.
  destruct (row_admitted json_loads row); simpl.
  - destruct (String.eqb (row_key row) sub) eqn:E.
    + apply String.eqb_eq in E as <-. by rewrite lookup_insert_eq, last_snoc.
    + apply String.eqb_neq in E. by rewrite lookup_insert_ne, app_nil_r.
  - by rewrite app_nil_r.
Qed.

Lemma load_lookup_row json_loads rows sub c :
  load_ibiz_companies json_loads rows !! sub = Some c →
  ∃ row, row ∈ rows ∧ row_admitted json_loads row = true ∧ row_key row = sub ∧
         c = row_company json_loads row.
Proof.
  rewrite load_lookup_last. intros (before & row & after & -> & Hrow & _)%last_omap_Some.
  exists row. split; [apply elem_of_app; right; apply list_elem_of_here|].
  unfold row_for in Hrow.
  destruct (row_admitted json_loads row); [|done].
  destruct (String.eqb (row_key row) sub) eqn:E; [|done].
  apply String.eqb_eq in E. by injection Hrow as <-.
Qed.


Lemma uniq_keep_order_Forall (P : string → Prop) (values : list string) :
  Forall (fun v => strip v ≠ "" → P (strip v)) values → Forall P (uniq_keep_order values).
Proof.
  intros Hall. apply Forall_forall. intros y (Hne & v & Hv & ->)%uniq_keep_order_elem.
  rewrite Forall_forall in Hall. by apply Hall.
Qed.

Lemma row_company_phones json_loads row :
  Forall (fun p => 9 ≤ String.length p ∧ str_forall isdigit p = true)
         (ic_phones (row_company json_loads row)).
Proof.
  simpl. apply uniq_keep_order_Forall.
  apply Forall_forall. intros p Hp _. apply list_elem_of_In in Hp.
  apply filter_In in Hp as [Hin Hlen]. apply list_elem_of_In in Hin.
  apply list_elem_of_fmap in Hin as (x & -> & _).
  assert (str_forall isdigit (normalize_phone (Some x)) = true) as Hd.
  { rewrite normalize_phone_digits. apply str_filter_forall. }
  rewrite (digits_no_space _ Hd). split; [by apply Nat.leb_le|done].
Qed.

Lemma row_company_emails json_loads row :
  Forall (fun e => e ≠ "" ∧ normalize_email (Some e) = e)
         (ic_emails (row_company json_loads row)).
Proof.
  simpl. apply uniq_keep_order_Forall.
  apply Forall_forall. intros e He Hne. apply list_elem_of_In in He.
  apply filter_In in He as [Hin _]. apply list_elem_of_In in Hin.
  apply list_elem_of_fmap in Hin as (x & -> & _).
  assert (strip (normalize_email (Some x)) = normalize_email (Some x)) as Hs.
  { unfold normalize_email, casefold. simpl. by rewrite strip_lower, strip_idem. }
  rewrite Hs in *. split; [done|]. apply normalize_email_idem.
Qed.

(** *** ASCII text stays ASCII *)

Lemma ascii_char_lower_char c : ascii_char c = true → ascii_char (lower_char c) = true.
Proof. destruct c as [[] [] [] [] [] [] [] []]; by vm_compute. Qed.

Lemma ascii_text_app a b : ascii_text (a +:+ b) = ascii_text a && ascii_text b.
Proof.
  unfold ascii_text. induction a as [|c a IH]; [done|]. simpl.
  by rewrite IH, andb_assoc.
Qed.

Lemma ascii_text_lstrip s : ascii_text s = true → ascii_text (lstrip s) = true.
Proof.
  unfold ascii_text. induction s as [|c r IH]; [done|]. simpl.
  destruct (isspace c); [|done]. intros [_ ?]%andb_true_iff. by apply IH.
Qed.

Lemma ascii_text_rstrip s : ascii_text s = true → ascii_text (rstrip s) = true.
Proof.
  unfold ascii_text. induction s as [|c r IH]; [done|]. simpl.
  intros [Hc Hr]%andb_true_iff.
  destruct (isspace c && is_empty (rstrip r)); [done|]. simpl.
  by rewrite Hc, IH.
Qed.

Lemma ascii_text_strip s : ascii_text s = true → ascii_text (strip s) = true.
Proof. intros H. by apply ascii_text_rstrip, ascii_text_lstrip. Qed.

Lemma ascii_text_lower s : ascii_text s = true → ascii_text (lower s) = true.
Proof.
  unfold ascii_text, lower. induction s as [|c r IH]; [done|]. simpl.
  intros [Hc Hr]%andb_true_iff. by rewrite ascii_char_lower_char, IH.
Qed.

Lemma ascii_text_filter p s : ascii_text s = true → ascii_text (str_filter p s) = true.
Proof.
  unfold ascii_text. induction s as [|c r IH]; [done|]. simpl.
  intros [Hc Hr]%andb_true_iff. destruct (p c); [|by apply IH]. simpl.
  by rewrite Hc, IH.
Qed.

Lemma ascii_text_sub_ws_runs_go b s :
  ascii_text s = true → ascii_text (sub_ws_runs_go b s) = true.
Proof.
  unfold ascii_text. revert b. induction s as [|c r IH]; intros b; [done|]. simpl.
  intros [Hc Hr]%andb_true_iff.
  destruct (isspace c); [destruct b|]; simpl; rewrite ?Hc; by apply IH.
Qed.

Lemma ascii_text_norm_space s :
  ascii_text s = true → ascii_text (norm_space (Some s)) = true.
Proof. intros H. by apply ascii_text_sub_ws_runs_go, ascii_text_strip. Qed.

Lemma ascii_text_uniq_keep_order (values : list string) :
  forallb ascii_text values = true → forallb ascii_text (uniq_keep_order values) = true.
Proof.
  rewrite !forallb_forall. intros Hall y Hy. apply list_elem_of_In in Hy.
  apply uniq_keep_order_elem in Hy as (_ & v & Hv & ->).
  apply ascii_text_strip, Hall. by apply list_elem_of_In.
Qed.

Lemma ascii_text_normalize_websites (values : list string) :
  forallb ascii_text values = true →
  forallb ascii_text (normalize_websites values) = true.
Proof.
  rewrite !forallb_forall. intros Hall y Hy. apply list_elem_of_In in Hy.
  apply website_entry_elem in Hy as (v & Hv & Hy).
  assert (ascii_text (strip v) = true) as Hs.
  { apply ascii_text_strip, Hall. by apply list_elem_of_In. }
  unfold website_entry in Hy.
  destruct (is_empty (strip v)); [done|].
  destruct (startswith _ _ || startswith _ _); [done|].
  destruct (match_http_scheme (strip v)); injection Hy as <-; [done|].
  by rewrite ascii_text_app, Hs.
Qed.

Lemma row_company_ascii json_loads row :
  row_ascii json_loads row = true → company_ascii (row_company json_loads row) = true.
Proof.
  unfold row_ascii, company_ascii. rewrite !andb_true_iff.
  intros (((((((((Hsub & Hname) & Haddr) & Hunp) & _) & _) & _) & Hp) & He) & Hw).
  cbn [row_company ic_subdomain ic_name ic_address ic_unp ic_phones ic_emails ic_websites].
  repeat split.
  - by apply ascii_text_strip.
  - by apply ascii_text_norm_space.
  - by apply ascii_text_norm_space.
  - unfold normalize_unp. rewrite join_findall_digits. by apply ascii_text_filter.
  - apply ascii_text_uniq_keep_order, forallb_forall. intros p Hin.
    apply filter_In in Hin as [Hin _]. apply in_map_iff in Hin as (x & <- & Hx).
    unfold normalize_phone. rewrite join_findall_digits. apply ascii_text_filter.
    by apply (proj1 (forallb_forall _ _) Hp).
  - apply ascii_text_uniq_keep_order, forallb_forall. intros e Hin.
    apply filter_In in Hin as [Hin _]. apply in_map_iff in Hin as (x & <- & Hx).
    unfold normalize_email, casefold. apply ascii_text_lower, ascii_text_strip.
    by apply (proj1 (forallb_forall _ _) He).
  - by apply ascii_text_normalize_websites.
Qed.

Lemma load_ibiz_companies_ascii json_loads rows :
  Forall (fun row => row_ascii json_loads row = true) rows →
  table_ascii (load_ibiz_companies json_loads rows).
Proof.
  intros Hrows sub c (row & Hin & _ & _ & ->)%load_lookup_row.
  apply row_company_ascii. rewrite Forall_forall in Hrows. by apply Hrows.
Qed.

(** X16. On ASCII text, where a byte is a character and the character
    classes of the model are Python's. Every record of the table
    [load_ibiz_companies] builds from rows of ASCII text is filed under
    its own identifier, which is stripped and not empty, and holds
    normalised fields: a non-empty website list that [normalize_websites]
    leaves as it is, phones that are strings of at least nine digits,
    e-mails that are non-empty and in normal form, a tax id of digits only,
    a name and an address that [norm_space] leaves as they are; no phone and
    no e-mail is listed twice. The record is of ASCII text again. *)
Theorem load_ibiz_companies_invariant (json_loads : string → option json)
    (rows : list IbizRow) (sub : string) (c : IbizCompany) :
  Forall (fun row => row_ascii json_loads row = true) rows →
  load_ibiz_companies json_loads rows !! sub = Some c →
  ic_subdomain c = sub ∧ sub ≠ "" ∧ strip sub = sub ∧
  ic_websites c ≠ [] ∧ normalize_websites (ic_websites c) = ic_websites c ∧
  NoDup (ic_phones c) ∧
  Forall (fun p => 9 ≤ String.length p ∧ str_forall isdigit p = true) (ic_phones c) ∧
  NoDup (ic_emails c) ∧
  Forall (fun e => e ≠ "" ∧ normalize_email (Some e) = e) (ic_emails c) ∧
  str_forall isdigit (ic_unp c) = true ∧
  norm_space (Some (ic_name c)) = ic_name c ∧
  norm_space (Some (ic_address c)) = ic_address c ∧
  company_ascii c = true.
Proof.
  intros Hrows Hc.
  assert (company_ascii c = true) as Hascii
    by exact (load_ibiz_companies_ascii _ _ Hrows _ _ Hc).
  revert Hascii Hc. intros Hascii (row & _ & Hadm & <- & ->)%load_lookup_row.
  unfold row_admitted in Hadm. apply andb_true_iff in Hadm as [Hkey Hws].
  split; [done|]. split; [by apply is_empty_false, negb_true_iff|].
  split; [apply strip_idem|]. split.
  { simpl. by destruct (normalize_websites _). }
  split; [apply normalize_websites_idem|].
  split; [apply uniq_keep_order_NoDup|]. split; [apply row_company_phones|].
  split; [apply uniq_keep_order_NoDup|]. split; [apply row_company_emails|].
  split.
  { simpl. unfold normalize_unp. rewrite join_findall_digits. apply str_filter_forall. }
  split; [apply norm_space_idem|]. split; [apply norm_space_idem|]. exact Hascii.
Qed.

(** *** The four indexes *)

Lemma elem_of_index_add_all (keys : list string) sub index key sub' :
  sub' ∈ default ∅ (foldl (fun ix k => index_add k sub ix) index keys !! key) ↔
  (sub' = sub ∧ key ∈ keys) ∨ sub' ∈ default ∅ (index !! key).
Proof.
  revert index. induction keys as [|k keys IH]; intros index; simpl.
  { split; [by right|]. intros [[_ H]|H]; [by apply elem_of_nil in H|done]. }
  rewrite IH, elem_of_index_add, elem_of_cons. split.
  - intros [[-> ?]|[[-> ->]|?]]; [left|left|right]; auto.
  - intros [[-> [->|?]]|?]; [right; left|left|right; right]; auto.
Qed.

Lemma no_empty_bucket_add key sub index :
  no_empty_bucket index → no_empty_bucket (index_add key sub index).
Proof.
  intros Hix k ids. unfold index_add.
  destruct (decide (key = k)) as [->|Hne].
  - rewrite lookup_insert_eq. intros [= <-] Hempty.
    apply (not_elem_of_empty (C:=gset string) sub). rewrite <- Hempty.
    apply elem_of_union_l, elem_of_singleton. done.
  - rewrite lookup_insert_ne by done. apply Hix.
Qed.

Lemma no_empty_bucket_add_all (keys : list string) sub index :
  no_empty_bucket index →
  no_empty_bucket (foldl (fun ix k => index_add k sub ix) index keys).
Proof.
  revert index. induction keys as [|k keys IH]; intros index Hix; [done|].
  simpl. by apply IH, no_empty_bucket_add.
Qed.

Lemma no_empty_bucket_empty : no_empty_bucket ∅.
Proof. intros k ids. by rewrite lookup_empty. Qed.

Lemma lookup_insert_fresh_Some {V} (m : gmap string V) i x sub (P : V → Prop) :
  m !! i = None →
  (∃ c, <[i:=x]> m !! sub = Some c ∧ P c) ↔ (sub = i ∧ P x) ∨ ∃ c, m !! sub = Some c ∧ P c.
Proof.
  intros Hfresh. destruct (decide (i = sub)) as [->|Hne].
  - rewrite lookup_insert_eq. split.
    + intros (c & [= <-] & ?). by left.
    + intros [[_ ?]|(c & Hc & _)]; [by exists x|congruence].
  - rewrite lookup_insert_ne by done. split.
    + intros ?. by right.
    + intros [[-> _]|?]; done.
Qed.

Lemma build_ibiz_indexes_elem (companies : gmap string IbizCompany) :
  let ix := build_ibiz_indexes companies in
  (∀ key sub,
     (sub ∈ default ∅ (by_phone ix !! key) ↔
        ∃ c, companies !! sub = Some c ∧ key ∈ ic_phones c) ∧
     (sub ∈ default ∅ (by_email ix !! key) ↔
        ∃ c, companies !! sub = Some c ∧ key ∈ ic_emails c) ∧
     (sub ∈ default ∅ (by_unp ix !! key) ↔
        ∃ c, companies !! sub = Some c ∧ (ic_unp c = key ∧ 6 ≤ String.length key)) ∧
     (sub ∈ default ∅ (by_name_addr ix !! key) ↔
        ∃ c, companies !! sub = Some c ∧
             (name_addr_key (ic_name c) (ic_address c) = key ∧ key ≠ "||"))) ∧
  no_empty_bucket (by_phone ix) ∧ no_empty_bucket (by_email ix) ∧
  no_empty_bucket (by_unp ix) ∧ no_empty_bucket (by_name_addr ix).
Proof.
  cbn zeta. unfold build_ibiz_indexes.
  apply (map_fold_weak_ind
    (fun ix (m : gmap string IbizCompany) =>
       (∀ key sub,
          (sub ∈ default ∅ (by_phone ix !! key) ↔
             ∃ c, m !! sub = Some c ∧ key ∈ ic_phones c) ∧
          (sub ∈ default ∅ (by_email ix !! key) ↔
             ∃ c, m !! sub = Some c ∧ key ∈ ic_emails c) ∧
          (sub ∈ default ∅ (by_unp ix !! key) ↔
             ∃ c, m !! sub = Some c ∧ (ic_unp c = key ∧ 6 ≤ String.length key)) ∧
          (sub ∈ default ∅ (by_name_addr ix !! key) ↔
             ∃ c, m !! sub = Some c ∧
                  (name_addr_key (ic_name c) (ic_address c) = key ∧ key ≠ "||"))) ∧
       no_empty_bucket (by_phone ix) ∧ no_empty_bucket (by_email ix) ∧
       no_empty_bucket (by_unp ix) ∧ no_empty_bucket (by_name_addr ix))).
  { split.
    - intros key sub. simpl. rewrite !lookup_empty. simpl.
      repeat split; try (intros H; by apply not_elem_of_empty in H);
        intros (c & ? & _); done.
    - simpl. repeat split; apply no_empty_bucket_empty. }
  intros i x m r Hfresh (IH & Hp & He & Hu & Hn). split.
  - intros key sub. destruct (IH key sub) as (IHp & IHe & IHu & IHn).
    unfold index_company; simpl.
    rewrite !(lookup_insert_fresh_Some m i x sub) by done.
    split; [|split; [|split]].
    + rewrite elem_of_index_add_all, IHp. done.
    + rewrite elem_of_index_add_all, IHe. done.
    + destruct (decide (6 ≤ String.length (ic_unp x))) as [Hlen|Hlen].
      * rewrite elem_of_index_add, IHu. split.
        -- intros [[-> ->]|?]; [left|right]; auto.
        -- intros [[-> [<- ?]]|?]; [left|right]; auto.
      * rewrite IHu. split; [by right|].
        intros [[_ [<- ?]]|?]; [lia|done].
    + destruct (decide (name_addr_key (ic_name x) (ic_address x) ≠ "||")) as [Hk|Hk].
      * rewrite elem_of_index_add, IHn. split.
        -- intros [[-> ->]|?]; [left|right]; auto.
        -- intros [[-> [<- ?]]|?]; [left|right]; auto.
      * rewrite IHn. split; [by right|].
        intros [[_ [<- ?]]|?]; [done|done].
  - unfold index_company; simpl. repeat split.
    + by apply no_empty_bucket_add_all.
    + by apply no_empty_bucket_add_all.
    + destruct (decide _); [by apply no_empty_bucket_add|done].
    + destruct (decide _); [by apply no_empty_bucket_add|done].
Qed.

(** X17. On ASCII text, where a byte is a character and the folding of
    the model is Python's. The indexes of a table of ASCII text are
    exact: an identifier is filed under a phone or an e-mail exactly when
    its record lists it, under a tax id exactly when that is the record's
    and has at least six characters, under a name and address key exactly
    when that is the record's and not the blank key. No key of an index
    holds the empty set. *)
Theorem build_ibiz_indexes_exact (companies : gmap string IbizCompany) (key sub : string) :
  table_ascii companies →
  (sub ∈ default ∅ (by_phone (build_ibiz_indexes companies) !! key) ↔
     ∃ c, companies !! sub = Some c ∧ key ∈ ic_phones c) ∧
  (sub ∈ default ∅ (by_email (build_ibiz_indexes companies) !! key) ↔
     ∃ c, companies !! sub = Some c ∧ key ∈ ic_emails c) ∧
  (sub ∈ default ∅ (by_unp (build_ibiz_indexes companies) !! key) ↔
     ∃ c, companies !! sub = Some c ∧ ic_unp c = key ∧ 6 ≤ String.length key) ∧
  (sub ∈ default ∅ (by_name_addr (build_ibiz_indexes companies) !! key) ↔
     ∃ c, companies !! sub = Some c ∧
          name_addr_key (ic_name c) (ic_address c) = key ∧ key ≠ "||") ∧
  (∀ ids,
     by_phone (build_ibiz_indexes companies) !! key = Some ids ∨
     by_email (build_ibiz_indexes companies) !! key = Some ids ∨
     by_unp (build_ibiz_indexes companies) !! key = Some ids ∨
     by_name_addr (build_ibiz_indexes companies) !! key = Some ids → ids ≠ ∅).
Proof.
  intros _.
  destruct (build_ibiz_indexes_elem companies) as (Hix & Hp & He & Hu & Hn).
  destruct (Hix key sub) as (H1 & H2 & H3 & H4).
  do 4 (split; [done|]).
  intros ids [H|[H|[H|H]]]; [by eapply Hp|by eapply He|by eapply Hu|by eapply Hn].
Qed.

(** *** The evidence [collect_candidates] gathers *)

Lemma elem_of_add_evidence tag subdomain candidates sub tg :
  tg ∈ default ∅ (add_evidence tag subdomain candidates !! sub) ↔
  (sub = subdomain ∧ tg = tag) ∨ tg ∈ default ∅ (candidates !! sub).
Proof. apply (elem_of_index_add subdomain tag candidates sub tg). Qed.

Lemma no_empty_bucket_add_evidence tag subdomain candidates :
  no_empty_bucket candidates → no_empty_bucket (add_evidence tag subdomain candidates).
Proof. apply (no_empty_bucket_add subdomain tag candidates). Qed.

Lemma add_hits_spec tag key index candidates :
  (∀ sub tg,
     tg ∈ default ∅ (add_hits tag key index candidates !! sub) ↔
     (tg = tag ∧ sub ∈ default ∅ (index !! key)) ∨ tg ∈ default ∅ (candidates !! sub)) ∧
  (no_empty_bucket candidates → no_empty_bucket (add_hits tag key index candidates)).
Proof.
  unfold add_hits. generalize (default ∅ (index !! key)). intros hits.
  apply (set_fold_ind_L
    (fun r (X : gset string) =>
       (∀ sub tg, tg ∈ default ∅ (r !! sub) ↔
                  (tg = tag ∧ sub ∈ X) ∨ tg ∈ default ∅ (candidates !! sub)) ∧
       (no_empty_bucket candidates → no_empty_bucket r))).
  - split; [|done]. intros sub tg. split; [by right|].
    intros [[_ H]|H]; [by apply not_elem_of_empty in H|done].
  - intros x X r Hfresh [IH Hne]. split.
    + intros sub tg. rewrite elem_of_add_evidence, IH, elem_of_union, elem_of_singleton.
      split.
      * intros [[-> ->]|[[-> ?]|?]]; [left|left|right]; auto.
      * intros [[-> [->|?]]|?]; [left|right; left|right; right]; auto.
    + intros H. by apply no_empty_bucket_add_evidence, Hne.
Qed.

Lemma foldl_hits_spec {A} (f : gmap string (gset string) → A → gmap string (gset string))
    (Q : A → Prop) (key : A → string) tag index :
  (∀ c x, (¬ Q x ∧ f c x = c) ∨ (Q x ∧ f c x = add_hits tag (key x) index c)) →
  ∀ xs candidates,
    (∀ sub tg,
       tg ∈ default ∅ (foldl f candidates xs !! sub) ↔
       (tg = tag ∧ ∃ x, x ∈ xs ∧ Q x ∧ sub ∈ default ∅ (index !! key x))
       ∨ tg ∈ default ∅ (candidates !! sub)) ∧
    (no_empty_bucket candidates → no_empty_bucket (foldl f candidates xs)).
Proof.
  intros Hf xs. induction xs as [|x xs IH]; intros candidates.
  { split; [|done]. intros sub tg. simpl. split; [by right|].
    intros [[_ (x & H & _)]|H]; [by apply elem_of_nil in H|done]. }
  simpl. destruct (IH (f candidates x)) as [IHe IHn]. split.
  - intros sub tg. rewrite IHe.
    destruct (Hf candidates x) as [[HQ ->]|[HQ ->]].
    + split.
      * intros [[-> (y & Hy & ? & ?)]|?]; [left|by right].
        split; [done|]. exists y. split; [by right|done].
      * intros [[-> (y & Hy & ? & ?)]|?]; [|by right].
        apply elem_of_cons in Hy as [->|Hy]; [done|].
        left. split; [done|]. by exists y.
    + rewrite (proj1 (add_hits_spec tag (key x) index candidates)). split.
      * intros [[-> (y & Hy & ? & ?)]|[[-> ?]|?]]; [left|left|by right].
        -- split; [done|]. exists y. split; [by right|done].
        -- split; [done|]. exists x. split; [by left|done].
      * intros [[-> (y & Hy & ? & ?)]|?]; [|by right; right].
        apply elem_of_cons in Hy as [->|Hy]; [right; left; done|].
        left. split; [done|]. by exists y.
  - intros H. apply IHn.
    destruct (Hf candidates x) as [[_ ->]|[_ ->]]; [done|].
    by apply add_hits_spec.
Qed.

(** X18. On ASCII text, where a byte is a character and the character
    classes and the folding of the model are Python's. For a table and a
    row of ASCII text, the candidate mapping [collect_candidates] returns,
    over the indexes of the table, holds exactly the records of the table
    that share an identity signal with the row, each with exactly the tags
    of the signals it shares: the row's identifier when it is the record's key; a
    phone of the row with at least nine digits that the record lists; an
    e-mail of the row that is not blank and that the record lists; the tax
    id of the row when it is the record's and has at least six characters;
    the name and address key when it is the record's and not blank. A key
    of the mapping always carries a tag. *)
Theorem collect_candidates_evidence (table : gmap string IbizCompany)
    (company : json) (candidates : gmap string (gset string)) :
  table_ascii table → json_ascii company = true →
  collect_candidates company table (build_ibiz_indexes table) = Ok candidates →
  ∃ source_id phones emails unp_raw name address,
    row_source_id company = Ok source_id ∧
    (v ← py_get company "phones"; py_iter (py_or v (JArr []))) = Ok phones ∧
    (v ← py_get company "emails"; py_iter (py_or v (JArr []))) = Ok emails ∧
    field_str company "unp" = Ok unp_raw ∧
    field_str company "name" = Ok name ∧ field_str company "address" = Ok address ∧
    (∀ sub, is_Some (candidates !! sub) ↔ ∃ tag, tag ∈ default ∅ (candidates !! sub)) ∧
    (∀ sub tag,
       tag ∈ default ∅ (candidates !! sub) ↔
       ∃ c, table !! sub = Some c ∧
         ((tag = "direct_source_id" ∧ sub = source_id ∧ source_id ≠ "") ∨
          (tag = "phone" ∧ ∃ raw, raw ∈ phones ∧
             9 ≤ String.length (normalize_phone (Some (py_str raw))) ∧
             normalize_phone (Some (py_str raw)) ∈ ic_phones c) ∨
          (tag = "email" ∧ ∃ raw, raw ∈ emails ∧
             normalize_email (Some (py_str raw)) ≠ "" ∧
             normalize_email (Some (py_str raw)) ∈ ic_emails c) ∨
          (tag = "unp" ∧ 6 ≤ String.length (ic_unp c) ∧
             ic_unp c = normalize_unp (Some unp_raw)) ∨
          (tag = "name_addr" ∧ name_addr_key name address ≠ "||" ∧
             name_addr_key (ic_name c) (ic_address c) = name_addr_key name address))).
Proof.
  intros _ _.
  destruct (build_ibiz_indexes_elem table) as (Hix & _). cbn zeta in Hix.
  unfold collect_candidates.
  destruct (row_source_id company) as [source_id|]; [|done].
  cbn [mbind result_bind].
  destruct (py_get company "phones") as [phones_v|]; [|done].
  cbn [mbind result_bind].
  destruct (py_iter (py_or phones_v (JArr []))) as [phones|]; [|done].
  cbn [mbind result_bind].
  destruct (py_get company "emails") as [emails_v|]; [|done].
  cbn [mbind result_bind].
  destruct (py_iter (py_or emails_v (JArr []))) as [emails|]; [|done].
  cbn [mbind result_bind].
  destruct (field_str company "unp") as [unp_raw|]; [|done].
  cbn [mbind result_bind].
  destruct (field_str company "name") as [name|]; [|done].
  cbn [mbind result_bind].
  destruct (field_str company "address") as [address|]; [|done].
  cbn [mbind result_bind].
  intros [= <-].
  exists source_id, phones, emails, unp_raw, name, address.
  do 6 (split; [done|]).
  set (ix := build_ibiz_indexes table) in *.
  set (c0 := if negb (is_empty source_id) && bool_decide (is_Some (table !! source_id))
             then add_evidence "direct_source_id" source_id ∅
             else (∅ : gmap string (gset string))).
  set (fp := fun (candidates : gmap string (gset string)) (raw_phone : json) =>
               if decide (String.length (normalize_phone (Some (py_str raw_phone))) < 9)
               then candidates
               else add_hits "phone" (normalize_phone (Some (py_str raw_phone)))
                      (by_phone ix) candidates).
  set (fe := fun (candidates : gmap string (gset string)) (raw_email : json) =>
               if is_empty (normalize_email (Some (py_str raw_email)))
               then candidates
               else add_hits "email" (normalize_email (Some (py_str raw_email)))
                      (by_email ix) candidates).
  set (c1 := foldl fp c0 phones). set (c2 := foldl fe c1 emails).
  set (c3 := if decide (6 ≤ String.length (normalize_unp (Some unp_raw)))
             then add_hits "unp" (normalize_unp (Some unp_raw)) (by_unp ix) c2 else c2).
  set (key := name_addr_key name address).
  (* the stages, one after the other *)
  assert ((∀ sub tg, tg ∈ default ∅ (c0 !! sub) ↔
             tg = "direct_source_id" ∧ sub = source_id ∧ source_id ≠ "" ∧
             is_Some (table !! sub)) ∧ no_empty_bucket c0) as [H0 N0].
  { unfold c0. destruct (negb (is_empty source_id)) eqn:Hsid; simpl.
    - apply negb_true_iff, is_empty_false in Hsid.
      destruct (bool_decide (is_Some (table !! source_id))) eqn:Hin.
      + apply bool_decide_eq_true_1 in Hin. split.
        * intros sub tg. rewrite elem_of_add_evidence, lookup_empty. simpl. split.
          -- intros [[-> ->]|H]; [done|by apply not_elem_of_empty in H].
          -- intros (-> & -> & _). by left.
        * apply no_empty_bucket_add_evidence, no_empty_bucket_empty.
      + apply bool_decide_eq_false_1 in Hin. split; [|apply no_empty_bucket_empty].
        intros sub tg. rewrite lookup_empty. simpl. split.
        * intros H. by apply not_elem_of_empty in H.
        * intros (_ & -> & _ & ?). done.
    - apply negb_false_iff, is_empty_true in Hsid. split; [|apply no_empty_bucket_empty].
      intros sub tg. rewrite lookup_empty. simpl. split.
      + intros H. by apply not_elem_of_empty in H.
      + intros (_ & _ & ? & _). done. }
  destruct (foldl_hits_spec fp
              (fun raw => 9 ≤ String.length (normalize_phone (Some (py_str raw))))
              (fun raw => normalize_phone (Some (py_str raw))) "phone" (by_phone ix))
    with (xs := phones) (candidates := c0) as [H1 N1].
  { intros c x. unfold fp. cbn beta.
    destruct (decide (String.length (normalize_phone (Some (py_str x))) < 9));
      [left|right]; (split; [lia|done]). }
  fold c1 in H1, N1.
  destruct (foldl_hits_spec fe
              (fun raw => normalize_email (Some (py_str raw)) ≠ "")
              (fun raw => normalize_email (Some (py_str raw))) "email" (by_email ix))
    with (xs := emails) (candidates := c1) as [H2 N2].
  { intros c x. unfold fe.
    destruct (is_empty (normalize_email (Some (py_str x)))) eqn:E; [left|right];
      (split; [|done]); cbn beta.
    - apply is_empty_true in E. intros H. by apply H.
    - by apply is_empty_false. }
  fold c2 in H2, N2.
  assert ((∀ sub tg, tg ∈ default ∅ (c3 !! sub) ↔
             (tg = "unp" ∧ 6 ≤ String.length (normalize_unp (Some unp_raw)) ∧
              sub ∈ default ∅ (by_unp ix !! normalize_unp (Some unp_raw)))
             ∨ tg ∈ default ∅ (c2 !! sub)) ∧
          (no_empty_bucket c2 → no_empty_bucket c3)) as [H3 N3].
  { unfold c3.
    destruct (decide (6 ≤ String.length (normalize_unp (Some unp_raw)))) as [Hlen|Hlen].
    - split; [|apply (proj2 (add_hits_spec _ _ _ _))]. intros sub tg.
      rewrite (proj1 (add_hits_spec _ _ _ _)). split.
      + intros [[-> ?]|?]; [left|right]; auto.
      + intros [(-> & _ & ?)|?]; [left|right]; auto.
    - split; [|done]. intros sub tg. split; [by right|].
      intros [(_ & ? & _)|?]; done. }
  set (c4 := if decide (key ≠ "||")
             then add_hits "name_addr" key (by_name_addr ix) c3 else c3).
  assert ((∀ sub tg, tg ∈ default ∅ (c4 !! sub) ↔
             (tg = "name_addr" ∧ key ≠ "||" ∧ sub ∈ default ∅ (by_name_addr ix !! key))
             ∨ tg ∈ default ∅ (c3 !! sub)) ∧
          (no_empty_bucket c3 → no_empty_bucket c4)) as [H4 N4].
  { unfold c4. destruct (decide (key ≠ "||")) as [Hk|Hk].
    - split; [|apply (proj2 (add_hits_spec _ _ _ _))]. intros sub tg.
      rewrite (proj1 (add_hits_spec _ _ _ _)). split.
      + intros [[-> ?]|?]; [left|right]; auto.
      + intros [(-> & _ & ?)|?]; [left|right]; auto.
    - split; [|done]. intros sub tg. split; [by right|].
      intros [(_ & ? & _)|?]; done. }
  split.
  - intros sub. split.
    + intros [ev Hev]. rewrite Hev. simpl.
      assert (ev ≠ ∅) as Hne by (eapply N4, Hev; auto).
      apply set_choose_L in Hne as [tag Htag]. by exists tag.
    + intros (tag & Htag). destruct (c4 !! sub) as [ev|]; [by eexists|].
      simpl in Htag. by apply not_elem_of_empty in Htag.
  - intros sub tag. rewrite H4, H3, H2, H1, H0.
    destruct (Hix key sub) as (_ & _ & _ & Hn).
    destruct (Hix (normalize_unp (Some unp_raw)) sub) as (_ & _ & Hu & _).
    rewrite Hn, Hu. split.
    + intros [(-> & Hk & c & Hc & Hkey & _)
             |[(-> & Hlen & c & Hc & Hunp & _)
              |[(-> & raw & Hraw & Hne & Hin)
               |[(-> & raw & Hraw & Hlen & Hin)
                |(-> & -> & Hne & [c Hc])]]]].
      * exists c. split; [done|]. do 4 right. done.
      * exists c. split; [done|]. do 3 right. left.
        split; [done|]. rewrite Hunp. done.
      * destruct (Hix (normalize_email (Some (py_str raw))) sub) as (_ & He & _).
        apply He in Hin as (c & Hc & Hin).
        exists c. split; [done|]. do 2 right. left. split; [done|]. by exists raw.
      * destruct (Hix (normalize_phone (Some (py_str raw))) sub) as (Hp & _).
        apply Hp in Hin as (c & Hc & Hin).
        exists c. split; [done|]. right. left. split; [done|]. by exists raw.
      * exists c. split; [done|]. by left.
    + intros (c & Hc & [(-> & -> & Hne)
                       |[(-> & raw & Hraw & Hlen & Hin)
                        |[(-> & raw & Hraw & Hne & Hin)
                         |[(-> & Hlen & Hunp)
                          |(-> & Hk & Hkey)]]]]).
      * do 4 right. do 3 (split; [done|]). by exists c.
      * do 3 right. left. split; [done|]. exists raw. do 2 (split; [done|]).
        destruct (Hix (normalize_phone (Some (py_str raw))) sub) as (Hp & _).
        apply Hp. by exists c.
      * do 2 right. left. split; [done|]. exists raw. do 2 (split; [done|]).
        destruct (Hix (normalize_email (Some (py_str raw))) sub) as (_ & He & _).
        apply He. by exists c.
      * right. left. split; [done|]. rewrite <- Hunp. split; [done|].
        exists c. split; [done|]. split; done.
      * left. do 2 (split; [done|]). exists c. done.
Qed.

(** *** Which rows make the loops raise *)

Lemma mapM_is_ok {A B} (f : A → result B) (xs : list A) :
  is_ok (mapM f xs) = forallb (fun x => is_ok (f x)) xs.
Proof.
  induction xs as [|x xs IH]; [done|]. cbn [mapM forallb].
  destruct (f x) as [y|e]; [|done]. cbn [mbind result_bind is_ok andb].
  rewrite <- IH. by destruct (mapM f xs).
Qed.

Lemma forallb_ext_in {A} (p q : A → bool) (xs : list A) :
  (∀ x, p x = q x) → forallb p xs = forallb q xs.
Proof. intros H. induction xs as [|x xs IH]; [done|]. simpl. by rewrite H, IH. Qed.

Lemma strip_item_ok raw : is_ok (py_strip (py_or raw (JStr ""))) = str_or_falsy raw.
Proof.
  unfold py_or. destruct raw as [|[]|n|r|s|xs|kvs]; try done.
  - simpl. by destruct (n =? 0)%Z.
  - simpl. by destruct (float_is_zero r).
  - by destruct s.
  - by destruct xs.
  - by destruct kvs.
Qed.

Lemma mapM_strip_chars s :
  is_ok (mapM (fun raw => py_strip (py_or raw (JStr ""))) (chars_of s)) = true.
Proof.
  rewrite mapM_is_ok. induction s as [|c s IH]; [done|]. simpl. by rewrite IH.
Qed.

Lemma mapM_strip_keys (keys : list string) :
  is_ok (mapM (fun raw => py_strip (py_or raw (JStr ""))) (JStr <$> keys)) = true.
Proof. by rewrite mapM_strip_strs. Qed.

Lemma normalize_websites_dyn_ok v :
  is_ok (normalize_websites_dyn (py_or v (JArr []))) = websites_ok v.
Proof.
  assert (∀ items, is_ok (normalize_websites_dyn (JArr items)) = forallb str_or_falsy items)
    as Harr.
  { intros items. unfold normalize_websites_dyn. cbn [py_iter mbind result_bind].
    rewrite <- (forallb_ext_in _ _ items strip_item_ok), <- mapM_is_ok.
    by destruct (mapM _ items). }
  unfold py_or. destruct v as [|[]|n|r|s|xs|kvs]; try done.
  - simpl. by destruct (n =? 0)%Z.
  - simpl. by destruct (float_is_zero r).
  - destruct s as [|c s]; [done|]. cbn [truthy is_empty negb websites_ok iterable_or_falsy].
    unfold normalize_websites_dyn. cbn [py_iter mbind result_bind].
    pose proof (mapM_strip_chars (String c s)) as H.
    by destruct (mapM _ (chars_of (String c s))).
  - destruct xs as [|x xs]; [done|]. apply Harr.
  - destruct kvs as [|kv kvs]; [done|]. cbn [truthy websites_ok iterable_or_falsy].
    unfold normalize_websites_dyn. cbn [py_iter mbind result_bind].
    pose proof (mapM_strip_keys (kv :: kvs).*1) as H.
    by destruct (mapM _ (JStr <$> (kv :: kvs).*1)).
Qed.

Lemma row_source_id_obj kvs : ∃ source_id, row_source_id (JObj kvs) = Ok source_id.
Proof. by eexists. Qed.

Lemma row_websites_ok obj : is_ok (row_websites obj) = row_ok obj.
Proof.
  destruct obj as [| | | | | |kvs]; try done.
  unfold row_websites, row_ok. cbn [py_get mbind result_bind].
  apply normalize_websites_dyn_ok.
Qed.

Lemma row_source_id_ok obj source_id :
  row_source_id obj = Ok source_id → ∃ kvs, obj = JObj kvs.
Proof. destruct obj; try done. by eexists. Qed.

Lemma backfill_row_ok approved table obj :
  is_ok (backfill_row approved table obj) = row_ok obj.
Proof.
  rewrite <- row_websites_ok.
  destruct obj as [| | | | | |kvs]; try done.
  unfold backfill_row.
  destruct (row_source_id_obj kvs) as [source_id ->]. cbn [mbind result_bind].
  destruct (row_websites (JObj kvs)) as [current|e]; [|done].
  cbn [mbind result_bind is_ok].
  destruct (approved !! source_id) as [sub|]; [|done].
  destruct current; [|done].
  destruct (table !! sub) as [cand|]; [|done].
  by destruct (ic_websites cand).
Qed.

Lemma backfill_row_exn approved table obj e :
  backfill_row approved table obj = Raise e → e = AttributeError ∨ e = TypeError.
Proof.
  unfold backfill_row.
  destruct (row_source_id obj) as [source_id|e0] eqn:Hsid.
  2:{ intros [= <-]. destruct obj; try done; left; by injection Hsid as <-. }
  apply row_source_id_ok in Hsid as [kvs ->]. cbn [mbind result_bind].
  destruct (row_websites (JObj kvs)) as [current|e0] eqn:Hws.
  - cbn [mbind result_bind].
    destruct (approved !! source_id) as [sub|]; [|done].
    destruct current; [|done].
    destruct (table !! sub) as [cand|]; [|done].
    by destruct (ic_websites cand).
  - intros [= <-]. unfold row_websites in Hws. cbn [py_get mbind result_bind] in Hws.
    unfold normalize_websites_dyn in Hws.
    destruct (py_iter _) as [items|e1] eqn:Hit.
    + cbn [mbind result_bind] in Hws.
      assert (∀ items e', mapM (fun raw => py_strip (py_or raw (JStr ""))) items = Raise e'
                          → e' = AttributeError) as Hm.
      { clear. intros items. induction items as [|x items IH]; intros e'; [done|].
        cbn [mapM]. destruct (py_strip (py_or x (JStr ""))) as [y|e1] eqn:Hx.
        - cbn [mbind result_bind]. destruct (mapM _ items) as [ys|e2]; [done|].
          intros [= <-]. by apply IH.
        - intros [= <-]. unfold py_strip in Hx.
          destruct (py_or x (JStr "")); try done; by injection Hx as <-. }
      destruct (mapM _ items) as [ys|e2] eqn:Hmap; [done|].
      injection Hws as <-. left. by eapply Hm.
    + injection Hws as <-. right. unfold py_iter in Hit.
      destruct (py_or _ _); try done; by injection Hit as <-.
Qed.

Lemma backfill_rows_ok json_loads approved table file :
  is_ok (backfill_rows json_loads approved table file)
  = forallb row_ok (omap (parse_line json_loads) file).
Proof.
  unfold backfill_rows. rewrite mapM_is_ok.
  apply forallb_ext_in. intros obj. apply backfill_row_ok.
Qed.

(** X19. A turn of the loop of [apply_backfill] raises, before its write,
    exactly on a parsed row that is no object, or holds a [websites] value
    that is a number other than zero or [true], or a list with an item
    that is true and no string; the exception is an [AttributeError] or a
    [TypeError]. So [apply_backfill] raises on every file that holds such
    a row. *)
Theorem backfill_row_raises_iff (json_loads : string → option json)
    (approved : gmap string string) (table : gmap string IbizCompany)
    (file : list string) :
  (∀ obj, is_ok (backfill_row approved table obj) = row_ok obj) ∧
  (∀ obj e, backfill_row approved table obj = Raise e →
            e = AttributeError ∨ e = TypeError) ∧
  (forallb row_ok (omap (parse_line json_loads) file) = false →
   is_ok (apply_backfill json_loads file approved table).2 = false).
Proof.
  split; [apply backfill_row_ok|]. split; [apply backfill_row_exn|].
  rewrite apply_backfill_spec, <- (backfill_rows_ok json_loads approved table file).
  by destruct (backfill_rows _ _ _ _).
Qed.

(** *** Counters *)

Lemma counter_total_empty : counter_total ∅ = 0.
Proof. unfold counter_total. apply map_fold_empty. Qed.

Lemma counter_total_insert (m : gmap string nat) k n :
  m !! k = None → counter_total (<[k:=n]> m) = n + counter_total m.
Proof.
  intros Hk. unfold counter_total. rewrite map_fold_insert_L; [done| |done].
  intros. lia.
Qed.

Lemma counter_total_incr key counter :
  counter_total (counter_incr key counter) = S (counter_total counter).
Proof.
  unfold counter_incr. destruct (counter !! key) as [n|] eqn:Hk; simpl.
  - rewrite <- insert_delete_eq.
    rewrite counter_total_insert by apply lookup_delete_eq.
    rewrite <- (insert_delete_id counter key n Hk) at 2.
    rewrite counter_total_insert by apply lookup_delete_eq. done.
  - by rewrite counter_total_insert.
Qed.

Lemma counter_incr_lookup key counter k :
  default 0 (counter_incr key counter !! k)
  = (if decide (key = k) then 1 else 0) + default 0 (counter !! k).
Proof.
  unfold counter_incr. destruct (decide (key = k)) as [->|Hne].
  - by rewrite lookup_insert_eq.
  - by rewrite lookup_insert_ne.
Qed.

Lemma counter_incr_positive key counter :
  (∀ k, counter !! k ≠ Some 0) → ∀ k, counter_incr key counter !! k ≠ Some 0.
Proof.
  intros H k. unfold counter_incr. destruct (decide (key = k)) as [->|Hne].
  - by rewrite lookup_insert_eq.
  - rewrite lookup_insert_ne by done. apply H.
Qed.

(** *** The first loop of [main] *)

Section ScanFacts.
Variable json_loads : string → option json.
Variables (max_companies : Z) (allow : bool) (table : gmap string IbizCompany).
Variable ix : Indexes.

(** What one turn of the loop does to the counters. *)
Lemma scan_row_step st obj st' :
  scan_row max_companies allow table ix st obj = Ok st' →
  row_ok obj = true ∧
  total_companies st' = S (total_companies st) ∧
  (if websites_missing obj
   then missing_websites_total st' = S (missing_websites_total st) ∧
        source_prefix_counts st'
          = counter_incr (source_prefix (source_id_of obj)) (source_prefix_counts st) ∧
        ((negb (max_companies =? 0)%Z
          && (max_companies <=? Z.of_nat (length (decisions st)))%Z = true ∧
          decisions st' = decisions st) ∨
         (negb (max_companies =? 0)%Z
          && (max_companies <=? Z.of_nat (length (decisions st)))%Z = false ∧
          ∃ candidates name address d,
            collect_candidates obj table ix = Ok candidates ∧
            field_str obj "name" = Ok name ∧ field_str obj "address" = Ok address ∧
            decide_match (source_id_of obj) (norm_space (Some name))
              (norm_space (Some address)) candidates allow = Ok d ∧
            decisions st' = decisions st ++ [d]))
   else missing_websites_total st' = missing_websites_total st ∧
        source_prefix_counts st' = source_prefix_counts st ∧
        decisions st' = decisions st).
Proof.
  unfold scan_row, websites_missing, source_id_of.
  rewrite <- row_websites_ok.
  destruct (row_source_id obj) as [source_id|]; [|done]. cbn [mbind result_bind].
  destruct (row_websites obj) as [[|w ws]|]; [| |done]; cbn [mbind result_bind is_ok].
  2:{ intros [= <-]. simpl. done. }
  destruct (negb (max_companies =? 0)%Z && _) eqn:Hcap.
  { intros [= <-]. simpl. do 4 (split; [done|]). left. done. }
  destruct (collect_candidates obj table ix) as [candidates|]; [|done].
  cbn [mbind result_bind].
  destruct (field_str obj "name") as [name|]; [|done]. cbn [mbind result_bind].
  destruct (field_str obj "address") as [address|]; [|done]. cbn [mbind result_bind].
  destruct (decide_match _ _ _ _ _) as [d|] eqn:Hd; [|done]. cbn [mbind result_bind].
  intros [= <-]. simpl. do 4 (split; [done|]). right. split; [done|].
  by exists candidates, name, address, d.
Qed.



End ScanFacts.


(** *** The decisions of a run and the rows they were made for *)

Lemma decide_match_echo source_id name address candidates allow d :
  decide_match source_id name address candidates allow = Ok d →
  md_source_id d = source_id ∧ md_name d = name ∧ md_address d = address ∧
  md_source_prefix d = source_prefix source_id ∧
  md_evidence_by_candidate d = candidates.
Proof.
  destruct (candidates_cases candidates) as [->|[Hmany|(k & ev & ->)]].
  - by intros [= <-].
  - rewrite decide_match_many by done. by intros [= <-].
  - rewrite decide_match_sole. by intros [= <-].
Qed.

Section ScanDecisions.
Variable json_loads : string → option json.
Variables (max_companies : Z) (allow : bool) (table : gmap string IbizCompany).
Variable ix : Indexes.

Lemma scan_loop_decided lines st st' :
  scan_loop json_loads max_companies allow table ix lines st = Ok st' →
  ∃ new, decisions st' = decisions st ++ new ∧
    Forall (fun d => ∃ obj candidates name address,
              obj ∈ omap (parse_line json_loads) lines ∧
              websites_missing obj = true ∧
              collect_candidates obj table ix = Ok candidates ∧
              decide_match (source_id_of obj) name address candidates allow = Ok d) new.
Proof.
  revert st. induction lines as [|line rest IH]; intros st.
  { intros [= <-]. exists []. by rewrite app_nil_r. }
  cbn [scan_loop omap list_omap].
  destruct (parse_line json_loads line) as [obj|]; [|apply IH].
  destruct (scan_row _ _ _ _ st obj) as [st1|] eqn:Hrow; [|done].
  cbn [mbind result_bind]. intros Hrest.
  apply scan_row_step in Hrow as (_ & _ & Hstep).
  destruct (IH _ Hrest) as (new & Hnew & Hall).
  assert (Forall (fun d => ∃ obj0 candidates name address,
              obj0 ∈ obj :: omap (parse_line json_loads) rest ∧
              websites_missing obj0 = true ∧
              collect_candidates obj0 table ix = Ok candidates ∧
              decide_match (source_id_of obj0) name address candidates allow = Ok d) new)
    as Hall'.
  { eapply Forall_impl; [exact Hall|]. simpl.
    intros d (obj0 & c & nm & ad & Hin & ?). exists obj0, c, nm, ad.
    split; [by right|done]. }
  destruct (websites_missing obj) eqn:Hmiss.
  - destruct Hstep as (_ & _ & [[_ Hdec]|[_ (c & nm & ad & d & Hc & _ & _ & Hd & Hdec)]]).
    + exists new. rewrite Hnew, Hdec. done.
    + exists (d :: new). rewrite Hnew, Hdec, <- app_assoc. split; [done|].
      constructor; [|done].
      exists obj, c, (norm_space (Some nm)), (norm_space (Some ad)).
      split; [by left|done].
  - destruct Hstep as (_ & _ & Hdec). exists new. by rewrite Hnew, Hdec.
Qed.

End ScanDecisions.

Lemma scan_companies_decided json_loads max_companies allow table lines st :
  scan_companies json_loads max_companies allow table lines = Ok st →
  Forall (fun d => ∃ obj candidates,
            obj ∈ omap (parse_line json_loads) lines ∧
            websites_missing obj = true ∧
            collect_candidates obj table (build_ibiz_indexes table) = Ok candidates ∧
            md_source_id d = source_id_of obj ∧
            md_evidence_by_candidate d = candidates) (decisions st).
Proof.
  unfold scan_companies. intros (new & Hnew & Hall)%scan_loop_decided.
  simpl in Hnew. rewrite Hnew.
  eapply Forall_impl; [exact Hall|]. simpl.
  intros d (obj & c & nm & ad & Hin & Hmiss & Hc & Hd).
  apply decide_match_echo in Hd as (? & _ & _ & _ & ?).
  by exists obj, c.
Qed.

(** *** The number of rows the writer updates in a run *)





(** *** The counters of the aggregation loop *)

Lemma counts_snoc ds d :
  counts (aggregate (ds ++ [d])) = counter_incr (md_match_type d) (counts (aggregate ds)).
Proof. by rewrite aggregate_snoc. Qed.

Lemma counter_total_fold_incr {V} (g : V → string) (acc : gmap string nat)
    (m : gmap string V) :
  counter_total (map_fold (fun _ v a => counter_incr (g v) a) acc m)
  = counter_total acc + size m.
Proof.
  apply (map_fold_weak_ind
    (fun r (m' : gmap string V) => counter_total r = counter_total acc + size m')).
  - rewrite map_size_empty. lia.
  - intros i x m' r Hfresh IH.
    rewrite counter_total_incr, IH, map_size_insert_None by done. lia.
Qed.

(** X22. The counters [main] reports. Each [match_type] is counted once per
    decision of that type, and a type without a decision has no entry; the
    counts by type and the counts by identifier class and type both add
    up to the number of decisions; the counts by evidence combination add
    up to the number of candidates over all decisions; the approved map
    has at most one entry per decision that names a candidate. *)
Theorem aggregate_counters (ds : list MatchDecision) :
  (∀ ty, default 0 (counts (aggregate ds) !! ty)
         = length (filter (fun d => md_match_type d = ty) ds)) ∧
  (∀ ty, counts (aggregate ds) !! ty ≠ Some 0) ∧
  counter_total (counts (aggregate ds)) = length ds ∧
  counter_total (by_prefix_and_type (aggregate ds)) = length ds ∧
  counter_total (reason_combo_counts (aggregate ds))
    = sum_list_with (fun d => size (md_evidence_by_candidate d)) ds ∧
  size (auto_matches (aggregate ds))
    ≤ length (filter (fun d => is_Some (md_auto_candidate d)) ds).
Proof.
  induction ds as [|d ds IH] using rev_ind.
  { simpl. rewrite !counter_total_empty, map_size_empty.
    repeat split; try done; intros ty; by rewrite lookup_empty. }
  destruct IH as (IH1 & IH2 & IH3 & IH4 & IH5 & IH6).
  rewrite aggregate_snoc. unfold tally_decision; simpl.
  split; [|split; [|split; [|split; [|split]]]].
  - intros ty. rewrite counter_incr_lookup, IH1, filter_app, length_app, filter_cons.
    destruct (decide (md_match_type d = ty)); simpl; lia.
  - by apply counter_incr_positive.
  - rewrite counter_total_incr, IH3, length_app. simpl. lia.
  - rewrite counter_total_incr, IH4, length_app. simpl. lia.
  - rewrite counter_total_fold_incr, IH5, sum_list_with_app. simpl. lia.
  - rewrite filter_app, length_app.
    destruct (md_auto_candidate d) as [c|] eqn:Hc.
    + rewrite (filter_cons_True _ d) by (rewrite Hc; by eexists). simpl.
      destruct (is_empty c); [lia|].
      rewrite map_size_insert. destruct (_ !! _); simpl; lia.
    + rewrite (filter_cons_False _ d) by (rewrite Hc; by intros [? ?]). simpl. lia.
Qed.

Lemma sorted_elem (xs : list string) x : x ∈ sorted xs ↔ x ∈ xs.
Proof. unfold sorted. by rewrite merge_sort_Permutation. Qed.

Lemma sorted_length (xs : list string) : length (sorted xs) = length xs.
Proof. unfold sorted. by rewrite merge_sort_Permutation. Qed.

Lemma sorted_ascending (xs : list string) : StronglySorted String.le (sorted xs).
Proof. apply StronglySorted_merge_sort; apply _. Qed.

Lemma report_row_spec table d sub ev :
  md_evidence_by_candidate d !! sub = Some ev →
  report_row table d sub
  = Ok (report_line d sub ev
          match table !! sub with
          | Some c => (ic_name c, ic_address c, ic_unp c, join " | " (ic_websites c))
          | None => ("", "", "", "")
          end).
Proof.
  intros Hev. unfold report_row, getitem. rewrite Hev. cbn [mbind result_bind].
  by destruct (table !! sub).
Qed.

Lemma mapM_report_rows table d (keys : list string) :
  Forall (fun sub => is_Some (md_evidence_by_candidate d !! sub)) keys →
  ∃ rs, mapM (report_row table d) keys = Ok rs ∧
        candidate_column <$> rs = keys ∧
        Forall (fun r => ∃ sub ev,
                  md_evidence_by_candidate d !! sub = Some ev ∧
                  r = report_line d sub ev
                        match table !! sub with
                        | Some c => (ic_name c, ic_address c, ic_unp c,
                                     join " | " (ic_websites c))
                        | None => ("", "", "", "")
                        end) rs.
Proof.
  induction 1 as [|sub keys [ev Hev] _ (rs & Hrs & Hcol & Hall)]; [by exists []|].
  eexists. cbn [mapM]. rewrite (report_row_spec _ _ _ _ Hev), Hrs.
  cbn [mbind result_bind]. split; [done|]. split.
  - cbn [fmap list_fmap]. cbn [fmap] in Hcol. by rewrite Hcol.
  - constructor; [|done]. by exists sub, ev.
Qed.

Lemma decision_rows_spec table d :
  ∃ rs, decision_rows table d = Ok rs ∧
        length rs = size (md_evidence_by_candidate d) ∧
        StronglySorted String.le (candidate_column <$> rs) ∧
        Forall (fun r => ∃ sub ev,
                  md_evidence_by_candidate d !! sub = Some ev ∧
                  r = report_line d sub ev
                        match table !! sub with
                        | Some c => (ic_name c, ic_address c, ic_unp c,
                                     join " | " (ic_websites c))
                        | None => ("", "", "", "")
                        end) rs.
Proof.
  unfold decision_rows.
  destruct (decide (md_evidence_by_candidate d = ∅)) as [->|_].
  { exists []. rewrite map_size_empty. repeat split; constructor. }
  destruct (mapM_report_rows table d
              (sorted (map_to_list (md_evidence_by_candidate d)).*1))
    as (rs & Hrs & Hcol & Hall).
  { apply Forall_forall. intros sub [[sub' ev] [-> Hin]]%sorted_elem%list_elem_of_fmap.
    apply elem_of_map_to_list in Hin. by eexists. }
  exists rs. split; [done|]. split; [|split; [|done]].
  - rewrite <- (length_fmap candidate_column), Hcol, sorted_length, length_fmap.
    apply length_map_to_list.
  - rewrite Hcol. apply sorted_ascending.
Qed.

Lemma report_rows_spec table decisions :
  ∃ rows,
    report_rows decisions table = Ok (REPORT_HEADER :: rows) ∧
    length rows = sum_list_with (fun d => size (md_evidence_by_candidate d)) decisions ∧
    Forall (fun r => ∃ d sub ev,
              d ∈ decisions ∧ md_evidence_by_candidate d !! sub = Some ev ∧
              r = report_line d sub ev
                    match table !! sub with
                    | Some c => (ic_name c, ic_address c, ic_unp c,
                                 join " | " (ic_websites c))
                    | None => ("", "", "", "")
                    end) rows.
Proof.
  unfold report_rows.
  induction decisions as [|d ds (rows & Hrows & Hlen & Hall)]; [by exists []|].
  destruct (decision_rows_spec table d) as (rs & Hrs & Hlen' & _ & Hall').
  destruct (mapM (decision_rows table) ds) as [rest|] eqn:Hrest; [|done].
  cbn [mbind result_bind] in Hrows. injection Hrows as <-.
  exists (rs ++ concat rest). cbn [mapM]. rewrite Hrs, Hrest. cbn [mbind result_bind].
  split; [done|]. split.
  - rewrite length_app, Hlen, Hlen'. done.
  - apply Forall_app. split.
    + eapply Forall_impl; [exact Hall'|]. simpl.
      intros r (sub & ev & ? & ?). exists d, sub, ev. split; [by left|done].
    + eapply Forall_impl; [exact Hall|]. simpl.
      intros r (d' & sub & ev & ? & ?). exists d', sub, ev. split; [by right|done].
Qed.

Lemma mapM_report_lines table d (keys : list string) :
  Forall (fun sub => is_Some (md_evidence_by_candidate d !! sub)) keys →
  mapM (report_row table d) keys = Ok (decision_lines table d keys).
Proof.
  induction 1 as [|sub keys [ev Hev] _ IH]; [done|].
  cbn [mapM]. rewrite (report_row_spec _ _ _ _ Hev), IH.
  cbn [mbind result_bind]. unfold decision_lines. cbn [fmap list_fmap].
  unfold candidate_columns. by rewrite Hev.
Qed.

Lemma decision_rows_lines table d :
  decision_rows table d
  = Ok (decision_lines table d (sorted (map_to_list (md_evidence_by_candidate d)).*1)).
Proof.
  unfold decision_rows.
  destruct (decide (md_evidence_by_candidate d = ∅)) as [->|_].
  { by rewrite map_to_list_empty. }
  apply mapM_report_lines.
  apply Forall_forall. intros sub [[sub' ev] [-> Hin]]%sorted_elem%list_elem_of_fmap.
  apply elem_of_map_to_list in Hin. by eexists.
Qed.

Lemma report_rows_lines table decisions :
  report_rows decisions table
  = Ok (REPORT_HEADER ::
        concat ((fun d => decision_lines table d
                            (sorted (map_to_list (md_evidence_by_candidate d)).*1))
                <$> decisions)).
Proof.
  unfold report_rows.
  assert (mapM (decision_rows table) decisions
          = Ok ((fun d => decision_lines table d
                            (sorted (map_to_list (md_evidence_by_candidate d)).*1))
                <$> decisions)) as ->; [|done].
  induction decisions as [|d ds IH]; [done|].
  cbn [mapM]. by rewrite decision_rows_lines, IH.
Qed.

(** X23. The rows [write_report_csv] hands to the csv writer: the header,
    then the rows of the decisions one decision after the other, in the
    order of the decisions. The rows of a decision are what its turn of
    the loop, [decision_rows], gives: one row of eleven columns for each
    of its candidates, in ascending order of the candidate's identifier,
    none for a decision without candidates. A row repeats the decision,
    names the candidate and its evidence tags, sorted and joined by
    commas, and carries the name, address, tax id and websites of the
    candidate's record, or four empty columns when the table holds no
    such record. A report that is written holds the text of these rows,
    in this order. *)
Theorem write_report_csv_rows (decisions : list MatchDecision)
    (ibiz_companies : gmap string IbizCompany) :
  ∃ keys : list (list string),
    Forall2 (fun d ks =>
               ks ≡ₚ (map_to_list (md_evidence_by_candidate d)).*1 ∧
               StronglySorted String.le ks ∧
               decision_rows ibiz_companies d = Ok (decision_lines ibiz_companies d ks))
            decisions keys ∧
    report_rows decisions ibiz_companies
    = Ok (REPORT_HEADER ::
          concat (zip_with (decision_lines ibiz_companies) decisions keys)) ∧
    (∀ csv_writerow text,
       write_report_csv csv_writerow decisions ibiz_companies = Ok text →
       text = csv_writerow <$>
              REPORT_HEADER ::
              concat (zip_with (decision_lines ibiz_companies) decisions keys)) ∧
    Forall (fun r => length r = length REPORT_HEADER)
           (concat (zip_with (decision_lines ibiz_companies) decisions keys)).
Proof.
  exists ((fun d => sorted (map_to_list (md_evidence_by_candidate d)).*1) <$> decisions).
  assert (zip_with (decision_lines ibiz_companies) decisions
            ((fun d => sorted (map_to_list (md_evidence_by_candidate d)).*1) <$> decisions)
          = (fun d => decision_lines ibiz_companies d
                        (sorted (map_to_list (md_evidence_by_candidate d)).*1))
            <$> decisions) as ->.
  { induction decisions as [|d ds IH]; [done|]. cbn [fmap list_fmap zip_with].
    cbn [fmap] in IH. by rewrite IH. }
  split; [|split; [apply report_rows_lines|split]].
  - apply Forall2_fmap_r, Forall_Forall2_diag, Forall_forall. intros d _.
    split; [|split; [apply sorted_ascending|apply decision_rows_lines]].
    unfold sorted. apply merge_sort_Permutation.
  - intros csv_writerow text. unfold write_report_csv. rewrite report_rows_lines.
    cbn [mbind result_bind]. by intros [= <-].
  - apply Forall_concat, Forall_fmap, Forall_forall. intros d _.
    apply Forall_fmap, Forall_forall. by intros sub _.
Qed.

(** *** The report of a run *)

Lemma scan_companies_evidence_within json_loads max_companies allow table lines st :
  scan_companies json_loads max_companies allow table lines = Ok st →
  Forall (fun d => candidates_within table (md_evidence_by_candidate d)) (decisions st).
Proof.
  intros Hscan. apply scan_companies_decided in Hscan.
  eapply Forall_impl; [exact Hscan|]. simpl.
  intros d (obj & c & _ & _ & Hc & _ & ->). by eapply collect_candidates_within.
Qed.

(** X24. In a run of [main] every candidate of every decision is a record of
    the table, so every row of the report carries the candidate's name,
    address, tax id and websites; the branch that writes empty columns for
    an unknown candidate is never taken. *)
Theorem main_report_candidates_known (json_loads : string → option json)
    (max_companies : Z) (allow : bool) (table : gmap string IbizCompany)
    (lines : list string) (st : ScanState) :
  scan_companies json_loads max_companies allow table lines = Ok st →
  ∃ rows,
    report_rows (decisions st) table = Ok (REPORT_HEADER :: rows) ∧
    Forall (fun r => ∃ d sub ev c,
              d ∈ decisions st ∧ md_evidence_by_candidate d !! sub = Some ev ∧
              table !! sub = Some c ∧
              r = report_line d sub ev
                    (ic_name c, ic_address c, ic_unp c, join " | " (ic_websites c)))
           rows.
Proof.
  intros Hscan. apply scan_companies_evidence_within in Hscan.
  rewrite Forall_forall in Hscan.
  destruct (report_rows_spec table (decisions st))
    as (rows & Hrows & _ & Hall).
  exists rows. split; [done|].
  eapply Forall_impl; [exact Hall|]. simpl.
  intros r (d & sub & ev & Hd & Hev & ->).
  destruct (Hscan d Hd sub) as [c Hc]; [by eexists|].
  exists d, sub, ev, c. by rewrite Hc.
Qed.

Lemma sample_lookup_A1 :
  ∃ c, load_ibiz_companies sample_loads [row_A1] !! "A1" = Some c.
Proof. eexists. vm_compute. reflexivity. Qed.

Lemma sample_rows_ascii :
  Forall (fun row => row_ascii sample_loads row = true) [row_A1].
Proof. constructor; [vm_compute; reflexivity | constructor]. Qed.

(** The record the sample table holds under [A1]. *)
Lemma load_ibiz_companies_invariant_witness :
  ∃ c, load_ibiz_companies sample_loads [row_A1] !! "A1" = Some c ∧
       ic_subdomain c = "A1" ∧ "A1" ≠ "" ∧ strip "A1" = "A1" ∧
       ic_websites c ≠ [] ∧ normalize_websites (ic_websites c) = ic_websites c ∧
       NoDup (ic_phones c) ∧
       Forall (fun p => 9 ≤ String.length p ∧ str_forall isdigit p = true) (ic_phones c) ∧
       NoDup (ic_emails c) ∧
       Forall (fun e => e ≠ "" ∧ normalize_email (Some e) = e) (ic_emails c) ∧
       str_forall isdigit (ic_unp c) = true ∧
       norm_space (Some (ic_name c)) = ic_name c ∧
       norm_space (Some (ic_address c)) = ic_address c ∧
       company_ascii c = true.
Proof.
  destruct sample_lookup_A1 as [c Hc]. exists c. split; [exact Hc|].
  exact (load_ibiz_companies_invariant sample_loads [row_A1] "A1" c sample_rows_ascii Hc).
Defined.

Lemma sample_table_ascii : table_ascii sample_table.
Proof. exact (load_ibiz_companies_ascii sample_loads [row_A1] sample_rows_ascii). Qed.

(** The phone index of the sample table. *)
Lemma build_ibiz_indexes_exact_witness :
  "A1" ∈ default ∅ (by_phone (build_ibiz_indexes sample_table) !! "375291234567") ↔
  ∃ c, sample_table !! "A1" = Some c ∧ "375291234567" ∈ ic_phones c.
Proof.
  exact (proj1 (build_ibiz_indexes_exact sample_table "375291234567" "A1"
                  sample_table_ascii)).
Defined.

Lemma sample_candidates :
  ∃ candidates,
    collect_candidates query_record sample_table (build_ibiz_indexes sample_table)
    = Ok candidates.
Proof. eexists. vm_compute. reflexivity. Qed.

(** The candidates of the query record of the scenario in the sample
    table. *)
Lemma collect_candidates_evidence_witness :
  ∃ candidates,
    collect_candidates query_record sample_table (build_ibiz_indexes sample_table)
    = Ok candidates ∧
    ∃ source_id phones emails unp_raw name address,
      row_source_id query_record = Ok source_id ∧
      (v ← py_get query_record "phones"; py_iter (py_or v (JArr []))) = Ok phones ∧
      (v ← py_get query_record "emails"; py_iter (py_or v (JArr []))) = Ok emails ∧
      field_str query_record "unp" = Ok unp_raw ∧
      field_str query_record "name" = Ok name ∧
      field_str query_record "address" = Ok address ∧
      (∀ sub, is_Some (candidates !! sub) ↔ ∃ tag, tag ∈ default ∅ (candidates !! sub)) ∧
      (∀ sub tag,
         tag ∈ default ∅ (candidates !! sub) ↔
         ∃ c, sample_table !! sub = Some c ∧
           ((tag = "direct_source_id" ∧ sub = source_id ∧ source_id ≠ "") ∨
            (tag = "phone" ∧ ∃ raw, raw ∈ phones ∧
               9 ≤ String.length (normalize_phone (Some (py_str raw))) ∧
               normalize_phone (Some (py_str raw)) ∈ ic_phones c) ∨
            (tag = "email" ∧ ∃ raw, raw ∈ emails ∧
               normalize_email (Some (py_str raw)) ≠ "" ∧
               normalize_email (Some (py_str raw)) ∈ ic_emails c) ∨
            (tag = "unp" ∧ 6 ≤ String.length (ic_unp c) ∧
               ic_unp c = normalize_unp (Some unp_raw)) ∨
            (tag = "name_addr" ∧ name_addr_key name address ≠ "||" ∧
               name_addr_key (ic_name c) (ic_address c) = name_addr_key name address))).
Proof.
  destruct sample_candidates as [candidates Hc]. exists candidates.
  split; [exact Hc|].
  exact (collect_candidates_evidence sample_table query_record candidates
           sample_table_ascii eq_refl Hc).
Defined.





(** The report of a run over the two sample records. *)
Lemma main_report_candidates_known_witness :
  ∃ st, scan_companies sample_loads 0 false
          (load_ibiz_companies sample_loads [row_A1]) sample_lines = Ok st ∧
    ∃ rows,
      report_rows (decisions st) (load_ibiz_companies sample_loads [row_A1])
      = Ok (REPORT_HEADER :: rows) ∧
      Forall (fun r => ∃ d sub ev c,
                d ∈ decisions st ∧ md_evidence_by_candidate d !! sub = Some ev ∧
                load_ibiz_companies sample_loads [row_A1] !! sub = Some c ∧
                r = report_line d sub ev
                      (ic_name c, ic_address c, ic_unp c, join " | " (ic_websites c)))
             rows.
Proof.
  destruct sample_scan as (st & Hscan & _). exists st. split; [exact Hscan|].
  exact (main_report_candidates_known sample_loads 0 false _ sample_lines st Hscan).
Defined.

End BackfillFacts.

(** ** Properties of the rewriting script *)
Module RewriteFacts.
Import Py Rewrite Spec.

(** The guard does its work on an ordinary record: the brand in [source]
    and in [source_id] is replaced and no legacy token is written. *)
Lemma final_guard_ordinary (urlparse : string → option (string * string)) :
  ∃ line,
    rewrite_row urlparse
      (JObj [("source", JStr "ibiz"); ("source_id", JStr "IBIZ-12")])
      sample_cfg build_legacy_tokens (compile_tokens build_legacy_tokens) = Ok line ∧
    contains_any_legacy_token line build_legacy_tokens = false.
Proof. eexists. split; vm_compute; reflexivity. Qed.

(** C10 fails on the code. For a company named [iiibiz] the line that
    is written still holds the token [ibiz]: each substitution puts
    [biznesinfo] behind an [i], which spells the token again, and the
    final guard substitutes once more and stops. *)
Theorem final_guard_leaves_token (urlparse : string → option (string * string))
    (cfg : RewriteConfig) :
  rewrite_row urlparse company_iiibiz cfg build_legacy_tokens
    (compile_tokens build_legacy_tokens)
  = Ok (json_dumps "," ":"
          (JObj [("name", JStr "ibiznesinfonesinfo"); ("logo_url", JStr "")])) ∧
  contains_any_legacy_token
    (json_dumps "," ":"
       (JObj [("name", JStr "ibiznesinfonesinfo"); ("logo_url", JStr "")]))
    build_legacy_tokens = true.
Proof. split; vm_compute; reflexivity. Qed.

(** The same through [rewrite_jsonl_file], for a file of that one line. *)
Lemma rewrite_jsonl_file_leaves_token (urlparse : string → option (string * string))
    (cfg : RewriteConfig) :
  ∃ line,
    rewrite_jsonl_file urlparse (loads_of [company_iiibiz])
      [Backfill.dumps_line company_iiibiz] cfg build_legacy_tokens
      (compile_tokens build_legacy_tokens) = Ok [line] ∧
    contains_any_legacy_token line build_legacy_tokens = true.
Proof. eexists. split; vm_compute; reflexivity. Qed.

(** A value that is no object skips [rewrite_company]; the guard alone
    leaves the token as well. *)
Lemma final_guard_leaves_token_in_string (urlparse : string → option (string * string))
    (cfg : RewriteConfig) :
  ∃ line,
    rewrite_row urlparse (JStr "iibiz") cfg build_legacy_tokens
      (compile_tokens build_legacy_tokens) = Ok line ∧
    contains_any_legacy_token line build_legacy_tokens = true.
Proof. eexists. split; vm_compute; reflexivity. Qed.

Import PyFacts.

(** Induction over JSON values, with the items of a list and the values
    of an object as smaller values. *)
Lemma json_nested_ind (P : json → Prop) :
  P JNull → (∀ b, P (JBool b)) → (∀ n, P (JInt n)) → (∀ r, P (JFloat r)) →
  (∀ s, P (JStr s)) →
  (∀ items, Forall P items → P (JArr items)) →
  (∀ kvs, Forall (fun kv => P (snd kv)) kvs → P (JObj kvs)) →
  ∀ v, P v.
Proof.
  intros Hnull Hbool Hint Hfloat Hstr Harr Hobj.
  fix IH 1. intros [|b|n|r|s|items|kvs].
  - exact Hnull.
  - apply Hbool.
  - apply Hint.
  - apply Hfloat.
  - apply Hstr.
  - apply Harr. induction items as [|x items IHitems]; constructor; [apply IH|exact IHitems].
  - apply Hobj. induction kvs as [|[k x] kvs IHkvs]; constructor; [apply IH|exact IHkvs].
Qed.

(** *** Text without a legacy token *)

Lemma str_in_cons sub c r :
  str_in sub (String c r) = String.prefix sub (String c r) || str_in sub r.
Proof. reflexivity. Qed.

Lemma str_in_empty s : str_in "" s = true.
Proof. by destruct s. Qed.

Lemma sub_ci_go_clean tok repl s :
  str_in (lower tok) (lower s) = false → sub_ci_go tok repl 0 s = s.
Proof.
  induction s as [|c r IH]; [done|].
  change (lower (String c r)) with (String (lower_char c) (lower r)).
  rewrite str_in_cons. intros [Hp Hr]%orb_false_iff.
  cbn [sub_ci_go].
  change (lower (String c r)) with (String (lower_char c) (lower r)).
  rewrite Hp. by rewrite IH.
Qed.

Lemma sub_ci_clean tok repl s :
  lower tok = tok → str_in tok (lower s) = false → sub_ci tok repl s = s.
Proof.
  intros Hlow Hin. unfold sub_ci. destruct tok as [|c tok].
  { by rewrite str_in_empty in Hin. }
  cbn [is_empty]. apply sub_ci_go_clean. by rewrite Hlow.
Qed.

Lemma replace_legacy_tokens_id (tokens : list string) (text : string) :
  Forall (fun t => lower t = t) tokens →
  contains_any_legacy_token text tokens = false →
  replace_legacy_tokens text (compile_tokens tokens) = text.
Proof.
  unfold contains_any_legacy_token, replace_legacy_tokens, compile_tokens.
  induction 1 as [|tok tokens Hlow _ IH]; [done|].
  cbn [existsb fmap list_fmap foldl pattern_sub].
  intros [Htok Hrest]%orb_false_iff.
  rewrite sub_ci_clean by done. by apply IH.
Qed.

(** X25. On ASCII text, where [re.IGNORECASE] matches exactly the
    characters [str.lower()] identifies. An ASCII text that holds no
    legacy token, in any case, is returned by [replace_legacy_tokens] as
    it is: there the test [contains_any_legacy_token] that guards every
    call saves work and changes no result. The tokens are lower-case
    ASCII words, as [build_legacy_tokens] gives them. *)
Theorem replace_legacy_tokens_clean (tokens : list string) (text : string) :
  Forall (fun t => ascii_text t = true) tokens →
  ascii_text text = true →
  Forall (fun t => lower t = t) tokens →
  contains_any_legacy_token text tokens = false →
  replace_legacy_tokens text (compile_tokens tokens) = text ∧
  contains_any_legacy_token (lower text) tokens = false ∧
  replace_legacy_tokens (lower text) (compile_tokens tokens) = lower text.
Proof.
  intros _ _ Hlow Hclean.
  assert (contains_any_legacy_token (lower text) tokens = false) as Hclean'.
  { unfold contains_any_legacy_token in *. by rewrite lower_idem. }
  split; [by apply replace_legacy_tokens_id|]. split; [done|].
  by apply replace_legacy_tokens_id.
Qed.

(** *** [deep_rewrite] *)

Lemma deep_rewrite_str tokens s :
  Forall (fun t => lower t = t) tokens →
  deep_rewrite (JStr s) tokens (compile_tokens tokens)
  = JStr (replace_legacy_tokens s (compile_tokens tokens)).
Proof.
  intros Hlow. cbn [deep_rewrite].
  destruct (contains_any_legacy_token s tokens) eqn:Hc; [done|].
  by rewrite replace_legacy_tokens_id.
Qed.

Lemma map_ext_Forall {A B} (f g : A → B) (l : list A) :
  Forall (fun x => f x = g x) l → map f l = map g l.
Proof. induction 1 as [|x l Hx _ IH]; [done|]. simpl. by rewrite Hx, IH. Qed.

Lemma deep_rewrite_map_strings tokens obj :
  Forall (fun t => lower t = t) tokens →
  deep_rewrite obj tokens (compile_tokens tokens)
  = map_strings (fun s => replace_legacy_tokens s (compile_tokens tokens)) obj.
Proof.
  intros Hlow. induction obj as [|b|n|r|s|items IH|kvs IH] using json_nested_ind;
    try done.
  - by apply deep_rewrite_str.
  - cbn [deep_rewrite map_strings]. f_equal. by apply map_ext_Forall.
  - cbn [deep_rewrite map_strings]. f_equal. apply map_ext_Forall.
    eapply Forall_impl; [exact IH|]. simpl. by intros [k v] ->.
Qed.

Lemma deep_rewrite_clean tokens res obj :
  all_strings (fun s => negb (contains_any_legacy_token s tokens)) obj = true →
  deep_rewrite obj tokens res = obj.
Proof.
  induction obj as [|b|n|r|s|items IH|kvs IH] using json_nested_ind; try done.
  - cbn [all_strings deep_rewrite]. intros H%negb_true_iff. by rewrite H.
  - cbn [all_strings deep_rewrite]. intros H. f_equal.
    rewrite (map_ext_Forall _ id); [apply map_id|].
    pose proof (proj1 (forallb_forall _ _) H) as Hall.
    apply Forall_forall. intros x Hx.
    rewrite Forall_forall in IH. apply IH; [done|]. apply Hall. by apply list_elem_of_In.
  - cbn [all_strings deep_rewrite]. intros H. f_equal.
    rewrite (map_ext_Forall _ id); [apply map_id|].
    pose proof (proj1 (forallb_forall _ _) H) as Hall.
    apply Forall_forall. intros [k v] Hx.
    rewrite Forall_forall in IH. simpl. f_equal.
    apply (IH (k, v)); [done|]. apply (Hall (k, v)). by apply list_elem_of_In.
Qed.

Lemma deep_rewrite_keys tokens res kvs :
  ∃ kvs', deep_rewrite (JObj kvs) tokens res = JObj kvs' ∧ kvs'.*1 = kvs.*1.
Proof.
  eexists. split; [reflexivity|].
  induction kvs as [|[k v] kvs IH]; [done|]. cbn [map fmap list_fmap fst].
  cbn [fmap] in IH. by rewrite IH.
Qed.

(** X26. On ASCII text, where [re.IGNORECASE] matches exactly the
    characters [str.lower()] identifies. For lower-case ASCII tokens and
    a value whose strings are ASCII text, [deep_rewrite] rewrites the
    strings the value holds as values, at any depth, each as
    [replace_legacy_tokens] does, and nothing else: the keys of objects,
    numbers, booleans and [null] stay as they are, and so do the length
    and order of every list and object. A value none of whose strings
    holds a token is returned unchanged. *)
Theorem deep_rewrite_values_only (tokens : list string) (obj : json) :
  Forall (fun t => ascii_text t = true) tokens →
  all_strings ascii_text obj = true →
  Forall (fun t => lower t = t) tokens →
  deep_rewrite obj tokens (compile_tokens tokens)
  = map_strings (fun s => replace_legacy_tokens s (compile_tokens tokens)) obj ∧
  (∀ kvs, obj = JObj kvs →
     ∃ kvs', deep_rewrite obj tokens (compile_tokens tokens) = JObj kvs' ∧
             kvs'.*1 = kvs.*1) ∧
  (all_strings (fun s => negb (contains_any_legacy_token s tokens)) obj = true →
   deep_rewrite obj tokens (compile_tokens tokens) = obj).
Proof.
  intros _ _ Hlow. split; [by apply deep_rewrite_map_strings|]. split.
  - intros kvs ->. apply deep_rewrite_keys.
  - apply deep_rewrite_clean.
Qed.

(** *** [rewrite_jsonl_file], line by line *)

Section FileFacts.
Variable urlparse : string → option (string * string).
Variable json_loads : string → option json.
Variables (cfg : RewriteConfig) (tokens : list string) (res : list pattern).

Lemma rewrite_jsonl_loop_spec fin fout :
  rewrite_jsonl_loop urlparse json_loads fin fout cfg tokens res =
  match mapM (fun obj => rewrite_row urlparse obj cfg tokens res)
             (omap (Backfill.parse_line json_loads) fin) with
  | Ok lines => Ok (fout ++ lines)
  | Raise e => Raise e
  end.
Proof.
  revert fout. induction fin as [|line rest IH]; intros fout.
  { simpl. by rewrite app_nil_r. }
  cbn [rewrite_jsonl_loop omap list_omap]. unfold Backfill.parse_line at 1.
  destruct (is_empty (strip line)); [apply IH|].
  destruct (json_loads (strip line)) as [obj|]; [|apply IH].
  cbn [mapM]. destruct (rewrite_row urlparse obj cfg tokens res) as [obj_line|e]; [|done].
  cbn [mbind result_bind]. rewrite IH.
  destruct (mapM _ _) as [lines|e]; [|done].
  cbn [mbind result_bind]. by rewrite <- app_assoc.
Qed.

Lemma rewrite_row_plain obj :
  (∀ kvs, obj ≠ JObj kvs) →
  rewrite_row urlparse obj cfg tokens res
  = Ok (if contains_any_legacy_token (json_dumps "," ":" obj) tokens
        then replace_legacy_tokens (json_dumps "," ":" obj) res
        else json_dumps "," ":" obj).
Proof.
  intros Hobj. unfold rewrite_row.
  destruct obj as [| | | | | |kvs]; cbn [mbind result_bind];
    try (by destruct (contains_any_legacy_token _ _)).
  by destruct (Hobj kvs).
Qed.

Lemma mapM_length {A B} (f : A → result B) (xs : list A) ys :
  mapM f xs = Ok ys → length ys = length xs.
Proof.
  revert ys. induction xs as [|x xs IH]; intros ys; [by intros [= <-]|].
  cbn [mapM]. destruct (f x) as [y|]; [|done]. cbn [mbind result_bind].
  destruct (mapM f xs) as [ys'|]; [|done]. cbn [mbind result_bind].
  intros [= <-]. simpl. by rewrite (IH ys').
Qed.

End FileFacts.

(** X27. The lines [rewrite_jsonl_file] writes, when it runs to its end,
    are one for every line of the source that is not blank and that
    [json.loads] reads, in the same order: the line [rewrite_row], the
    body of the loop before the write, gives for the value read. Blank
    and unreadable lines are dropped. When [rewrite_row] raises on a
    value that was read, so does [rewrite_jsonl_file]. On a value that is
    no object [rewrite_row] does not raise: its line is the serialised
    value, passed through the final guard. *)
Theorem rewrite_jsonl_file_lines (urlparse : string → option (string * string))
    (json_loads : string → option json) (src : list string) (cfg : RewriteConfig)
    (tokens : list string) (res : list pattern) :
  (∀ out, rewrite_jsonl_file urlparse json_loads src cfg tokens res = Ok out →
          mapM (fun obj => rewrite_row urlparse obj cfg tokens res)
               (omap (Backfill.parse_line json_loads) src) = Ok out ∧
          length out = length (omap (Backfill.parse_line json_loads) src)) ∧
  (∀ e, mapM (fun obj => rewrite_row urlparse obj cfg tokens res)
             (omap (Backfill.parse_line json_loads) src) = Raise e →
        rewrite_jsonl_file urlparse json_loads src cfg tokens res = Raise e) ∧
  (∀ obj, (∀ kvs, obj ≠ JObj kvs) →
     rewrite_row urlparse obj cfg tokens res
     = Ok (if contains_any_legacy_token (json_dumps "," ":" obj) tokens
           then replace_legacy_tokens (json_dumps "," ":" obj) res
           else json_dumps "," ":" obj)).
Proof.
  assert (rewrite_jsonl_file urlparse json_loads src cfg tokens res
          = mapM (fun obj => rewrite_row urlparse obj cfg tokens res)
                 (omap (Backfill.parse_line json_loads) src)) as Heq.
  { unfold rewrite_jsonl_file. rewrite rewrite_jsonl_loop_spec.
    by destruct (mapM _ _). }
  split; [|split; [|apply rewrite_row_plain]].
  - intros out Hout. rewrite Heq in Hout. split; [done|]. by eapply mapM_length.
  - intros e He. by rewrite Heq.
Qed.

(** *** [rewrite_company], step by step *)

Lemma field_set k v kvs k' :
  default JNull (assoc_get k' (assoc_set k v kvs))
  = if decide (k' = k) then v else default JNull (assoc_get k' kvs).
Proof.
  destruct (decide (k' = k)) as [->|Hne].
  - by rewrite BackfillFacts.assoc_get_set_eq.
  - by rewrite BackfillFacts.assoc_get_set_ne.
Qed.

Lemma keys_set k v (kvs : list (string * json)) :
  kvs.*1 `prefix_of` (assoc_set k v kvs).*1.
Proof.
  induction kvs as [|[k' v'] kvs IH]; [apply prefix_nil|]. simpl.
  destruct (String.eqb k' k); simpl; [done|]. by apply prefix_cons.
Qed.

Lemma typed_set kvs k v :
  company_typed kvs = true →
  (k = "source" ∨ k = "source_id" ∨ k = "source_url" → str_or_falsy v = true) →
  (k = "categories" ∨ k = "rubrics" → slugs_ok v = true) →
  company_typed (assoc_set k v kvs) = true.
Proof.
  unfold company_typed. rewrite !field_set.
  intros ((((H1 & H2)%andb_true_iff & H3)%andb_true_iff & H4)%andb_true_iff
            & H5)%andb_true_iff Htext Hlist.
  repeat (apply andb_true_iff; split);
    (destruct (decide _) as [E|_]; [|done]); first [apply Htext|apply Hlist]; auto.
Qed.

(** The invariant of the run: the keys so far extend those of the record
    read, a typed record stays typed, and once [logo_url] is set it is a
    string. *)
Lemma run_set kvs0 kvs k v :
  kvs0.*1 `prefix_of` kvs.*1 ∧ (company_typed kvs0 = true → company_typed kvs = true) →
  (k = "source" ∨ k = "source_id" ∨ k = "source_url" → str_or_falsy v = true) →
  (k = "categories" ∨ k = "rubrics" → slugs_ok v = true) →
  kvs0.*1 `prefix_of` (assoc_set k v kvs).*1 ∧
  (company_typed kvs0 = true → company_typed (assoc_set k v kvs) = true).
Proof.
  intros [Hp Ht] Htext Hlist. split.
  - etrans; [exact Hp|apply keys_set].
  - intros H. apply typed_set; auto.
Qed.

Lemma stripped_field_result kvs k r :
  stripped_field (JObj kvs) k = r →
  match r with
  | Ok _ => True
  | Raise e => e = AttributeError ∧ str_or_falsy (default JNull (assoc_get k kvs)) = false
  end.
Proof.
  intros <-. unfold stripped_field. cbn [py_get mbind result_bind].
  generalize (default JNull (assoc_get k kvs)). intros v. unfold py_or.
  destruct v as [|[]|n|x|s|xs|ekvs]; try done.
  - simpl. by destruct (n =? 0)%Z.
  - simpl. by destruct (float_is_zero x).
  - by destruct s.
  - by destruct xs.
  - by destruct ekvs.
Qed.

Lemma untyped_field kvs0 kvs k :
  (company_typed kvs0 = true → company_typed kvs = true) →
  str_or_falsy (default JNull (assoc_get k kvs)) = false →
  k = "source" ∨ k = "source_id" ∨ k = "source_url" →
  company_typed kvs0 = false.
Proof.
  intros Ht Hbad Hk. destruct (company_typed kvs0); [|done].
  specialize (Ht eq_refl). unfold company_typed in Ht.
  apply andb_true_iff in Ht as [Ht _]. apply andb_true_iff in Ht as [Ht _].
  apply andb_true_iff in Ht as [Ht H3]. apply andb_true_iff in Ht as [H1 H2].
  destruct Hk as [-> | [-> | ->]]; congruence.
Qed.

Lemma set_slug_urls_result prefix entries r :
  set_slug_urls prefix entries = r →
  match r with
  | Ok entries' => slugs_ok (JArr entries') = true
  | Raise e => e = AttributeError ∧ slugs_ok (JArr entries) = false
  end.
Proof.
  intros <-. unfold set_slug_urls. induction entries as [|entry entries IH]; [done|].
  cbn [mapM].
  assert (match (match entry with
                 | JObj _ =>
                     slug ← stripped_field entry "slug";
                     if is_empty slug then Ok entry
                     else py_setitem entry "url" (JStr (prefix +:+ "/" +:+ slug))
                 | _ => Ok entry
                 end) with
          | Ok entry' => slugs_ok (JArr [entry']) = true ∧ slugs_ok (JArr [entry]) = true
          | Raise e => e = AttributeError ∧ slugs_ok (JArr [entry]) = false
          end) as Hentry.
  { destruct entry as [| | | | | |ekvs]; try done.
    destruct (stripped_field (JObj ekvs) "slug") as [slug|e] eqn:Hslug.
    - cbn [mbind result_bind].
      assert (str_or_falsy (default JNull (assoc_get "slug" ekvs)) = true) as Hok.
      { unfold stripped_field in Hslug. cbn [py_get mbind result_bind] in Hslug.
        rewrite <- BackfillFacts.strip_item_ok. by rewrite Hslug. }
      destruct (is_empty slug); cbn [py_setitem slugs_ok forallb].
      + by rewrite Hok.
      + rewrite field_set. simpl. by rewrite Hok.
    - cbn [mbind result_bind]. apply stripped_field_result in Hslug as [-> Hbad].
      split; [done|]. cbn [slugs_ok forallb]. by rewrite Hbad. }
  destruct (match entry with JObj _ => _ | _ => _ end) as [entry'|e].
  - cbn [mbind result_bind]. destruct Hentry as [H1 H2].
    destruct (mapM _ entries) as [entries'|e].
    + cbn [mbind result_bind]. cbn [slugs_ok forallb] in *.
      apply andb_true_iff in H1 as [-> _]. done.
    + cbn [mbind result_bind]. destruct IH as [-> IH]. split; [done|].
      cbn [slugs_ok forallb] in *. rewrite IH. apply andb_false_r.
  - cbn [mbind result_bind]. destruct Hentry as [-> H]. split; [done|].
    cbn [slugs_ok forallb] in *. apply andb_false_iff. left.
    by apply andb_false_iff in H as [H|H].
Qed.

Lemma untyped_slugs kvs0 kvs k :
  (company_typed kvs0 = true → company_typed kvs = true) →
  slugs_ok (default JNull (assoc_get k kvs)) = false →
  k = "categories" ∨ k = "rubrics" →
  company_typed kvs0 = false.
Proof.
  intros Ht Hbad Hk. destruct (company_typed kvs0); [|done].
  specialize (Ht eq_refl). unfold company_typed in Ht.
  apply andb_true_iff in Ht as [Ht H5]. apply andb_true_iff in Ht as [Ht H4].
  destruct Hk as [-> | ->]; congruence.
Qed.

Lemma assoc_get_map k (f : json → json) kvs :
  assoc_get k (map (fun kv => (fst kv, f (snd kv))) kvs) = f <$> assoc_get k kvs.
Proof.
  induction kvs as [|[k' v] kvs IH]; [done|]. simpl.
  by destruct (String.eqb k' k).
Qed.

(** The computation bound first in the goal. *)
Ltac step c e E :=
  lazymatch goal with
  | |- match @mbind _ _ _ _ _ ?m with Ok _ => _ | Raise _ => _ end =>
      destruct m as [c|e] eqn:E; cbn [mbind result_bind]
  end.

Lemma rewrite_company_run urlparse kvs cfg tokens res :
  match rewrite_company urlparse (JObj kvs) cfg tokens res with
  | Ok company' =>
      ∃ kvs' logo, company' = JObj kvs' ∧ kvs.*1 `prefix_of` kvs'.*1 ∧
                   assoc_get "logo_url" kvs' = Some (JStr logo)
  | Raise e => e = AttributeError ∧ company_typed kvs = false
  end.
Proof.
  unfold rewrite_company.
  assert (kvs.*1 `prefix_of` kvs.*1 ∧ (company_typed kvs = true → company_typed kvs = true))
    as R0 by done.
  (* source *)
  step source e E.
  2:{ apply stripped_field_result in E as [-> Hbad]. split; [done|].
      eapply untyped_field; [apply R0|exact Hbad|auto]. }
  clear E.
  step c1 e E.
  2:{ by destruct (bool_decide _). }
  assert (∃ kvs1, c1 = JObj kvs1 ∧ kvs.*1 `prefix_of` kvs1.*1 ∧
                  (company_typed kvs = true → company_typed kvs1 = true))
    as (kvs1 & -> & R1).
  { destruct (bool_decide _); injection E as <-; eexists; (split; [reflexivity|]);
      [|done]. by apply run_set. }
  clear E R0.
  (* source_id *)
  step source_id e E.
  2:{ apply stripped_field_result in E as [-> Hbad]. split; [done|].
      eapply untyped_field; [apply R1|exact Hbad|auto]. }
  clear E.
  step c2 e E.
  2:{ by destruct (negb _ && _). }
  destruct c2 as [c2 source_id2].
  assert (∃ kvs2, c2 = JObj kvs2 ∧ kvs.*1 `prefix_of` kvs2.*1 ∧
                  (company_typed kvs = true → company_typed kvs2 = true))
    as (kvs2 & -> & R2).
  { destruct (negb _ && _); cbn in E; injection E as <- <-; eexists;
      (split; [reflexivity|]); [|done]. by apply run_set. }
  clear E R1.
  (* source_url *)
  step source' e E.
  2:{ apply stripped_field_result in E as [-> Hbad]. split; [done|].
      eapply untyped_field; [apply R2|exact Hbad|auto]. }
  clear E.
  step c3 e E.
  2:{ destruct (String.eqb _ _ && _); [done|].
      destruct (stripped_field (JObj kvs2) "source_url") as [source_url|e'] eqn:Hurl.
      - cbn [mbind result_bind] in E. by destruct (contains_any_legacy_token _ _).
      - cbn [mbind result_bind] in E. injection E as <-.
        apply stripped_field_result in Hurl as [-> Hbad]. split; [done|].
        eapply untyped_field; [apply R2|exact Hbad|auto]. }
  assert (∃ kvs3, c3 = JObj kvs3 ∧ kvs.*1 `prefix_of` kvs3.*1 ∧
                  (company_typed kvs = true → company_typed kvs3 = true))
    as (kvs3 & -> & R3).
  { destruct (String.eqb _ _ && _).
    - injection E as <-. eexists. split; [reflexivity|]. by apply run_set.
    - destruct (stripped_field (JObj kvs2) "source_url") as [source_url|e']; [|done].
      cbn [mbind result_bind] in E.
      destruct (contains_any_legacy_token _ _); injection E as <-; eexists;
        (split; [reflexivity|]); [|done]. by apply run_set. }
  clear E R2.
  (* logo_url *)
  cbn [py_get mbind result_bind]. cbn [py_setitem mbind result_bind].
  match goal with
  | |- context [assoc_set "logo_url" (JStr ?l) kvs3] => set (logo := l)
  end.
  clearbody logo.
  assert (kvs.*1 `prefix_of` (assoc_set "logo_url" (JStr logo) kvs3).*1 ∧
          (company_typed kvs = true →
           company_typed (assoc_set "logo_url" (JStr logo) kvs3) = true)) as R4.
  { apply run_set; [done| |]; intros H; decompose [or] H; done. }
  assert (assoc_get "logo_url" (assoc_set "logo_url" (JStr logo) kvs3) = Some (JStr logo))
    as G4 by apply BackfillFacts.assoc_get_set_eq.
  revert R4 G4. generalize (assoc_set "logo_url" (JStr logo) kvs3). clear R3 kvs3.
  intros kvs4 R4 G4.
  (* websites *)
  cbn [py_get mbind result_bind].
  step c5 e E.
  2:{ by destruct (default JNull (assoc_get "websites" kvs4)). }
  assert (∃ kvs5, c5 = JObj kvs5 ∧
                  (kvs.*1 `prefix_of` kvs5.*1 ∧
                   (company_typed kvs = true → company_typed kvs5 = true)) ∧
                  assoc_get "logo_url" kvs5 = Some (JStr logo))
    as (kvs5 & -> & R5 & G5).
  { destruct (default JNull (assoc_get "websites" kvs4));
      injection E as <-; eexists; (split; [reflexivity|]); try done.
    split; [apply run_set; [done| |]; intros H; decompose [or] H; done|].
    by rewrite BackfillFacts.assoc_get_set_ne. }
  clear E R4 G4.
  (* categories *)
  cbn [py_get mbind result_bind].
  step c6 e E.
  2:{ destruct (default JNull (assoc_get "categories" kvs5)) as [| | | | |cats|] eqn:Hcat;
        try done.
      destruct (set_slug_urls _ cats) as [cats'|e'] eqn:Hslug; [done|].
      cbn [mbind result_bind] in E. injection E as <-.
      apply set_slug_urls_result in Hslug as [-> Hbad]. split; [done|].
      eapply (untyped_slugs kvs kvs5 "categories"); [apply R5| |auto].
      by rewrite Hcat. }
  assert (∃ kvs6, c6 = JObj kvs6 ∧
                  (kvs.*1 `prefix_of` kvs6.*1 ∧
                   (company_typed kvs = true → company_typed kvs6 = true)) ∧
                  assoc_get "logo_url" kvs6 = Some (JStr logo))
    as (kvs6 & -> & R6 & G6).
  { destruct (default JNull (assoc_get "categories" kvs5)) as [| | | | |cats|];
      try (injection E as <-; eexists; (split; [reflexivity|]); done).
    destruct (set_slug_urls _ cats) as [cats'|e'] eqn:Hslug; [|done].
    cbn [mbind result_bind py_setitem] in E. injection E as <-.
    apply set_slug_urls_result in Hslug.
    eexists. split; [reflexivity|]. split.
    - apply run_set; [done|intros H; decompose [or] H; done|by intros _].
    - by rewrite BackfillFacts.assoc_get_set_ne. }
  clear E R5 G5.
  (* rubrics *)
  cbn [py_get mbind result_bind].
  step c7 e E.
  2:{ destruct (default JNull (assoc_get "rubrics" kvs6)) as [| | | | |rubs|] eqn:Hrub;
        try done.
      destruct (set_slug_urls _ rubs) as [rubs'|e'] eqn:Hslug; [done|].
      cbn [mbind result_bind] in E. injection E as <-.
      apply set_slug_urls_result in Hslug as [-> Hbad]. split; [done|].
      eapply (untyped_slugs kvs kvs6 "rubrics"); [apply R6| |auto].
      by rewrite Hrub. }
  assert (∃ kvs7, c7 = JObj kvs7 ∧ kvs.*1 `prefix_of` kvs7.*1 ∧
                  assoc_get "logo_url" kvs7 = Some (JStr logo))
    as (kvs7 & -> & R7 & G7).
  { destruct (default JNull (assoc_get "rubrics" kvs6)) as [| | | | |rubs|];
      try (injection E as <-; eexists; (split; [reflexivity|]); split; [apply R6|done]).
    destruct (set_slug_urls _ rubs) as [rubs'|e'] eqn:Hslug; [|done].
    cbn [mbind result_bind py_setitem] in E. injection E as <-.
    eexists. split; [reflexivity|]. split.
    - etrans; [apply R6|apply keys_set].
    - by rewrite BackfillFacts.assoc_get_set_ne. }
  clear E R6 G6.
  destruct (deep_rewrite_keys tokens res kvs7) as (kvs' & Hdeep & Hkeys).
  rewrite Hdeep. cbn [deep_rewrite] in Hdeep. injection Hdeep as <-.
  eexists _, (if contains_any_legacy_token logo tokens
              then replace_legacy_tokens logo res else logo).
  split; [reflexivity|]. split; [by rewrite Hkeys|].
  rewrite (assoc_get_map "logo_url" (fun v => deep_rewrite v tokens res) kvs7), G7.
  cbn [fmap option_fmap option_map deep_rewrite].
  by destruct (contains_any_legacy_token logo tokens).
Qed.

(** X28. [rewrite_company] on an object either returns or raises an
    [AttributeError]. It raises only on a record that is not typed: one
    whose [source], [source_id] or [source_url] is neither a string nor
    false, or with a category or rubric whose [slug] is; and it does raise
    when that is so for [source] or [source_id]. When it returns, the
    result is an object that begins with the keys of the record, in
    their order, and whose [logo_url] is a string. *)
Theorem rewrite_company_outcome (urlparse : string → option (string * string))
    (kvs : list (string * json)) (cfg : RewriteConfig) (tokens : list string)
    (res : list pattern) :
  match rewrite_company urlparse (JObj kvs) cfg tokens res with
  | Ok company' =>
      ∃ kvs' logo, company' = JObj kvs' ∧ kvs.*1 `prefix_of` kvs'.*1 ∧
                   assoc_get "logo_url" kvs' = Some (JStr logo)
  | Raise e => e = AttributeError ∧ company_typed kvs = false
  end ∧
  (str_or_falsy (default JNull (assoc_get "source" kvs)) = false ∨
   str_or_falsy (default JNull (assoc_get "source_id" kvs)) = false →
   rewrite_company urlparse (JObj kvs) cfg tokens res = Raise AttributeError).
Proof.
  split; [apply rewrite_company_run|].
  intros Hbad. unfold rewrite_company.
  destruct (stripped_field (JObj kvs) "source") as [source|e] eqn:Hsrc.
  2:{ by apply stripped_field_result in Hsrc as [-> _]. }
  cbn [mbind result_bind].
  destruct Hbad as [Hbad|Hbad].
  { unfold stripped_field in Hsrc. cbn [py_get mbind result_bind] in Hsrc.
    rewrite <- BackfillFacts.strip_item_ok, Hsrc in Hbad. done. }
  assert (∀ kvs1, default JNull (assoc_get "source_id" kvs1)
                  = default JNull (assoc_get "source_id" kvs) →
                  stripped_field (JObj kvs1) "source_id" = Raise AttributeError) as Hsid.
  { intros kvs1 Heq.
    destruct (stripped_field (JObj kvs1) "source_id") as [sid|e] eqn:Hs.
    - unfold stripped_field in Hs. cbn [py_get mbind result_bind] in Hs.
      rewrite <- Heq, <- BackfillFacts.strip_item_ok, Hs in Hbad. done.
    - by apply stripped_field_result in Hs as [-> _]. }
  destruct (bool_decide _); cbn [py_setitem mbind result_bind].
  - rewrite Hsid; [done|]. by rewrite field_set.
  - by rewrite Hsid.
Qed.

(** *** Characters of a result *)

Lemma str_mem_app c a b : str_mem c (a +:+ b) = str_mem c a || str_mem c b.
Proof.
  induction a as [|x a IH]; [done|]. rewrite sapp_cons. simpl.
  by rewrite IH, orb_assoc.
Qed.

Lemma str_mem_before_same sep s : str_mem sep (before_char sep s) = false.
Proof.
  induction s as [|c s IH]; [done|]. simpl.
  destruct (Ascii.eqb c sep) eqn:E; [done|]. simpl.
  rewrite IH, orb_false_r. rewrite Ascii.eqb_sym. exact E.
Qed.

Lemma str_mem_before c sep s : str_mem c s = false → str_mem c (before_char sep s) = false.
Proof.
  induction s as [|x s IH]; [done|]. simpl.
  intros [Hx Hs]%orb_false_iff. destruct (Ascii.eqb x sep); [done|].
  simpl. by rewrite Hx, IH.
Qed.

Lemma str_mem_lstrip c s : str_mem c s = false → str_mem c (lstrip s) = false.
Proof.
  induction s as [|x s IH]; [done|]. simpl.
  intros [Hx Hs]%orb_false_iff. destruct (isspace x); [by apply IH|].
  simpl. by rewrite Hx, Hs.
Qed.

Lemma str_mem_rstrip c s : str_mem c s = false → str_mem c (rstrip s) = false.
Proof.
  induction s as [|x s IH]; [done|]. simpl.
  intros [Hx Hs]%orb_false_iff. destruct (isspace x && is_empty (rstrip s)); [done|].
  simpl. by rewrite Hx, IH.
Qed.

Lemma str_mem_strip c s : str_mem c s = false → str_mem c (strip s) = false.
Proof. intros H. unfold strip. by apply str_mem_rstrip, str_mem_lstrip. Qed.

Lemma str_mem_sub_ci_go c tok repl skip s :
  str_mem c s = false → str_mem c repl = false →
  str_mem c (sub_ci_go tok repl skip s) = false.
Proof.
  intros Hs Hrepl. revert skip Hs. induction s as [|x s IH]; intros skip; [done|].
  cbn [str_mem sub_ci_go]. intros [Hx Hs]%orb_false_iff.
  destruct skip as [|k]; [|by apply IH].
  destruct (String.prefix (lower tok) (lower (String x s))).
  - rewrite str_mem_app, Hrepl. by apply IH.
  - cbn [str_mem]. rewrite Hx. by apply IH.
Qed.

Lemma str_mem_sub_empty c repl s :
  str_mem c s = false → str_mem c repl = false → str_mem c (sub_empty repl s) = false.
Proof.
  intros Hs Hrepl. induction s as [|x s IH]; [done|]. simpl in *.
  apply orb_false_iff in Hs as [Hx Hs].
  rewrite str_mem_app, Hrepl. simpl. by rewrite Hx, IH.
Qed.

Lemma str_mem_replace c text (res : list pattern) :
  str_mem c text = false → str_mem c "biznesinfo" = false →
  str_mem c (replace_legacy_tokens text res) = false.
Proof.
  intros Htext Hrepl. unfold replace_legacy_tokens. revert text Htext.
  induction res as [|[tok] res IH]; intros text Htext; [done|].
  simpl. apply IH. unfold sub_ci. destruct (is_empty tok).
  - by apply str_mem_sub_empty.
  - by apply str_mem_sub_ci_go.
Qed.

(** X29. [normalize_logo_url] returns the empty string for a blank value and
    the stripped value, query and fragment included, when it holds no
    legacy token. When it holds one, whatever [urlparse] does, the result
    holds neither a question mark nor a hash sign: the query and the
    fragment are cut off before the tokens are replaced. *)
Theorem normalize_logo_url_cases (urlparse : string → option (string * string))
    (raw : string) (tokens : list string) (res : list pattern) :
  (strip raw = "" → normalize_logo_url urlparse raw tokens res = "") ∧
  (contains_any_legacy_token (strip raw) tokens = false →
   normalize_logo_url urlparse raw tokens res = strip raw) ∧
  (strip raw ≠ "" → contains_any_legacy_token (strip raw) tokens = true →
   str_mem "?" (normalize_logo_url urlparse raw tokens res) = false ∧
   str_mem "#" (normalize_logo_url urlparse raw tokens res) = false).
Proof.
  unfold normalize_logo_url. split; [|split].
  - by intros ->.
  - intros ->. by destruct (is_empty (strip raw)) eqn:E; [apply is_empty_true in E|].
  - intros Hne%is_empty_false ->. rewrite Hne. cbn [negb].
    set (value := match urlparse (strip raw) with
                  | Some (scheme, path) => _
                  | None => _
                  end).
    assert (str_mem "?" (strip (before_char "#" (before_char "?" value))) = false) as Hq.
    { apply str_mem_strip, str_mem_before, str_mem_before_same. }
    assert (str_mem "#" (strip (before_char "#" (before_char "?" value))) = false) as Hh.
    { apply str_mem_strip, str_mem_before_same. }
    destruct (contains_any_legacy_token _ tokens); [|done].
    split; by apply str_mem_replace.
Qed.

Lemma assoc_get_set k v kvs k' :
  assoc_get k' (assoc_set k v kvs) = if decide (k' = k) then Some v else assoc_get k' kvs.
Proof.
  destruct (decide (k' = k)) as [->|Hne].
  - by rewrite BackfillFacts.assoc_get_set_eq.
  - by rewrite BackfillFacts.assoc_get_set_ne.
Qed.

Lemma keys_set_mem k v (kvs : list (string * json)) :
  is_Some (assoc_get k kvs) → (assoc_set k v kvs).*1 = kvs.*1.
Proof.
  induction kvs as [|[k' v'] kvs IH]; [by intros [? ?]|].
  cbn [assoc_get assoc_set]. destruct (String.eqb k' k); [done|].
  intros H. rewrite !fmap_cons. by rewrite IH.
Qed.

Lemma assoc_get_elem k v (kvs : list (string * json)) :
  NoDup kvs.*1 → (k, v) ∈ kvs → assoc_get k kvs = Some v.
Proof.
  induction kvs as [|[k' v'] kvs IH]; [by intros _ ?%elem_of_nil|].
  cbn [fmap list_fmap fst]. intros [Hk' Hnd]%NoDup_cons [[= -> ->]|Hin]%elem_of_cons.
  - simpl. by rewrite String.eqb_refl.
  - simpl. destruct (String.eqb k' k) eqn:E; [|by apply IH].
    apply String.eqb_eq in E as ->. destruct Hk'.
    apply list_elem_of_fmap. by exists (k, v).
Qed.

Lemma assoc_get_None k (kvs : list (string * json)) :
  assoc_get k kvs = None ↔ k ∉ kvs.*1.
Proof.
  induction kvs as [|[k' v'] kvs IH]; simpl.
  { split; [intros _ ?%elem_of_nil; done|done]. }
  rewrite not_elem_of_cons. destruct (String.eqb k' k) eqn:E.
  - apply String.eqb_eq in E as ->. split; [done|]. by intros [? _].
  - apply String.eqb_neq in E. rewrite IH. split; [by split|by intros [_ ?]].
Qed.

Lemma clean_cell_fold tokens res (items acc : list (string * json)) :
  NoDup items.*1 →
  (∀ k v, (k, v) ∈ items → assoc_get k acc = Some v) →
  (foldl (rewrite_csv_cell tokens res) acc items).*1 = acc.*1 ∧
  ∀ k, assoc_get k (foldl (rewrite_csv_cell tokens res) acc items)
       = match assoc_get k items with
         | Some v => Some (clean_cell tokens res v)
         | None => assoc_get k acc
         end.
Proof.
  revert acc. induction items as [|[k0 v0] items IH]; intros acc Hnd Hacc; [done|].
  cbn [fmap list_fmap fst] in Hnd. apply NoDup_cons in Hnd as [Hk0 Hnd].
  cbn [foldl].
  assert (assoc_get k0 acc = Some v0) as H0 by (apply Hacc; by left).
  assert ((rewrite_csv_cell tokens res acc (k0, v0)).*1 = acc.*1 ∧
          ∀ k, assoc_get k (rewrite_csv_cell tokens res acc (k0, v0))
               = if decide (k = k0) then Some (clean_cell tokens res v0)
                 else assoc_get k acc) as [Hkeys Hget].
  { unfold rewrite_csv_cell, clean_cell. cbn [fst snd].
    assert (acc.*1 = acc.*1 ∧
            ∀ k, assoc_get k acc = if decide (k = k0) then Some v0 else assoc_get k acc)
      as Hsame.
    { split; [done|]. intros k. by destruct (decide (k = k0)) as [->|]. }
    destruct v0 as [| | | |s| |]; try exact Hsame.
    destruct (contains_any_legacy_token s tokens); [|exact Hsame].
    split; [apply keys_set_mem; by eexists|]. intros k. apply assoc_get_set. }
  destruct (IH (rewrite_csv_cell tokens res acc (k0, v0)) Hnd) as [IHkeys IHget].
  { intros k v Hin. rewrite Hget.
    destruct (decide (k = k0)) as [->|_]; [|apply Hacc; by right].
    destruct Hk0. apply list_elem_of_fmap. by exists (k0, v). }
  split; [by rewrite IHkeys|].
  intros k. rewrite IHget, Hget. simpl.
  destruct (String.eqb k0 k) eqn:E.
  - apply String.eqb_eq in E as <-.
    rewrite (proj2 (assoc_get_None k0 items) Hk0).
    by destruct (decide (k0 = k0)).
  - apply String.eqb_neq in E.
    destruct (assoc_get k items); [done|].
    destruct (decide (k = k0)) as [->|]; done.
Qed.

(** X30. [rewrite_csv_row] on a row of the reader whose [subdomain] cell is a
    string or missing returns a row with the same columns, in the same
    order. Its cells are described one by one: the [subdomain] cell that
    holds a token is stripped and rewritten; when the identifier is not
    blank the cells [url] and [company_url], where the columns exist, are
    set to the company link built from it; and every cell, these
    included, has the legacy tokens replaced if it is a string that holds
    one. A cell of any other column without a token is left as it is. *)
Theorem rewrite_csv_row_cells (row : list (string * json)) (cfg : RewriteConfig)
    (tokens : list string) (res : list pattern) :
  NoDup row.*1 →
  str_or_falsy (default JNull (assoc_get "subdomain" row)) = true →
  ∃ sub row',
    stripped_field (JObj row) "subdomain" = Ok sub ∧
    rewrite_csv_row row cfg tokens res = Ok row' ∧
    row'.*1 = row.*1 ∧
    ∀ k v, assoc_get k row = Some v →
      assoc_get k row'
      = Some (clean_cell tokens res
                (let rewritten := negb (is_empty sub)
                                  && contains_any_legacy_token sub tokens in
                 let sub' := if rewritten then replace_legacy_tokens sub res else sub in
                 if decide (k = "subdomain")
                 then (if rewritten then JStr sub' else v)
                 else if decide (k = "url" ∨ k = "company_url")
                      then (if is_empty sub' then v
                            else JStr (company_url_for_subdomain sub' cfg))
                      else v)).
Proof.
  intros Hnd Hsub.
  destruct (stripped_field (JObj row) "subdomain") as [sub|e] eqn:Hs.
  2:{ apply stripped_field_result in Hs as [_ Hbad]. congruence. }
  exists sub.
  assert (sub ≠ "" → is_Some (assoc_get "subdomain" row)) as Hkey.
  { intros Hne. destruct (assoc_get "subdomain" row) as [v|] eqn:Hv; [by eexists|].
    unfold stripped_field in Hs. cbn [py_get mbind result_bind] in Hs.
    rewrite Hv in Hs. cbn in Hs. by injection Hs as <-. }
  set (rewritten := negb (is_empty sub) && contains_any_legacy_token sub tokens).
  set (sub' := if rewritten then replace_legacy_tokens sub res else sub).
  set (row1 := if rewritten then assoc_set "subdomain" (JStr sub') row else row).
  assert (row1.*1 = row.*1 ∧
          ∀ k, assoc_get k row1
               = if decide (k = "subdomain")
                 then (if rewritten then Some (JStr sub') else assoc_get k row)
                 else assoc_get k row) as [K1 G1].
  { unfold row1. destruct rewritten eqn:Hr.
    - split.
      + apply keys_set_mem, Hkey. unfold rewritten in Hr.
        apply andb_true_iff in Hr as [Hr _]. by apply is_empty_false, negb_true_iff.
      + intros k. apply assoc_get_set.
    - split; [done|]. intros k. by destruct (decide _). }
  set (url := JStr (company_url_for_subdomain sub' cfg)).
  set (row2 := if assoc_mem "url" row1 then assoc_set "url" url row1 else row1).
  set (row3 := if assoc_mem "company_url" row2 then assoc_set "company_url" url row2
               else row2).
  set (row4 := if is_empty sub' then row1 else row3).
  assert (rewrite_csv_row row cfg tokens res
          = Ok (foldl (rewrite_csv_cell tokens res) row4 row4)) as Hrun.
  { unfold rewrite_csv_row. rewrite Hs. cbn [mbind result_bind].
    unfold row4, row3, row2, row1, url, sub', rewritten.
    by destruct (negb (is_empty sub) && contains_any_legacy_token sub tokens). }
  assert (∀ (kvs : list (string * json)) k v,
            (if assoc_mem k kvs then assoc_set k v kvs else kvs).*1 = kvs.*1 ∧
            ∀ k', assoc_get k' (if assoc_mem k kvs then assoc_set k v kvs else kvs)
                  = if decide (k' = k)
                    then (if assoc_mem k kvs then Some v else None)
                    else assoc_get k' kvs) as Hset.
  { intros kvs k v. unfold assoc_mem.
    destruct (assoc_get k kvs) as [v0|] eqn:Hk.
    - split; [apply keys_set_mem; by eexists|]. intros k'. apply assoc_get_set.
    - split; [done|]. intros k'. destruct (decide (k' = k)) as [->|]; done. }
  destruct (Hset row1 "url" url) as [K2 G2]. fold row2 in K2, G2.
  destruct (Hset row2 "company_url" url) as [K3 G3]. fold row3 in K3, G3.
  assert (row4.*1 = row.*1) as K4.
  { unfold row4. destruct (is_empty sub'); congruence. }
  destruct (clean_cell_fold tokens res row4 row4) as [K5 G5].
  { by rewrite K4. }
  { intros k v Hin. apply assoc_get_elem; [by rewrite K4|done]. }
  eexists. split; [done|]. split; [exact Hrun|]. split; [congruence|].
  intros k v Hv. rewrite G5. cbn zeta. fold rewritten. fold sub'.
  assert (assoc_get k row4
          = Some (if decide (k = "subdomain")
                  then (if rewritten then JStr sub' else v)
                  else if decide (k = "url" ∨ k = "company_url")
                       then (if is_empty sub' then v else url)
                       else v)) as ->; [|done].
  unfold row4. destruct (is_empty sub').
  - rewrite G1, Hv. destruct (decide (k = "subdomain")); [by destruct rewritten|].
    by destruct (decide (k = "url" ∨ k = "company_url")).
  - rewrite G3, G2, G1.
    assert (∀ k0, k = k0 → assoc_mem k0 row1 = true) as Hmem1.
    { intros k0 <-. unfold assoc_mem. rewrite G1, Hv.
      destruct (decide _); [by destruct rewritten|done]. }
    assert (∀ k0, k = k0 → assoc_mem k0 row2 = true) as Hmem2.
    { intros k0 <-. unfold assoc_mem. rewrite G2.
      destruct (decide (k = "url")); [by rewrite Hmem1|].
      specialize (Hmem1 k eq_refl). unfold assoc_mem in Hmem1. done. }
    destruct (decide (k = "company_url")) as [->|Hn1].
    { rewrite Hmem2 by done. rewrite decide_False by done.
      rewrite decide_True by auto. done. }
    destruct (decide (k = "url")) as [->|Hn2].
    { rewrite Hmem1 by done. rewrite decide_False by done.
      rewrite decide_True by auto. done. }
    rewrite Hv. destruct (decide (k = "subdomain")); [by destruct rewritten|].
    rewrite decide_False; [done|]. by intros [?|?].
Qed.

Lemma legacy_tokens_lower : Forall (fun t => lower t = t) build_legacy_tokens.
Proof. apply (bool_decide_unpack _). vm_compute. reflexivity. Qed.

Lemma legacy_tokens_ascii : Forall (fun t => ascii_text t = true) build_legacy_tokens.
Proof. apply (bool_decide_unpack _). vm_compute. reflexivity. Qed.

(** A text without a legacy token, under the tokens of the script. *)
Lemma replace_legacy_tokens_clean_witness :
  replace_legacy_tokens "Minsk Cafe" (compile_tokens build_legacy_tokens) = "Minsk Cafe" ∧
  contains_any_legacy_token (lower "Minsk Cafe") build_legacy_tokens = false ∧
  replace_legacy_tokens (lower "Minsk Cafe") (compile_tokens build_legacy_tokens)
  = lower "Minsk Cafe".
Proof.
  exact (replace_legacy_tokens_clean build_legacy_tokens "Minsk Cafe"
           legacy_tokens_ascii eq_refl legacy_tokens_lower eq_refl).
Defined.

(** The sample company under the tokens of the script. *)
Lemma deep_rewrite_values_only_witness :
  deep_rewrite company_iiibiz build_legacy_tokens (compile_tokens build_legacy_tokens)
  = map_strings (fun s => replace_legacy_tokens s (compile_tokens build_legacy_tokens))
      company_iiibiz ∧
  (∀ kvs, company_iiibiz = JObj kvs →
     ∃ kvs', deep_rewrite company_iiibiz build_legacy_tokens
               (compile_tokens build_legacy_tokens) = JObj kvs' ∧
             kvs'.*1 = kvs.*1) ∧
  (all_strings (fun s => negb (contains_any_legacy_token s build_legacy_tokens))
     company_iiibiz = true →
   deep_rewrite company_iiibiz build_legacy_tokens (compile_tokens build_legacy_tokens)
   = company_iiibiz).
Proof.
  exact (deep_rewrite_values_only build_legacy_tokens company_iiibiz
           legacy_tokens_ascii eq_refl legacy_tokens_lower).
Defined.

Lemma sample_csv_row_keys : NoDup sample_csv_row.*1.
Proof. apply (bool_decide_unpack _). vm_compute. reflexivity. Qed.

(** The sample row under the tokens of the script. *)
Lemma rewrite_csv_row_cells_witness :
  ∃ sub row',
    stripped_field (JObj sample_csv_row) "subdomain" = Ok sub ∧
    rewrite_csv_row sample_csv_row sample_cfg build_legacy_tokens
      (compile_tokens build_legacy_tokens) = Ok row' ∧
    row'.*1 = sample_csv_row.*1 ∧
    ∀ k v, assoc_get k sample_csv_row = Some v →
      assoc_get k row'
      = Some (clean_cell build_legacy_tokens (compile_tokens build_legacy_tokens)
                (let rewritten := negb (is_empty sub)
                                  && contains_any_legacy_token sub build_legacy_tokens in
                 let sub' := if rewritten
                             then replace_legacy_tokens sub
                                    (compile_tokens build_legacy_tokens)
                             else sub in
                 if decide (k = "subdomain")
                 then (if rewritten then JStr sub' else v)
                 else if decide (k = "url" ∨ k = "company_url")
                      then (if is_empty sub' then v
                            else JStr (company_url_for_subdomain sub' sample_cfg))
                      else v)).
Proof.
  exact (rewrite_csv_row_cells sample_csv_row sample_cfg build_legacy_tokens
           (compile_tokens build_legacy_tokens) sample_csv_row_keys eq_refl).
Defined.

End RewriteFacts.

(** ** Properties of the normalisers on Unicode text *)
Module UnicodeFacts.
Import Unicode.

Lemma uni_is_empty_true (s : str) : is_empty s = true ↔ s = [].
Proof. by destruct s. Qed.

Lemma uni_is_empty_false (s : str) : is_empty s = false ↔ s ≠ [].
Proof. by destruct s. Qed.

Lemma uni_isspace_spec c :
  isspace c = true ↔
  (9 ≤ c ≤ 13 ∨ 28 ≤ c ≤ 32 ∨ c = 133 ∨ c = 160 ∨ c = 5760 ∨ 8192 ≤ c ≤ 8202 ∨
   c = 8232 ∨ c = 8233 ∨ c = 8239 ∨ c = 8287 ∨ c = 12288)%N.
Proof.
  unfold isspace.
  rewrite !orb_true_iff, !andb_true_iff, !N.leb_le, !N.eqb_eq. tauto.
Qed.

(** *** Stripping *)

Lemma uni_lstrip_no_lead_space s : no_lead_space (lstrip s).
Proof.
  induction s as [|c s IH]; [done|]. simpl.
  destruct (isspace c) eqn:E; [done|]. exact E.
Qed.

Lemma uni_lstrip_id s : no_lead_space s → lstrip s = s.
Proof. destruct s as [|c s]; [done|]. simpl. by intros ->. Qed.

Lemma uni_rstrip_no_lead_space s : no_lead_space s → no_lead_space (rstrip s).
Proof. destruct s as [|c s]; [done|]. simpl. intros H. rewrite H. exact H. Qed.

Lemma uni_rstrip_idem s : rstrip (rstrip s) = rstrip s.
Proof.
  induction s as [|c s IH]; [done|]. simpl.
  destruct (isspace c && is_empty (rstrip s)) eqn:E; [done|].
  simpl. by rewrite IH, E.
Qed.

Lemma uni_strip_idem s : strip (strip s) = strip s.
Proof.
  unfold strip.
  rewrite (uni_lstrip_id (rstrip (lstrip s))).
  - apply uni_rstrip_idem.
  - apply uni_rstrip_no_lead_space, uni_lstrip_no_lead_space.
Qed.

Lemma uni_strip_fixed_iff s : strip s = s ↔ no_lead_space s ∧ rstrip s = s.
Proof.
  split.
  - intros H. assert (no_lead_space s) as Hl.
    { rewrite <- H. apply uni_rstrip_no_lead_space, uni_lstrip_no_lead_space. }
    split; [done|]. unfold strip in H. by rewrite (uni_lstrip_id _ Hl) in H.
  - intros [Hl Hr]. unfold strip. by rewrite (uni_lstrip_id _ Hl).
Qed.

Lemma uni_rstrip_app_nonempty a s :
  rstrip s ≠ [] → rstrip (a ++ s) = a ++ rstrip s.
Proof.
  intros Hs. induction a as [|c a IH]; [done|].
  simpl. rewrite IH.
  assert (is_empty (a ++ rstrip s) = false) as ->.
  { apply uni_is_empty_false. by destruct a, (rstrip s). }
  by rewrite andb_false_r.
Qed.

Lemma uni_strip_app_stripped a s :
  no_lead_space a → a ≠ [] → strip s = s → s ≠ [] → strip (a ++ s) = a ++ s.
Proof.
  intros Ha Hane Hs Hsne. unfold strip.
  assert (no_lead_space (a ++ s)) as Hl by by destruct a.
  rewrite (uni_lstrip_id _ Hl).
  apply uni_strip_fixed_iff in Hs as [_ Hr].
  rewrite uni_rstrip_app_nonempty; rewrite Hr; done.
Qed.

Lemma uni_rstrip_cons_fixed c r :
  rstrip (c :: r) = c :: r → rstrip r = r ∧ (isspace c = true → r ≠ []).
Proof.
  simpl. destruct (isspace c && is_empty (rstrip r)) eqn:E; [done|].
  intros [= Hr]. split; [done|]. intros Hc Hemp. subst r.
  rewrite Hc in E. done.
Qed.


Lemma uni_rstrip_fixed_app s t :
  rstrip t = t → t ≠ [] → rstrip (s ++ t) = s ++ t.
Proof. intros Ht Hne. rewrite uni_rstrip_app_nonempty; by rewrite Ht. Qed.

Lemma uni_rstrip_fixed_all t :
  Forall (fun d => isspace d = false) t → rstrip t = t.
Proof.
  induction 1 as [|d t Hd _ IH]; [done|]. simpl. by rewrite Hd, IH.
Qed.

(** *** [re.sub(r"\s+", " ", s)] *)











(** *** Digits *)

Section Digits.
Variable U : chardata.

Lemma uni_concat_findall_digits_go cur s :
  concat (findall_digits_go U cur s) = cur ++ List.filter (is_decimal U) s.
Proof.
  revert cur. induction s as [|c s IH]; intros cur; simpl.
  - rewrite app_nil_r. destruct cur; [done|]. simpl. by rewrite app_nil_r.
  - destruct (is_decimal U c).
    + rewrite IH, <- app_assoc. done.
    + rewrite concat_app, IH. simpl.
      destruct cur; [done|]. simpl. by rewrite app_nil_r.
Qed.

Lemma uni_normalize_phone_digits raw :
  normalize_phone U raw = List.filter (is_decimal U) (or_empty raw).
Proof. unfold normalize_phone, findall_digits. by rewrite uni_concat_findall_digits_go. Qed.

Lemma uni_filter_idem (p : N → bool) (s : str) :
  List.filter p (List.filter p s) = List.filter p s.
Proof.
  induction s as [|c s IH]; [done|]. simpl.
  destruct (p c) eqn:E; simpl; by rewrite ?E, IH.
Qed.

Lemma uni_filter_forallb (p : N → bool) (s : str) : forallb p (List.filter p s) = true.
Proof.
  induction s as [|c s IH]; [done|]. simpl.
  destruct (p c) eqn:E; simpl; by rewrite ?E, ?IH.
Qed.

Lemma uni_filter_fixed (p : N → bool) (s : str) :
  forallb p s = true → List.filter p s = s.
Proof.
  induction s as [|c s IH]; [done|]. simpl.
  intros [Hc Hs]%andb_true_iff. by rewrite Hc, IH.
Qed.

Lemma uni_filter_length (p : N → bool) (s : str) :
  length (List.filter p s) ≤ length s.
Proof.
  induction s as [|c s IH]; [done|]. simpl. destruct (p c); simpl; lia.
Qed.

Lemma uni_normalize_phone_idem raw :
  normalize_phone U (Some (normalize_phone U raw)) = normalize_phone U raw.
Proof. rewrite !uni_normalize_phone_digits. simpl. apply uni_filter_idem. Qed.

(** X10. [normalize_phone] and [normalize_unp] keep the decimal digits of
    their argument, in order, and nothing else, whatever the script the
    digits are written in: the result is a text of decimal digits no
    longer than the argument, a text is returned as it is exactly when
    it holds decimal digits only, and the digits of a concatenation are
    those of its parts. *)
Theorem normalize_phone_keeps_digits :
  (∀ raw : option str,
     normalize_phone U raw = List.filter (is_decimal U) (or_empty raw) ∧
     normalize_unp U raw = normalize_phone U raw ∧
     forallb (is_decimal U) (normalize_phone U raw) = true ∧
     length (normalize_phone U raw) ≤ length (or_empty raw)) ∧
  (∀ s : str, normalize_phone U (Some s) = s ↔ forallb (is_decimal U) s = true) ∧
  (∀ a b : str,
     normalize_phone U (Some (a ++ b))
     = normalize_phone U (Some a) ++ normalize_phone U (Some b)).
Proof.
  split; [|split].
  - intros raw. split; [apply uni_normalize_phone_digits|]. split; [reflexivity|].
    rewrite uni_normalize_phone_digits. split.
    + apply uni_filter_forallb.
    + apply uni_filter_length.
  - intros s. rewrite uni_normalize_phone_digits. simpl. split.
    + intros <-. apply uni_filter_forallb.
    + apply uni_filter_fixed.
  - intros a b. rewrite !uni_normalize_phone_digits. simpl. apply List.filter_app.
Qed.

(** *** [source_prefix] *)

(** X12. [source_prefix] looks at the stripped identifier only and sorts it
    into one of three classes: the import prefix when it begins with it;
    otherwise [digits] when it is a non-empty text of digits as
    [str.isdigit] counts them; [other] in every other case. *)
Theorem source_prefix_classes (source_id : str) :
  source_prefix U (strip source_id) = source_prefix U source_id ∧
  (source_prefix U source_id = lit "biznesinfo-" ↔
     startswith (strip source_id) (lit "biznesinfo-") = true) ∧
  (source_prefix U source_id = lit "digits" ↔
     startswith (strip source_id) (lit "biznesinfo-") = false ∧
     strip source_id ≠ [] ∧ forallb (is_digit U) (strip source_id) = true) ∧
  (source_prefix U source_id = lit "other" ↔
     startswith (strip source_id) (lit "biznesinfo-") = false ∧
     (strip source_id = [] ∨ forallb (is_digit U) (strip source_id) = false)).
Proof.
  unfold source_prefix. rewrite uni_strip_idem.
  change IMPORTED_SOURCE_ID_PREFIX with (lit "biznesinfo-").
  split; [done|].
  destruct (startswith (strip source_id) (lit "biznesinfo-")) eqn:Hp.
  - split; [done|]. split; [split; [done|by intros [? _]]|].
    split; [done|by intros [? _]].
  - unfold str_isdigit.
    destruct (is_empty (strip source_id)) eqn:Hemp; simpl.
    + apply uni_is_empty_true in Hemp.
      split; [done|]. split; [split; [done|by intros (_ & ? & _)]|]. split; [|done].
      intros _. split; [done|]. by left.
    + apply uni_is_empty_false in Hemp.
      destruct (forallb (is_digit U) (strip source_id)) eqn:Hall.
      * split; [done|]. split; [done|]. split; [done|]. by intros [_ [?|?]].
      * split; [done|]. split; [split; [done|by intros (_ & _ & ?)]|].
        split; [|done]. intros _. split; [done|]. by right.
Qed.

End Digits.

(** *** [uniq_keep_order] *)

Lemma uni_uniq_keep_order_go_elem (seen : gset str) (values : list str) y :
  y ∈ uniq_keep_order_go seen values ↔
  y ≠ [] ∧ (y ∉ seen) ∧ ∃ v, v ∈ values ∧ y = strip v.
Proof.
  revert seen. induction values as [|v rest IH]; intros seen.
  { simpl. split; [by intros ?%elem_of_nil|]. by intros (_ & _ & v & ?%elem_of_nil & _). }
  cbn [uniq_keep_order_go].
  destruct (is_empty (strip v)) eqn:Hemp.
  { apply uni_is_empty_true in Hemp. rewrite IH. split.
    - intros (? & ? & v' & ? & ?). do 2 (split; [done|]). exists v'. split; [by right|done].
    - intros (Hne & ? & v' & [->|Hv']%elem_of_cons & Hy); [congruence|].
      do 2 (split; [done|]). by exists v'. }
  apply uni_is_empty_false in Hemp.
  destruct (decide (strip v ∈ seen)) as [Hin|Hnotin].
  { rewrite IH. split.
    - intros (? & ? & v' & ? & ?). do 2 (split; [done|]). exists v'. split; [by right|done].
    - intros (Hne & Hy & v' & [->|Hv']%elem_of_cons & ->); [done|].
      do 2 (split; [done|]). by exists v'. }
  rewrite elem_of_cons, IH. split.
  - intros [->|(Hne & Hy & v' & Hv' & ->)].
    + do 2 (split; [done|]). exists v. split; [by left|done].
    + split; [done|]. split; [|exists v'; split; [by right|done]].
      intros H. apply Hy, elem_of_union_r, H.
  - intros (Hne & Hy & v' & [->|Hv']%elem_of_cons & ->); [by left|].
    destruct (decide (strip v' = strip v)) as [Heq|Hdiff]; [by left|]. right.
    split; [done|]. split; [|by exists v'].
    intros [?%elem_of_singleton|?]%elem_of_union; done.
Qed.

Lemma uni_uniq_keep_order_go_NoDup (seen : gset str) (values : list str) :
  NoDup (uniq_keep_order_go seen values).
Proof.
  revert seen. induction values as [|v rest IH]; intros seen; [constructor|].
  cbn [uniq_keep_order_go].
  destruct (is_empty (strip v)); [apply IH|].
  destruct (decide (strip v ∈ seen)); [apply IH|].
  constructor; [|apply IH].
  rewrite uni_uniq_keep_order_go_elem. intros (_ & Hy & _).
  apply Hy, elem_of_union_l. by apply elem_of_singleton.
Qed.

Lemma uni_uniq_keep_order_go_fixed (seen : gset str) (values : list str) :
  Forall (fun y => strip y = y ∧ y ≠ []) values →
  NoDup values →
  (∀ y, y ∈ values → y ∉ seen) →
  uniq_keep_order_go seen values = values.
Proof.
  revert seen. induction values as [|v rest IH]; intros seen Hall Hnd Hfresh; [done|].
  cbn [uniq_keep_order_go]. inversion Hall as [|? ? [Hs Hne] Hall']; subst.
  inversion Hnd as [|? ? Hnotin Hnd']; subst.
  rewrite Hs. apply uni_is_empty_false in Hne. rewrite Hne.
  destruct (decide (v ∈ seen)) as [Hin|_].
  { exfalso. apply (Hfresh v); [by left | done]. }
  f_equal. apply IH; [done|done|].
  intros y Hy. specialize (Hfresh y (list_elem_of_further _ _ _ Hy)).
  intros [->%elem_of_singleton|Hseen]%elem_of_union; done.
Qed.

Lemma uni_uniq_keep_order_elem (values : list str) y :
  y ∈ uniq_keep_order values ↔ y ≠ [] ∧ ∃ v, v ∈ values ∧ y = strip v.
Proof.
  unfold uniq_keep_order. rewrite uni_uniq_keep_order_go_elem. split.
  - by intros (? & _ & ?).
  - intros [? ?]. split; [done|]. split; [apply not_elem_of_empty|done].
Qed.

(** *** [casefold], [lower] and the scheme of a link *)

Section Tables.
Variable U : chardata.
Hypothesis HU : chardata_laws U.

Lemma uni_casefold_app s t : casefold U (s ++ t) = casefold U s ++ casefold U t.
Proof.
  induction s as [|c s IH]; [done|]. simpl. by rewrite IH, app_assoc.
Qed.

Lemma uni_casefold_fixed t :
  Forall (fun d => to_folded U d = [d]) t → casefold U t = t.
Proof. induction 1 as [|d t Hd _ IH]; [done|]. simpl. by rewrite Hd, IH. Qed.

Lemma uni_casefold_idem s : casefold U (casefold U s) = casefold U s.
Proof.
  induction s as [|c s IH]; [done|]. simpl.
  rewrite uni_casefold_app, IH. f_equal.
  apply uni_casefold_fixed, Forall_forall. intros d Hd.
  by eapply folded_fixed.
Qed.

Lemma uni_casefold_nil s : casefold U s = [] → s = [].
Proof.
  destruct s as [|c s]; [done|]. simpl. intros [H _]%app_eq_nil.
  destruct (isspace c) eqn:E.
  - by rewrite (folded_space U HU c E) in H.
  - by destruct (folded_nonspace U HU c E).
Qed.

Lemma uni_casefold_no_lead_space s : no_lead_space s → no_lead_space (casefold U s).
Proof.
  destruct s as [|c s]; [done|]. simpl. intros Hc.
  destruct (folded_nonspace U HU c Hc) as [Hne Hall].
  destruct (to_folded U c) as [|d ds]; [done|]. simpl. by inversion Hall.
Qed.

Lemma uni_casefold_rstrip s : rstrip s = s → rstrip (casefold U s) = casefold U s.
Proof.
  induction s as [|c s IH]; [done|].
  intros [Hs Hc]%uni_rstrip_cons_fixed. simpl.
  destruct (isspace c) eqn:E.
  - rewrite (folded_space U HU c E). simpl. rewrite (IH Hs), E.
    assert (is_empty (casefold U s) = false) as ->; [|done].
    apply uni_is_empty_false. intros H%uni_casefold_nil. by apply Hc.
  - destruct (folded_nonspace U HU c E) as [Hne Hall].
    destruct (decide (casefold U s = [])) as [->|Hs'].
    + rewrite app_nil_r. by apply uni_rstrip_fixed_all.
    + apply uni_rstrip_fixed_app; [by apply IH|done].
Qed.

Lemma uni_casefold_strip s : strip s = s → strip (casefold U s) = casefold U s.
Proof.
  intros [Hl Hr]%uni_strip_fixed_iff. apply uni_strip_fixed_iff.
  split; [by apply uni_casefold_no_lead_space|by apply uni_casefold_rstrip].
Qed.


Lemma uni_normalize_email_idem raw :
  normalize_email U (Some (normalize_email U raw)) = normalize_email U raw.
Proof.
  unfold normalize_email. simpl.
  rewrite uni_casefold_strip by apply uni_strip_idem. apply uni_casefold_idem.
Qed.



Lemma uni_prefix_by_refl p s :
  Forall (fun c => (c < 128)%N) p → prefix_by (ieq U) p (p ++ s) = true.
Proof.
  induction 1 as [|c p Hc _ IH]; [done|]. simpl.
  by rewrite (ieq_refl U HU c Hc), IH.
Qed.

Lemma uni_https_prefix_scheme s : match_http_scheme U (lit "https://" ++ s) = true.
Proof.
  unfold match_http_scheme. rewrite (uni_prefix_by_refl (lit "https://")).
  - apply orb_true_r.
  - apply Forall_forall. intros c Hc. vm_compute in Hc.
    repeat (apply elem_of_cons in Hc as [->|Hc]; [done|]). by apply elem_of_nil in Hc.
Qed.

Lemma uni_https_prefix_not_mail s : is_mail_or_tel U (lit "https://" ++ s) = false.
Proof.
  unfold is_mail_or_tel, lower. change (lit "https://" ++ s) with (104%N :: (lit "ttps://" ++ s)).
  cbn [lower_go]. change (104 =? CAPITAL_SIGMA)%N with false. cbn iota.
  rewrite (lower_ascii U HU 104%N) by done. done.
Qed.

Lemma uni_match_http_scheme_nonempty y : match_http_scheme U y = true → y ≠ [].
Proof. intros H ->. discriminate H. Qed.

Lemma uni_website_entry_normal y : normal_site U y → website_entry U y = Some y.
Proof.
  intros (Hs & Hm & Hmail). unfold website_entry.
  rewrite (proj2 (uni_is_empty_false y) (uni_match_http_scheme_nonempty _ Hm)).
  by rewrite Hmail, Hm.
Qed.

Lemma uni_website_entry_gives_normal s e :
  strip s = s → website_entry U s = Some e → normal_site U e.
Proof.
  intros Hs. unfold website_entry.
  destruct (is_empty s) eqn:Hne; [done|].
  destruct (is_mail_or_tel U s) eqn:Hmail; [done|].
  destruct (match_http_scheme U s) eqn:Hm; intros He.
  - assert (e = s) as -> by congruence. by split.
  - assert (e = lit "https://" ++ s) as -> by congruence.
    split; [|split; [apply uni_https_prefix_scheme|apply uni_https_prefix_not_mail]].
    apply uni_strip_app_stripped; [done|done|done|by apply uni_is_empty_false].
Qed.

Lemma uni_website_entries_normal (values : list str) :
  Forall (normal_site U) (omap (fun raw => website_entry U (strip raw)) values).
Proof.
  induction values as [|v rest IH]; simpl; [constructor|].
  destruct (website_entry U (strip v)) as [e|] eqn:He; [|done].
  constructor; [|done].
  eapply uni_website_entry_gives_normal; [|exact He]. apply uni_strip_idem.
Qed.

Lemma uni_website_entries_fixed (values : list str) :
  Forall (normal_site U) values →
  omap (fun raw => website_entry U (strip raw)) values = values.
Proof.
  induction 1 as [|v rest Hv _ IH]; [done|].
  change (omap (fun raw => website_entry U (strip raw)) (v :: rest))
    with (match website_entry U (strip v) with
          | Some e => e :: omap (fun raw => website_entry U (strip raw)) rest
          | None => omap (fun raw => website_entry U (strip raw)) rest
          end).
  destruct Hv as (Hs & Hm & Hmail).
  rewrite Hs, uni_website_entry_normal by done. by rewrite IH.
Qed.

Lemma uni_website_entry_elem (values : list str) y :
  y ∈ normalize_websites U values ↔ ∃ v, v ∈ values ∧ website_entry U (strip v) = Some y.
Proof.
  unfold normalize_websites.
  rewrite uni_uniq_keep_order_elem.
  pose proof (uni_website_entries_normal values) as Hnorm. rewrite Forall_forall in Hnorm.
  split.
  - intros (Hne & e & He & ->). destruct (Hnorm e He) as [Hs _]. rewrite Hs.
    apply list_elem_of_omap in He as (v & Hv & He). by exists v.
  - intros (v & Hv & He).
    assert (y ∈ omap (fun raw => website_entry U (strip raw)) values) as Hy.
    { apply list_elem_of_omap. by exists v. }
    destruct (Hnorm y Hy) as (Hs & Hm & _). split.
    + by apply uni_match_http_scheme_nonempty.
    + by exists y.
Qed.

Lemma uni_normalize_websites_spec values :
  Forall (normal_site U) (normalize_websites U values) ∧
  NoDup (normalize_websites U values).
Proof.
  split; [|apply uni_uniq_keep_order_go_NoDup].
  apply Forall_forall. intros y (v & Hv & He)%uni_website_entry_elem.
  eapply uni_website_entry_gives_normal; [|exact He]. apply uni_strip_idem.
Qed.

Lemma uni_normalize_websites_fixed values :
  Forall (normal_site U) values → NoDup values → normalize_websites U values = values.
Proof.
  intros Hall Hnd. unfold normalize_websites, uniq_keep_order.
  rewrite uni_website_entries_fixed by done.
  apply uni_uniq_keep_order_go_fixed; [|done|].
  - eapply Forall_impl; [exact Hall|].
    intros y (Hs & Hm & _). split; [done|]. by apply uni_match_http_scheme_nonempty.
  - intros y _. apply not_elem_of_empty.
Qed.

Lemma uni_normalize_websites_idem values :
  normalize_websites U (normalize_websites U values) = normalize_websites U values.
Proof.
  destruct (uni_normalize_websites_spec values).
  by apply uni_normalize_websites_fixed.
Qed.

(** X11. Every entry [normalize_websites] returns is stripped, matches
    [^https?://] without regard to case and is no [mailto:] or [tel:]
    link, and no entry is returned twice. The entries are the values the
    loop keeps: an entry with a scheme as it is, any other behind
    [https://]. A list is returned unchanged exactly when it is of that
    form already. *)
Theorem normalize_websites_normal_form (values : list str) :
  Forall (fun y => strip y = y ∧ y ≠ [] ∧ match_http_scheme U y = true ∧
                   is_mail_or_tel U y = false)
         (normalize_websites U values) ∧
  NoDup (normalize_websites U values) ∧
  (∀ y, y ∈ normalize_websites U values ↔
        ∃ v, v ∈ values ∧ strip v ≠ [] ∧ is_mail_or_tel U (strip v) = false ∧
             y = if match_http_scheme U (strip v) then strip v
                 else lit "https://" ++ strip v) ∧
  (normalize_websites U values = values ↔
     Forall (fun y => strip y = y ∧ match_http_scheme U y = true ∧
                      is_mail_or_tel U y = false) values ∧ NoDup values).
Proof.
  destruct (uni_normalize_websites_spec values) as [Hall Hnd].
  split; [|split; [done|split]].
  - eapply Forall_impl; [exact Hall|]. intros y (Hs & Hm & Hmail).
    split; [done|]. split; [by eapply uni_match_http_scheme_nonempty|]. by split.
  - intros y. rewrite uni_website_entry_elem. unfold website_entry. split.
    + intros (v & Hv & He). exists v. split; [done|].
      destruct (is_empty (strip v)) eqn:Hemp; [done|].
      destruct (is_mail_or_tel U (strip v)); [done|].
      split; [by apply uni_is_empty_false|]. split; [done|].
      destruct (match_http_scheme U (strip v)); by injection He as <-.
    + intros (v & Hv & Hne & Hmail & ->). exists v. split; [done|].
      apply uni_is_empty_false in Hne. rewrite Hne, Hmail.
      by destruct (match_http_scheme U (strip v)).
  - split.
    + intros <-. done.
    + intros [? ?]. by apply uni_normalize_websites_fixed.
Qed.

(** C4. Normalisation is idempotent on every text, in whatever script:
    normalising a normalised phone, e-mail or website list gives the
    same value again. *)
Theorem normalization_idempotent :
  (∀ s : str,
     normalize_phone U (Some (normalize_phone U (Some s))) = normalize_phone U (Some s)) ∧
  (∀ s : str,
     normalize_email U (Some (normalize_email U (Some s))) = normalize_email U (Some s)) ∧
  (∀ xs : list str,
     normalize_websites U (normalize_websites U xs) = normalize_websites U xs).
Proof.
  split; [|split].
  - intros s. apply uni_normalize_phone_idem.
  - intros s. apply uni_normalize_email_idem.
  - apply uni_normalize_websites_idem.
Qed.

End Tables.

(** *** The sample tables *)

Lemma uni_in_range_spec a b c : in_range a b c = true ↔ (a ≤ c ≤ b)%N.
Proof. unfold in_range. by rewrite andb_true_iff, !N.leb_le. Qed.

Lemma uni_in_range_false a b c : in_range a b c = false ↔ (c < a ∨ b < c)%N.
Proof.
  unfold in_range. rewrite andb_false_iff, !N.leb_gt. done.
Qed.

Lemma sample_lower_cases c :
  ((65 ≤ c ≤ 90 ∧ sample_lower c = c + 32) ∨
   (1040 ≤ c ≤ 1071 ∧ sample_lower c = c + 32) ∨
   (1024 ≤ c ≤ 1039 ∧ sample_lower c = c + 80) ∨
   ((c < 65 ∨ 90 < c) ∧ (c < 1024 ∨ 1071 < c) ∧ sample_lower c = c))%N.
Proof.
  unfold sample_lower.
  destruct (in_range 65 90 c) eqn:E1.
  { apply uni_in_range_spec in E1. by left. }
  destruct (in_range 1040 1071 c) eqn:E2.
  { apply uni_in_range_spec in E2. right. by left. }
  destruct (in_range 1024 1039 c) eqn:E3.
  { apply uni_in_range_spec in E3. right. right. by left. }
  apply uni_in_range_false in E1, E2, E3. right. right. right. lia.
Qed.

Lemma sample_lower_fixed c :
  (c < 65 ∨ 90 < c)%N → (c < 1024 ∨ 1071 < c)%N → sample_lower c = c.
Proof. intros ??. destruct (sample_lower_cases c) as [?|[?|[?|(_ & _ & ?)]]]; [lia..|done]. Qed.

Lemma sample_lower_idem c : sample_lower (sample_lower c) = sample_lower c.
Proof.
  destruct (sample_lower_cases c) as [[? ->]|[[? ->]|[[? ->]|(? & ? & ->)]]];
    apply sample_lower_fixed; lia.
Qed.

Lemma sample_lower_isspace c : isspace (sample_lower c) = isspace c.
Proof.
  destruct (sample_lower_cases c) as [[? E]|[[? E]|[[? E]|(? & ? & E)]]];
    rewrite E; [| | |done];
    (destruct (isspace (c + _)) eqn:E1, (isspace c) eqn:E2; try done;
     [apply uni_isspace_spec in E1|apply uni_isspace_spec in E2]; lia).
Qed.

Lemma sample_fold_cases c :
  (c = LONG_S ∧ sample_fold c = 115%N) ∨ (c ≠ LONG_S ∧ sample_fold c = sample_lower c).
Proof.
  unfold sample_fold. destruct (N.eqb_spec c LONG_S); [by left|by right].
Qed.

Lemma sample_fold_fixed c :
  sample_fold (sample_fold c) = sample_fold c ∧ sample_fold c ≠ SHARP_S ∨ c = SHARP_S.
Proof.
  destruct (N.eq_dec c SHARP_S) as [|Hss]; [by right|left].
  destruct (sample_fold_cases c) as [[-> ->]|[Hls ->]]; [by vm_compute|].
  assert (sample_lower c ≠ LONG_S ∧ sample_lower c ≠ SHARP_S) as [H1 H2].
  { unfold LONG_S, SHARP_S in *.
    destruct (sample_lower_cases c) as [[? ->]|[[? ->]|[[? ->]|(? & ? & ->)]]]; lia. }
  split; [|done]. unfold sample_fold at 1.
  destruct (N.eqb_spec (sample_lower c) LONG_S); [done|]. apply sample_lower_idem.
Qed.

Lemma sample_fold_isspace c : isspace (sample_fold c) = isspace c.
Proof.
  destruct (sample_fold_cases c) as [[-> ->]|[_ ->]]; [by vm_compute|].
  apply sample_lower_isspace.
Qed.

Lemma sample_tables_laws : chardata_laws sample_tables.
Proof.
  split; simpl.
  - intros c Hc. f_equal. unfold sample_lower.
    change ((65 <=? c)%N && (c <=? 90)%N) with (in_range 65 90 c).
    destruct (in_range 65 90 c); [done|].
    destruct (in_range 1040 1071 c) eqn:E2; [apply uni_in_range_spec in E2; lia|].
    destruct (in_range 1024 1039 c) eqn:E3; [apply uni_in_range_spec in E3; lia|done].
  - intros c d. destruct (N.eqb_spec c SHARP_S) as [->|Hc].
    + intros Hd. assert (d = 115%N) as ->; [|by vm_compute].
      apply elem_of_cons in Hd as [->|Hd]; [done|].
      by apply list_elem_of_singleton in Hd.
    + intros ->%list_elem_of_singleton.
      destruct (sample_fold_fixed c) as [[Hfix Hne]|?]; [|done].
      destruct (N.eqb_spec (sample_fold c) SHARP_S); [done|]. by rewrite Hfix.
  - intros c Hc. destruct (N.eqb_spec c SHARP_S) as [->|_]; [by vm_compute in Hc|].
    f_equal. destruct (sample_fold_cases c) as [[-> _]|[_ ->]]; [by vm_compute in Hc|].
    apply uni_isspace_spec in Hc. apply sample_lower_fixed; lia.
  - intros c Hc. destruct (N.eqb_spec c SHARP_S) as [_|_].
    + split; [done|]. by repeat constructor.
    + split; [done|]. constructor; [|done]. by rewrite sample_fold_isspace.
  - intros c _. apply N.eqb_refl.
Qed.

(** The normalisers on text in several scripts: a phone number in
    fullwidth digits, an e-mail address in Cyrillic capitals and with a
    sharp s, a name between no-break spaces, links with a scheme in
    capitals and with a long s, identifiers in superscript digits. *)
Example uni_normalize_examples :
  normalize_phone sample_tables (Some (lit "+375 (29) 123-45-67")) = lit "375291234567" ∧
  normalize_phone sample_tables (Some ([65297]%N ++ lit "29"))%N = ([65297]%N ++ lit "29")%N ∧
  normalize_email sample_tables (Some (lit "  Info@Example.BY ")) = lit "info@example.by" ∧
  normalize_email sample_tables (Some ([160; 1048; 1053; 1060; 1054]%N ++ lit "@Stra" ++ [223]%N ++ lit "e.BY"))%N
  = ([1080; 1085; 1092; 1086]%N ++ lit "@strasse.by")%N ∧
  norm_text sample_tables (Some (lit "  OOO   Romashka ")) = lit "ooo romashka" ∧
  norm_text sample_tables (Some ([160; 1054; 1054; 1054; 8195; 160; 1056; 1086; 1084]%N ++ [12288]%N))%N
  = [1086; 1086; 1086; 32; 1088; 1086; 1084]%N ∧
  normalize_websites sample_tables
    (lit <$> [" Example.by "; "mailto:a@b.by"; "HTTP://a.by"; "example.by"; "TEL:1"; "";
              "https://a.by "])
  = lit <$> ["https://Example.by"; "HTTP://a.by"; "https://example.by"; "https://a.by"] ∧
  normalize_websites sample_tables [lit "http" ++ [383]%N ++ lit "://a.by"; 160 :: lit "b.by"]%N
  = [lit "http" ++ [383]%N ++ lit "://a.by"; lit "https://b.by"]%N ∧
  norm_space (Some (160%N :: lit "a" ++ [160; 8195]%N ++ lit "b" ++ [12288]%N))%N = lit "a b" ∧
  source_prefix sample_tables (lit " 12345 ") = lit "digits" ∧
  source_prefix sample_tables [178; 179]%N = lit "digits" ∧
  normalize_unp sample_tables (Some [178; 179]%N)%N = [].
Proof. repeat split; vm_compute; reflexivity. Qed.

(** The three normalisers at the sample tables, on a phone in fullwidth
    digits, an e-mail address in Cyrillic capitals and a list of links. *)
Lemma normalization_idempotent_witness :
  normalize_phone sample_tables
    (Some (normalize_phone sample_tables (Some ([43; 65299; 65303; 65301]%N ++ lit " 29 1234567"))))
  = normalize_phone sample_tables (Some ([43; 65299; 65303; 65301]%N ++ lit " 29 1234567")) ∧
  normalize_email sample_tables
    (Some (normalize_email sample_tables
             (Some ([160; 1048; 1053; 1060; 1054]%N ++ lit "@Stra" ++ [223]%N ++ lit "e.BY"))))
  = normalize_email sample_tables
      (Some ([160; 1048; 1053; 1060; 1054]%N ++ lit "@Stra" ++ [223]%N ++ lit "e.BY")) ∧
  normalize_websites sample_tables
    (normalize_websites sample_tables
       [160%N :: lit "Example.by "; lit "HTTP" ++ [383]%N ++ lit "://a.by"; lit "tel:1"])
  = normalize_websites sample_tables
      [160%N :: lit "Example.by "; lit "HTTP" ++ [383]%N ++ lit "://a.by"; lit "tel:1"].
Proof.
  destruct (normalization_idempotent sample_tables sample_tables_laws) as (Hp & He & Hw).
  exact (conj (Hp _) (conj (He _) (Hw _))).
Defined.


(** Links behind a no-break space and with a long s in the scheme. *)
Lemma normalize_websites_normal_form_witness :
  NoDup (normalize_websites sample_tables
           [160%N :: lit "Example.by "; lit "HTTP" ++ [383]%N ++ lit "://a.by"; lit "tel:1"]%N).
Proof.
  exact (proj1 (proj2 (normalize_websites_normal_form sample_tables sample_tables_laws _))).
Defined.

End UnicodeFacts.
